(** * async-helpers: the wrap / stash / resolve core, embedded and verified

    The development embeds the promise-based [AsyncHelpers] class in its two
    resolver sources under [src/unnamed],

      - [part_002]: the TypeScript class (private fields, [es6-promisify]),
      - [part_004]: the JavaScript class ([util.promisify], [isObject]),

    and, for [wrapHelper] only, the earlier JavaScript class of [part_005].
    The older class in the second half of [part_004] (lines 190 to 288) is
    embedded on its own, in the module [Older].
    The two resolver sources differ in a handful of lines; the definitions
    below take the source as a parameter and branch exactly where the files
    differ.

    Modelling conventions.

      - JavaScript values are the inductive [jsvalue]: [undefined], [null],
        booleans, integral numbers (exact below 2^53, where their decimal
        form has no exponent), strings, arrays and plain data objects (own
        enumerable data properties in enumeration order, keys unique).
        Functions are not [jsvalue]s: helpers live in the registry as [Helper]
        records, and a helper body is a function of its receiver and its
        arguments that either produces a value or fails, with an [Error]
        or with a thrown value that is no [Error].  A body makes no call on
        the instance.
      - Strings are sequences of the 256 one-byte characters.
      - [helperIds], [rawHelpers] and [wrappedHelpers] are objects used as
        maps; they are association lists in insertion order, which is the
        order [Object.keys] enumerates for keys that are not array indices
        (no identifier is one: each ends in [@@@]).  A helper name that is
        an array index, such as [7], is listed by [Object.keys] before the
        other names; the order of the registries is modelled for other
        names only.  A read of a key that the list does not have and
        [Object.prototype] defines finds the inherited member.
      - The messages of the errors that the engine throws are those of V8.
      - An argument object or array is a value: the assignments of the
        [hash] loop to the object that the record still references are not
        written back to the record.
      - An [async] function is run to completion at the point where its
        promise is awaited; [Promise.all] over an array awaits its elements
        in array order, and a rejected element ends the wait.  JavaScript
        starts all elements before any implementation runs: a record that
        is reached twice within one call is then resolved twice, where the
        model finds the memo the second time; and when several elements
        are rejected, JavaScript rejects with the one that settles first
        and lets the others run on, where the model rejects with the first
        in array order and stops.  The state is threaded
        explicitly, a rejection is the outcome [Rejected], and recursion is
        bounded by fuel, whose exhaustion is the outcome [Diverged].
      - [new RegExp(source)] is modelled for sources without regular
        expression syntax characters, where the pattern matches its own text
        and nothing else; any other source gives the outcome [Unmodelled].
      - The counter is a natural number; the source increments a double,
        which is exact below 2^53.
      - The field [calls] of the state is instrumentation: it records every
        application of a stored implementation, so that statements about
        how often a helper runs can be made. *)

From Stdlib Require Import String Ascii List ZArith Lia Bool Arith.
From Stdlib Require Import DecimalString DecimalNat.
Import ListNotations.

Local Open Scope list_scope.
Local Open Scope string_scope.

Set Warnings "-register-all".

(** ** Characters and strings *)

Definition dquote : string := String (ascii_of_nat 34) EmptyString.

Definition is_digit (c : ascii) : bool :=
  let n := nat_of_ascii c in Nat.leb 48 n && Nat.leb n 57.

(** Line terminators, which the pattern character [.] does not match. *)
Definition is_line_terminator (c : ascii) : bool :=
  let n := nat_of_ascii c in Nat.eqb n 10 || Nat.eqb n 13.

(** Characters that carry meaning in a regular expression source. *)
Definition syntax_characters : list ascii :=
  list_ascii_of_string "\^$.*+?()[]{}|".

Definition is_syntax_character (c : ascii) : bool :=
  existsb (Ascii.eqb c) syntax_characters.

Fixpoint plain (s : string) : bool :=
  match s with
  | EmptyString => true
  | String c r => negb (is_syntax_character c) && plain r
  end.

Fixpoint drop (n : nat) (s : string) : string :=
  match n, s with
  | O, _ => s
  | S k, EmptyString => EmptyString
  | S k, String _ r => drop k r
  end.

(** [occurs p s]: the text [p] is a substring of [s]. *)
Fixpoint occurs (p s : string) : bool :=
  String.prefix p s ||
  match s with
  | EmptyString => false
  | String _ r => occurs p r
  end.

Definition decimal (n : nat) : string :=
  NilEmpty.string_of_uint (Nat.to_uint n).

(** ** JavaScript values *)

Inductive jsvalue : Type :=
| VUndefined
| VNull
| VBool (b : bool)
| VNumber (z : Z)
| VString (s : string)
| VArray (elements : list jsvalue)
| VObject (props : list (string * jsvalue)).

Definition emptyObject : jsvalue := VObject [].

(** What a [throw] or a rejection carries: an [Error], a [TypeError], or a
    value that is no [Error] object ([throw "text"], [Promise.reject()]). *)
Inductive exn : Type :=
| JsError (message : string)
| JsTypeError (message : string)
| Thrown (v : jsvalue).

(** The message of an [Error]; a value that is no [Error] has none. *)
Definition message (e : exn) : string :=
  match e with
  | JsError m => m
  | JsTypeError m => m
  | Thrown _ => EmptyString
  end.

(** ToBoolean *)
Definition truthy (v : jsvalue) : bool :=
  match v with
  | VUndefined | VNull => false
  | VBool b => b
  | VNumber z => negb (Z.eqb z 0)
  | VString s => negb (String.eqb s EmptyString)
  | VArray _ | VObject _ => true
  end.

Definition is_string (v : jsvalue) : bool :=
  match v with VString _ => true | _ => false end.

Definition typeof_object (v : jsvalue) : bool :=
  match v with VNull | VArray _ | VObject _ => true | _ => false end.

(** [isObject] of [part_004]: truthy, [typeof] object, not an array. *)
Definition isObject (v : jsvalue) : bool :=
  match v with VObject _ => true | _ => false end.

Fixpoint assoc {A : Type} (k : string) (l : list (string * A)) : option A :=
  match l with
  | [] => None
  | (k', a) :: r => if String.eqb k k' then Some a else assoc k r
  end.

(** The names that a plain object inherits from [Object.prototype].  A
    property read [o[k]] on an object used as a map finds the inherited
    member (a function, or the prototype itself for [__proto__]) when [k] is
    one of them and [o] has no own property [k]. *)
Definition object_prototype_members : list string :=
  ["constructor"; "__defineGetter__"; "__defineSetter__"; "hasOwnProperty";
   "__lookupGetter__"; "__lookupSetter__"; "isPrototypeOf";
   "propertyIsEnumerable"; "toString"; "valueOf"; "__proto__";
   "toLocaleString"].

Definition inherited (k : string) : bool :=
  existsb (String.eqb k) object_prototype_members.

(** Property read [v.hash]; a missing property reads as [undefined]. *)
Definition get_hash (v : jsvalue) : jsvalue :=
  match v with
  | VObject props => match assoc "hash" props with Some h => h | None => VUndefined end
  | _ => VUndefined
  end.

Definition string_of_Z (z : Z) : string :=
  NilZero.string_of_int (Z.to_int z).

Definition join_with (sep : string) (parts : list string) : string :=
  match parts with
  | [] => EmptyString
  | p :: r => fold_left (fun acc q => acc ++ sep ++ q) r p
  end.

Fixpoint sequence {A : Type} (l : list (option A)) : option (list A) :=
  match l with
  | [] => Some []
  | None :: _ => None
  | Some a :: r => match sequence r with Some r' => Some (a :: r') | None => None end
  end.

(** ToString.  [None] is the [TypeError] of converting an object that has
    an own, non-callable [toString] property to a primitive.
    [Array.prototype.join] writes [undefined] and [null] as the empty
    string. *)
Fixpoint ToString (v : jsvalue) : option string :=
  match v with
  | VUndefined => Some "undefined"
  | VNull => Some "null"
  | VBool true => Some "true"
  | VBool false => Some "false"
  | VNumber z => Some (string_of_Z z)
  | VString s => Some s
  | VArray l =>
      option_map (join_with ",")
        (sequence (map (fun e =>
           match e with
           | VUndefined | VNull => Some EmptyString
           | _ => ToString e
           end) l))
  | VObject props =>
      match assoc "toString" props with
      | Some _ => None
      | None => Some "[object Object]"
      end
  end.

(** Strict equality of a value with a string, [acc === id]. *)
Definition strict_equals_string (v : jsvalue) (s : string) : bool :=
  match v with VString t => String.eqb t s | _ => false end.

(** ** The two uses of [RegExp]

    [hasAsyncId] builds [new RegExp(`${prefix}@.+@\\d+@@@`, "g")] and calls
    [test].  For a plain prefix the pattern reads: the prefix, [@], one or
    more characters other than line terminators, [@], one or more digits,
    [@@@]. *)

(** [\d+@@@] at the head of [s]; [seen] tells whether a digit was read. *)
Fixpoint digits_then_close (seen : bool) (s : string) : bool :=
  match s with
  | EmptyString => false
  | String c r =>
      if is_digit c then digits_then_close true r
      else seen && String.prefix "@@@" s
  end.

(** [.+@\d+@@@] at the head of [s]; [seen] tells whether [.+] has already
    taken a character.  Both continuations of the greedy [.+] are tried. *)
Fixpoint dots_then_counter (seen : bool) (s : string) : bool :=
  match s with
  | EmptyString => false
  | String c r =>
      (seen && Ascii.eqb c "@" && digits_then_close false r)
      || (negb (is_line_terminator c) && dots_then_counter true r)
  end.

Fixpoint test_id_pattern (pfx s : string) : bool :=
  (String.prefix (pfx ++ "@") s
     && dots_then_counter false (drop (String.length pfx + 1) s))
  || match s with
     | EmptyString => false
     | String _ r => test_id_pattern pfx r
     end.

(** [resolveIds] calls [acc.replace(new RegExp(id, "g"), value)].  A
    replacement that is not callable is converted with ToString and then
    expanded at every match: [$$] gives [$], [$&] the matched text, [$`]
    the text before the match and [$'] the text after it.  A pattern without
    groups leaves every other [$] sequence as it is. *)
Fixpoint GetSubstitution (matched before after : string) (replacement : string)
  : string :=
  match replacement with
  | EmptyString => EmptyString
  | String c r =>
      if Ascii.eqb c "$" then
        match r with
        | String d r' =>
            if Ascii.eqb d "$" then
              String "$" (GetSubstitution matched before after r')
            else if Ascii.eqb d "&" then
              matched ++ GetSubstitution matched before after r'
            else if Ascii.eqb d "`" then
              before ++ GetSubstitution matched before after r'
            else if Ascii.eqb d "'" then
              after ++ GetSubstitution matched before after r'
            else String c (GetSubstitution matched before after r)
        | EmptyString => String c EmptyString
        end
      else String c (GetSubstitution matched before after r)
  end.

(** The empty pattern matches before every character and at the end. *)
Fixpoint replace_empty (replacement before s : string) : string :=
  GetSubstitution EmptyString before s replacement
  ++ match s with
     | EmptyString => EmptyString
     | String c r =>
         String c (replace_empty replacement (before ++ String c EmptyString) r)
     end.

(** Global replacement of the non-empty literal [pat] in [s], scanning from
    the left; [before] is the text already passed and [skip] counts the
    characters of the current match that remain to be dropped. *)
Fixpoint replace_scan (pat replacement before : string) (skip : nat) (s : string)
  : string :=
  match s with
  | EmptyString => EmptyString
  | String c r =>
      match skip with
      | S k => replace_scan pat replacement (before ++ String c EmptyString) k r
      | O =>
          if String.prefix pat s then
            GetSubstitution pat before (drop (String.length pat) s) replacement
            ++ replace_scan pat replacement (before ++ String c EmptyString)
                 (String.length pat - 1) r
          else
            String c
              (replace_scan pat replacement (before ++ String c EmptyString) 0 r)
      end
  end.

Definition replace_all (pat replacement s : string) : string :=
  match pat with
  | EmptyString => replace_empty replacement EmptyString s
  | _ => replace_scan pat replacement EmptyString 0 s
  end.

(** ** Helpers, tokens and the instance state *)

Inductive completion : Type :=
| Returns (v : jsvalue)
| Fails (e : exn).

(** How a helper delivers its completion.  [CallbackStyle] is the shape
    [isAsyncWithCb] detects: the completion arrives through the trailing
    error-first callback ([Fails] also stands for a throw before the
    callback is reached).  A callback-style helper that never calls back is
    not modelled. *)
Inductive convention : Type :=
| Synchronous
| PromiseReturning
| CallbackStyle.

Record Helper : Type := {
  convention_of : convention;
  body : jsvalue -> list jsvalue -> completion;   (* receiver, arguments *)
  wrapped_prop : bool                             (* is [fn.wrapped] truthy *)
}.

Definition isAsyncWithCb (h : Helper) : bool :=
  match convention_of h with CallbackStyle => true | _ => false end.

(** [isAsyncWithCb(helper) ? promisify(helper) : helper] *)
Record implementation : Type := {
  target : Helper;
  promisified : bool
}.

Definition normalize (h : Helper) : implementation :=
  {| target := h; promisified := isAsyncWithCb h |}.

(** [await fn.apply(ctx, argz)] *)
Definition settle (f : implementation) (this : jsvalue) (argz : list jsvalue)
  : completion :=
  body (target f) this argz.

(** The entries of [helperIds].  [value] is [None] while the record has no
    own property [value]; [Some VUndefined] is a property holding
    [undefined]. *)
Record Token : Type := {
  id : string;
  name : string;
  args : list jsvalue;
  fn : implementation;
  ctx : jsvalue;
  count : nat;
  value : option jsvalue
}.

Definition value_or_undefined (r : Token) : jsvalue :=
  match value r with Some v => v | None => VUndefined end.

Definition with_value (v : jsvalue) (r : Token) : Token :=
  {| id := id r; name := name r; args := args r; fn := fn r; ctx := ctx r;
     count := count r; value := Some v |}.

(** The closure [wrappedHelper] that [wrapHelper] creates.  Its property
    [wrapped] is set to [true] on creation and nothing in the class changes
    it afterwards. *)
Record WrappedHelper : Type := {
  helperName : string;
  wrappedFn : implementation
}.

(** Instrumentation: one entry per [fn.apply]. *)
Record call : Type := {
  call_id : string;
  call_name : string;
  call_args : list jsvalue;
  call_completion : completion
}.

Record AsyncHelpers : Type := {
  prefix : string;
  counter : nat;
  helperIds : list (string * Token);
  rawHelpers : list (string * option Helper);
  wrappedHelpers : list (string * WrappedHelper);
  calls : list call
}.

Definition defaultPrefix : string := "@@@ASYNCID@".

(** [this.prefix = this.options.prefix || "@@@ASYNCID@"] *)
Definition constructor (options_prefix : option string) : AsyncHelpers :=
  {| prefix := match options_prefix with
               | Some EmptyString | None => defaultPrefix
               | Some p => p
               end;
     counter := 0; helperIds := []; rawHelpers := []; wrappedHelpers := [];
     calls := [] |}.

(** Property assignment [o[k] = a]: an existing key keeps its place, a new
    key goes last. *)
Fixpoint assoc_set {A : Type} (k : string) (a : A) (l : list (string * A))
  : list (string * A) :=
  match l with
  | [] => [(k, a)]
  | (k', a') :: r =>
      if String.eqb k k' then (k', a) :: r else (k', a') :: assoc_set k a r
  end.

Definition keys {A : Type} (l : list (string * A)) : list string := map fst l.

(** ** Outcomes and the state monad *)

Inductive outcome (A : Type) : Type :=
| Fulfilled (a : A)
| Rejected (e : exn)
| Diverged
| Unmodelled.

Arguments Fulfilled {A} a.
Arguments Rejected {A} e.
Arguments Diverged {A}.
Arguments Unmodelled {A}.

Definition M (A : Type) : Type := AsyncHelpers -> outcome A * AsyncHelpers.

Definition ret {A : Type} (a : A) : M A := fun st => (Fulfilled a, st).

Definition bind {A B : Type} (m : M A) (k : A -> M B) : M B :=
  fun st =>
    match m st with
    | (Fulfilled a, st') => k a st'
    | (Rejected e, st') => (Rejected e, st')
    | (Diverged, st') => (Diverged, st')
    | (Unmodelled, st') => (Unmodelled, st')
    end.

Definition throw {A : Type} (e : exn) : M A := fun st => (Rejected e, st).

Definition diverge {A : Type} : M A := fun st => (Diverged, st).

Definition unmodelled {A : Type} : M A := fun st => (Unmodelled, st).

Definition gets {A : Type} (f : AsyncHelpers -> A) : M A :=
  fun st => (Fulfilled (f st), st).

Definition modify (f : AsyncHelpers -> AsyncHelpers) : M unit :=
  fun st => (Fulfilled tt, f st).

(** [try { m } catch (err) { handler(err) }] *)
Definition try_catch {A : Type} (m : M A) (handler : exn -> M A) : M A :=
  fun st =>
    match m st with
    | (Rejected e, st') => handler e st'
    | other => other
    end.

Notation "x <- m ;; k" := (bind m (fun x => k))
  (at level 61, m at next level, right associativity).
Notation "m ;;; k" := (bind m (fun _ => k))
  (at level 61, right associativity).

Fixpoint mapM {A B : Type} (f : A -> M B) (l : list A) : M (list B) :=
  match l with
  | [] => ret []
  | a :: r => b <- f a ;; bs <- mapM f r ;; ret (b :: bs)
  end.

Fixpoint foldM {A B : Type} (f : B -> A -> M B) (l : list A) (b : B) : M B :=
  match l with
  | [] => ret b
  | a :: r => b' <- f b a ;; foldM f r b'
  end.

Fixpoint forEach {A : Type} (f : A -> M unit) (l : list A) : M unit :=
  match l with
  | [] => ret tt
  | a :: r => f a ;;; forEach f r
  end.

(** ** The wrapped helper

    [[
    function wrappedHelper(...args) {
      self.counter += 1;
      const id = `${self.prefix}@${name}@${self.counter}@@@`;
      self.helperIds[id] = { id, name, args, fn, ctx: this || {}, count: self.counter };
      return id;
    }
    ]] *)

Definition make_id (pfx nm : string) (n : nat) : string :=
  pfx ++ "@" ++ nm ++ "@" ++ decimal n ++ "@@@".

Definition wrappedHelper (w : WrappedHelper) (this : jsvalue) (arguments : list jsvalue)
  (self : AsyncHelpers) : string * AsyncHelpers :=
  let n := S (counter self) in
  let i := make_id (prefix self) (helperName w) n in
  (i,
   {| prefix := prefix self;
      counter := n;
      helperIds :=
        assoc_set i
          {| id := i; name := helperName w; args := arguments;
             fn := wrappedFn w;
             ctx := if truthy this then this else emptyObject;
             count := n; value := None |}
          (helperIds self);
      rawHelpers := rawHelpers self;
      wrappedHelpers := wrappedHelpers self;
      calls := calls self |}).

(** ** The registry: [helper] and [wrapHelper] *)

Inductive source : Type :=
| part_002     (* the TypeScript class *)
| part_004.    (* the JavaScript class *)

(** The first parameter of [helper] and [wrapHelper]: a name, an object of
    helpers, or nothing.  The empty name is falsy and is treated by the
    source like a missing one. *)
Inductive nameArg : Type :=
| Name (s : string)
| Helpers (m : list (string * option Helper))
| NoName.

Inductive helperReturn : Type :=
| This
| AllRaw (m : list (string * option Helper))
| Raw (h : option Helper).

Inductive wrapReturn : Type :=
| TheWrapped (w : WrappedHelper)
| TheHelper (h : Helper)
| AllWrapped (m : list (string * WrappedHelper)).

Definition raw_lookup (nm : string) (st : AsyncHelpers) : option Helper :=
  match assoc nm (rawHelpers st) with Some h => h | None => None end.

Definition set_rawHelpers (f : list (string * option Helper) ->
                               list (string * option Helper))
  (st : AsyncHelpers) : AsyncHelpers :=
  {| prefix := prefix st; counter := counter st; helperIds := helperIds st;
     rawHelpers := f (rawHelpers st); wrappedHelpers := wrappedHelpers st;
     calls := calls st |}.

Definition set_wrappedHelpers (f : list (string * WrappedHelper) ->
                                   list (string * WrappedHelper))
  (st : AsyncHelpers) : AsyncHelpers :=
  {| prefix := prefix st; counter := counter st; helperIds := helperIds st;
     rawHelpers := rawHelpers st; wrappedHelpers := f (wrappedHelpers st);
     calls := calls st |}.

(** [helper(name, fn)] for a name that is a string.  The read
    [this.rawHelpers[name]] of a name that [Object.prototype] defines and
    the registry does not returns the inherited member, which the model
    has no value for. *)
Definition helper_named (nm : string) (f : option Helper) : M helperReturn :=
  match nm with
  | EmptyString => raw <- gets rawHelpers ;; ret (AllRaw raw)
  | _ =>
      match f with
      | None =>
          raw <- gets rawHelpers ;;
          match assoc nm raw with
          | Some h => ret (Raw h)
          | None => if inherited nm then unmodelled else ret (Raw None)
          end
      | Some h =>
          modify (set_rawHelpers (assoc_set nm (Some h))) ;;; ret This
      end
  end.

Definition helper (nm : nameArg) (f : option Helper) : M helperReturn :=
  match nm with
  | Helpers m =>
      forEach (fun kv => helper_named (fst kv) (snd kv) ;;; ret tt) m ;;; ret This
  | NoName => raw <- gets rawHelpers ;; ret (AllRaw raw)
  | Name s => helper_named s f
  end.

Definition first_some {A : Type} (a b : option A) : option A :=
  match a with Some _ => a | None => b end.

Definition cannot_find (nm : string) : exn :=
  JsTypeError ("AsyncHelpers#wrapHelper: cannot find helper " ++ dquote ++ nm
               ++ dquote ++ " name").

Definition clear_wrapped (h : Helper) : Helper :=
  {| convention_of := convention_of h; body := body h; wrapped_prop := false |}.

(** Creation of the closure and its storage in [wrappedHelpers]. *)
Definition install (nm : string) (h : Helper) : M wrapReturn :=
  let w := {| helperName := nm; wrappedFn := normalize h |} in
  modify (set_wrappedHelpers (assoc_set nm w)) ;;; ret (TheWrapped w).

(** [wrapHelper(name, helper)] for a non-empty name.

    [part_002]:
    [[
    const wrappedHelper = this.wrappedHelpers[name];
    if (wrappedHelper && wrappedHelper.wrapped) return wrappedHelper;
    this.rawHelpers[name] = helper = this.rawHelpers[name] || helper;
    if (!helper) throw new TypeError(...);
    ]]
    [part_004]:
    [[
    helper = this.wrappedHelpers[name] || this.rawHelpers[name] || helper;
    if (helper && helper.wrapped) return helper;
    if (!helper) throw new TypeError(...);
    if (!this.rawHelpers[name]) {
      this.rawHelpers[name] = helper;
      this.rawHelpers[name].wrapped = undefined;
    }
    ]]
    For a name that [Object.prototype] defines, the reads
    [this.wrappedHelpers[name]] and [this.rawHelpers[name]] find the
    inherited member unless the registry has its own entry; the model stops
    there with [Unmodelled]. *)
Definition wrap_named (src : source) (nm : string) (supplied : option Helper)
  : M wrapReturn :=
  ws <- gets wrappedHelpers ;;
  raw <- gets (raw_lookup nm) ;;
  match src with
  | part_002 =>
      match assoc nm ws with
      | Some w => ret (TheWrapped w)
      | None =>
          if inherited nm then unmodelled else
          let h := first_some raw supplied in
          modify (set_rawHelpers (assoc_set nm h)) ;;;
          match h with
          | None => throw (cannot_find nm)
          | Some h => install nm h
          end
      end
  | part_004 =>
      match assoc nm ws with
      | Some w => ret (TheWrapped w)
      | None =>
          if inherited nm then unmodelled else
          match first_some raw supplied with
          | None => throw (cannot_find nm)
          | Some h =>
              if wrapped_prop h then ret (TheHelper h)
              else
                match raw with
                | None =>
                    modify (set_rawHelpers
                              (assoc_set nm (Some (clear_wrapped h)))) ;;;
                    install nm (clear_wrapped h)
                | Some _ => install nm h
                end
          end
      end
  end.

(** The same step in the earlier class of [part_005], the only method of
    that file embedded here:
    [[
    helper = helper || this.rawHelpers[name] || this.wrappedHelpers[name];
    if (helper && helper.wrapped) return helper;
    if (!helper) throw new TypeError(...);
    if (!this.rawHelpers[name]) this.rawHelpers[name] = helper;
    ]] *)
Definition wrap_named_005 (nm : string) (supplied : option Helper)
  : M wrapReturn :=
  ws <- gets wrappedHelpers ;;
  raw <- gets (raw_lookup nm) ;;
  if inherited nm then unmodelled else
  match first_some supplied raw with
  | Some h =>
      if wrapped_prop h then ret (TheHelper h)
      else
        match raw with
        | None =>
            modify (set_rawHelpers (assoc_set nm (Some h))) ;;;
            install nm h
        | Some _ => install nm h
        end
  | None =>
      match assoc nm ws with
      | Some w => ret (TheWrapped w)
      | None => throw (cannot_find nm)
      end
  end.

Section WrapHelper.

Variable named : string -> option Helper -> M wrapReturn.

(** [wrapHelper()] wraps every raw helper.  With the empty string among
    the keys of [rawHelpers] the source would call itself without end. *)
Definition wrap_all : M unit :=
  raw <- gets rawHelpers ;;
  if existsb (String.eqb EmptyString) (keys raw) then diverge
  else forEach (fun kv => named (fst kv) (snd kv) ;;; ret tt) raw.

Definition wrapHelper_with (nm : nameArg) (supplied : option Helper)
  : M wrapReturn :=
  match nm with
  | Helpers m =>
      forEach (fun kv =>
                 match fst kv with
                 | EmptyString => wrap_all
                 | k => named k (snd kv) ;;; ret tt
                 end) m ;;;
      ws <- gets wrappedHelpers ;; ret (AllWrapped ws)
  | NoName | Name EmptyString =>
      wrap_all ;;; ws <- gets wrappedHelpers ;; ret (AllWrapped ws)
  | Name s => named s supplied
  end.

End WrapHelper.

Definition wrapHelper (src : source) : nameArg -> option Helper -> M wrapReturn :=
  wrapHelper_with (wrap_named src).

Definition wrapHelper_005 : nameArg -> option Helper -> M wrapReturn :=
  wrapHelper_with wrap_named_005.

(** ** The resolver *)

(** [[
    hasAsyncId(val) {
      const re = new RegExp(`${this.prefix}@.+@\\d+@@@`, "g");
      return val && typeof val === "string" && re.test(val);
    }
    ]] *)
Definition hasAsyncId (val : jsvalue) : M bool :=
  pfx <- gets prefix ;;
  if plain pfx then
    ret (match val with
         | VString s => truthy val && test_id_pattern pfx s
         | _ => false
         end)
  else unmodelled.

(** Conversion of a value used as a property key, [this.helperIds[arg]]. *)
Definition ToPropertyKey (v : jsvalue) : M string :=
  match ToString v with
  | Some k => ret k
  | None => throw (JsTypeError "Cannot convert object to primitive value")
  end.

Definition cannot_resolve (k : string) : exn :=
  JsError ("AsyncHelpers#resolveId: cannot resolve helper with " ++ dquote ++ k
           ++ dquote ++ " id").

(** [`${err.message}`] in the [catch] block of [resolveId]: the text that
    the template writes, or the [TypeError] that reading the property of
    [undefined] or [null], or converting its value, throws.  A primitive,
    an array and an object without [message] read as [undefined]. *)
Definition message_text (err : exn) : string + exn :=
  match err with
  | JsError m | JsTypeError m => inl m
  | Thrown VUndefined =>
      inr (JsTypeError
             "Cannot read properties of undefined (reading 'message')")
  | Thrown VNull =>
      inr (JsTypeError "Cannot read properties of null (reading 'message')")
  | Thrown (VObject props) =>
      match assoc "message" props with
      | Some v =>
          match ToString v with
          | Some m => inl m
          | None => inr (JsTypeError "Cannot convert object to primitive value")
          end
      | None => inl "undefined"
      end
  | Thrown _ => inl "undefined"
  end.

Definition failed (nm i : string) : string :=
  "AsyncHelpers#resolveId: helper with name " ++ dquote ++ nm ++ dquote
  ++ " and id " ++ dquote ++ i ++ dquote ++ " failed".

(** What the [catch] block of [resolveId] throws for the error [err]. *)
Definition rethrown (nm i : string) (err : exn) : exn :=
  match message_text err with
  | inl m => JsError (failed nm i ++ ": " ++ m)
  | inr e => e
  end.

Definition set_helperIds (f : list (string * Token) -> list (string * Token))
  (st : AsyncHelpers) : AsyncHelpers :=
  {| prefix := prefix st; counter := counter st; helperIds := f (helperIds st);
     rawHelpers := rawHelpers st; wrappedHelpers := wrappedHelpers st;
     calls := calls st |}.

Definition record_call (c : call) (st : AsyncHelpers) : AsyncHelpers :=
  {| prefix := prefix st; counter := counter st; helperIds := helperIds st;
     rawHelpers := rawHelpers st; wrappedHelpers := wrappedHelpers st;
     calls := calls st ++ [c] |}.

(** [fn.apply(ctx, argz)], awaited. *)
Definition apply (r : Token) (argz : list jsvalue) : M jsvalue :=
  let c := settle (fn r) (ctx r) argz in
  modify (record_call {| call_id := id r; call_name := name r;
                         call_args := argz; call_completion := c |}) ;;;
  match c with
  | Returns v => ret v
  | Fails e => throw e
  end.

(** [this.helperIds[id].value = v] *)
Fixpoint store_value (i : string) (v : jsvalue) (l : list (string * Token))
  : list (string * Token) :=
  match l with
  | [] => []
  | (k, r) :: rest =>
      if String.eqb i k then (k, with_value v r) :: rest
      else (k, r) :: store_value i v rest
  end.

Definition assign_value (i : string) (v : jsvalue) : M unit :=
  ids <- gets helperIds ;;
  match assoc i ids with
  | Some _ => modify (set_helperIds (store_value i v))
  | None =>
      throw (JsTypeError "Cannot set properties of undefined (setting 'value')")
  end.

(** The memo test at the head of [resolveId]:
    [part_002]: ["value" in this.helperIds[id] && typeof value === "string"];
    [part_004]: ['value' in this.helperIds[id]].
    The property test reads the record stored under the field [id] and the
    value read is that of the record stored under [key]. *)
Definition memoized (src : source) (at_id at_key : Token) : bool :=
  match value at_id with
  | None => false
  | Some _ =>
      match src with
      | part_002 => is_string (value_or_undefined at_key)
      | part_004 => true
      end
  end.

(** The entries that [Object.entries(arg.hash)] lists, and the object after
    the loop has assigned each of them. *)
Definition set_hash (arg h : jsvalue) : jsvalue :=
  match arg with
  | VObject props => VObject (assoc_set "hash" h props)
  | _ => arg
  end.

Section Resolve.

Variable src : source.

(** The method [resolveId] itself, for the recursive calls. *)
Variable self : jsvalue -> M jsvalue.

(** [this.hasAsyncId(x) ? await this.resolveId(x) : x] *)
Definition resolve_element (x : jsvalue) : M jsvalue :=
  b <- hasAsyncId x ;;
  if b then self x else ret x.

(** The loop over [Object.entries(arg.hash)]. *)
Definition resolve_hash (arg : jsvalue) : M jsvalue :=
  match get_hash arg with
  | VObject entries =>
      entries' <- mapM (fun kv => v <- resolve_element (snd kv) ;;
                                  ret (fst kv, v)) entries ;;
      ret (set_hash arg (VObject entries'))
  | VArray elements =>
      elements' <- mapM resolve_element elements ;;
      ret (set_hash arg (VArray elements'))
  | _ => throw (JsTypeError "Cannot convert undefined or null to object")
  end.

(** Which arguments take the [hash] branch:
    [part_002]: [arg && typeof arg === "object" && typeof arg.hash === "object"];
    [part_004]: [isObject(arg) && isObject(arg.hash)]. *)
Definition takes_hash_branch (arg : jsvalue) : bool :=
  match src with
  | part_002 => truthy arg && typeof_object arg && typeof_object (get_hash arg)
  | part_004 => isObject arg && isObject (get_hash arg)
  end.

(** The callback of [args.map].  When the property key of the argument
    names a member of [Object.prototype], [item] is that member and
    [item.id] is [undefined]. *)
Definition resolve_arg (arg : jsvalue) : M jsvalue :=
  k <- ToPropertyKey arg ;;
  ids <- gets helperIds ;;
  match assoc k ids with
  | Some item => self (VString (id item))
  | None =>
      if inherited k then self VUndefined
      else if takes_hash_branch arg then resolve_hash arg
      else
        match arg with
        | VArray elements =>
            res <- mapM resolve_element elements ;; ret (VArray res)
        | _ => ret arg
        end
  end.

(** The callback of [res.reduce] in [resolveIds]. *)
Definition reduce_step (acc : jsvalue) (entry : string * jsvalue) : M jsvalue :=
  let (i, v) := entry in
  if strict_equals_string acc i then ret v
  else
    match acc with
    | VUndefined =>
        throw (JsTypeError
                 "Cannot read properties of undefined (reading 'replace')")
    | VNull =>
        throw (JsTypeError
                 "Cannot read properties of null (reading 'replace')")
    | _ =>
        if plain i then
          match acc with
          | VString s =>
              match ToString v with
              | Some replacement => ret (VString (replace_all i replacement s))
              | None =>
                  throw (JsTypeError "Cannot convert object to primitive value")
              end
          | _ => throw (JsTypeError "acc.replace is not a function")
          end
        else unmodelled
    end.

(** [resolve_keys] is the array of promises with [Promise.all]; the
    reduction follows.
    [[
    async resolveIds(str) {
      const promises = Object.keys(this.helperIds).map(async (id) => {
        return { id, value: await this.resolveId(id) };
      });
      return Promise.all(promises).then((res) => {
        const result = res.reduce((acc, { id, value }) => {
          if (acc === id) return value;
          return acc.replace(new RegExp(id, "g"), value);
        }, str);
        return result;
      });
    }
    ]] *)
Definition resolve_keys (ks : list string) : M (list (string * jsvalue)) :=
  mapM (fun i => v <- self (VString i) ;; ret (i, v)) ks.

Definition resolveIds_body (str : jsvalue) : M jsvalue :=
  ids <- gets helperIds ;;
  res <- resolve_keys (keys ids) ;;
  foldM reduce_step res str.

(** The [try] statement of [resolveId]:
    [[
    try {
      this.helperIds[id].value = await fn.apply(ctx, await Promise.all(argz));
    } catch (err) {
      const msg = `AsyncHelpers#resolveId: helper with name "${name}" and id "${id}" failed`;
      throw new Error(`${msg}: ${err.message}`);
    }
    ]] *)
Definition guarded_call (r : Token) : M unit :=
  try_catch
    (argz <- mapM resolve_arg (args r) ;;
     res <- apply r argz ;;
     assign_value (id r) res)
    (fun err => throw (rethrown (name r) (id r) err)).

(** [if (this.hasAsyncId(val)) return this.resolveIds(val); return val;] *)
Definition expand (val : jsvalue) : M jsvalue :=
  b <- hasAsyncId val ;;
  if b then resolveIds_body val else ret val.

(** The end of [resolveId]; [part_002] alone starts it with
    the return of the empty string for a falsy [val]. *)
Definition deliver (val : jsvalue) : M jsvalue :=
  match src with
  | part_002 =>
      if negb (truthy val) then ret (VString EmptyString) else expand val
  | part_004 => expand val
  end.

(** [resolveId] of a key that names a member of [Object.prototype] and no
    record: the member is truthy, every field destructured from it is
    [undefined], and the memo test reads [this.helperIds[undefined]].
    Past the memo test, [args.map] fails. *)
Definition resolve_member : M jsvalue :=
  ids <- gets helperIds ;;
  match assoc "undefined" ids with
  | None =>
      throw (JsTypeError
               "Cannot use 'in' operator to search for 'value' in undefined")
  | Some at_id =>
      match src, value at_id with
      | part_004, Some _ => ret VUndefined
      | _, _ =>
          throw (JsTypeError
                   "Cannot read properties of undefined (reading 'map')")
      end
  end.

(** The body of [resolveId]:
    [[
    if (!this.helperIds[key]) throw new Error(...);
    const { id, name, fn, args, ctx, value } = this.helperIds[key];
    if (<memo test>) return value;
    const argz = args.map(async (arg) => ...);
    try ... catch ...
    const val = this.helperIds[id].value;
    ...
    ]] *)
Definition resolveId_body (key : jsvalue) : M jsvalue :=
  k <- ToPropertyKey key ;;
  ids <- gets helperIds ;;
  match assoc k ids with
  | None => if inherited k then resolve_member else throw (cannot_resolve k)
  | Some r =>
      match assoc (id r) ids with
      | None =>
          throw (JsTypeError
                   "Cannot use 'in' operator to search for 'value' in undefined")
      | Some at_id =>
          if memoized src at_id r then ret (value_or_undefined r)
          else
            guarded_call r ;;;
            ids' <- gets helperIds ;;
            match assoc (id r) ids' with
            | None =>
                throw (JsTypeError
                         "Cannot read properties of undefined (reading 'value')")
            | Some r' => deliver (value_or_undefined r')
            end
      end
  end.

End Resolve.

(** [resolveId], with the depth of the recursion bounded by [fuel]. *)
Fixpoint resolveId (src : source) (fuel : nat) (key : jsvalue) : M jsvalue :=
  match fuel with
  | O => diverge
  | S n => resolveId_body src (resolveId src n) key
  end.

Definition resolveIds (src : source) (fuel : nat) (str : jsvalue) : M jsvalue :=
  resolveIds_body (resolveId src fuel) str.

(** ** Helpers and states used as concrete inputs *)

Definition synchronous (f : list jsvalue -> completion) : Helper :=
  {| convention_of := Synchronous; body := fun _ a => f a; wrapped_prop := false |}.

Definition to_upper (c : ascii) : ascii :=
  let n := nat_of_ascii c in
  if Nat.leb 97 n && Nat.leb n 122 then ascii_of_nat (n - 32) else c.

Definition to_lower (c : ascii) : ascii :=
  let n := nat_of_ascii c in
  if Nat.leb 65 n && Nat.leb n 90 then ascii_of_nat (n + 32) else c.

Fixpoint map_string (f : ascii -> ascii) (s : string) : string :=
  match s with
  | EmptyString => EmptyString
  | String c r => String (f c) (map_string f r)
  end.

Definition not_a_function (method : string) : exn :=
  JsTypeError ("str." ++ method ++ " is not a function").

(** [upper = (str) => str.toUpperCase()] *)
Definition upper : Helper :=
  synchronous (fun a =>
    match a with
    | VString s :: _ => Returns (VString (map_string to_upper s))
    | _ => Fails (not_a_function "toUpperCase")
    end).

(** [lower = (str, cb) => cb(null, str.toLowerCase())] *)
Definition lower : Helper :=
  {| convention_of := CallbackStyle;
     body := fun _ a =>
       match a with
       | VString s :: _ => Returns (VString (map_string to_lower s))
       | _ => Fails (not_a_function "toLowerCase")
       end;
     wrapped_prop := false |}.

(** [echo = (x) => x] *)
Definition echo : Helper :=
  synchronous (fun a =>
    match a with x :: _ => Returns x | [] => Returns VUndefined end).

(** [size = (x) => x.length], on strings and arrays. *)
Definition size : Helper :=
  synchronous (fun a =>
    match a with
    | VString s :: _ => Returns (VNumber (Z.of_nat (String.length s)))
    | VArray l :: _ => Returns (VNumber (Z.of_nat (List.length l)))
    | _ => Returns VUndefined
    end).

Definition always (v : jsvalue) : Helper := synchronous (fun _ => Returns v).

(** [() => { throw new Error("yeah UPPER sync Error") }], and the same
    failure delivered by a rejected promise and through the callback. *)
Definition throws (m : string) : Helper :=
  synchronous (fun _ => Fails (JsError m)).

Definition rejects (m : string) : Helper :=
  {| convention_of := PromiseReturning;
     body := fun _ _ => Fails (JsError m); wrapped_prop := false |}.

Definition calls_back_with_error (m : string) : Helper :=
  {| convention_of := CallbackStyle;
     body := fun _ _ => Fails (JsError m); wrapped_prop := false |}.

(** [() => Promise.reject(v)] for a value [v] that is no [Error]. *)
Definition rejects_with (v : jsvalue) : Helper :=
  {| convention_of := PromiseReturning;
     body := fun _ _ => Fails (Thrown v); wrapped_prop := false |}.

(** A wrapped helper of another instance: a function whose property
    [wrapped] is [true] and which returns a token of that instance. *)
Definition foreign_wrapped : Helper :=
  {| convention_of := Synchronous;
     body := fun _ _ => Returns (VString "~other@upper@1@@@");
     wrapped_prop := true |}.

Definition after {A : Type} (m : M A) (st : AsyncHelpers) : AsyncHelpers :=
  snd (m st).

(** [register src nm h st]: the state after [wrapHelper(nm, h)]. *)
Definition register (src : source) (nm : string) (h : Helper)
  (st : AsyncHelpers) : AsyncHelpers :=
  after (wrapHelper src (Name nm) (Some h)) st.

(** [invoke nm this arguments st]: the call [wrappedHelpers[nm](...)] with
    receiver [this]; a name without wrapped helper gives no token. *)
Definition invoke (nm : string) (this : jsvalue) (arguments : list jsvalue)
  (st : AsyncHelpers) : option string * AsyncHelpers :=
  match assoc nm (wrappedHelpers st) with
  | Some w =>
      let (t, st') := wrappedHelper w this arguments st in (Some t, st')
  | None => (None, st)
  end.

Definition call_wrapped (nm : string) (arguments : list jsvalue)
  (st : AsyncHelpers) : AsyncHelpers :=
  snd (invoke nm VUndefined arguments st).

(** ** Sequences of method calls

    What a caller can do with an instance: define helpers, wrap them, call
    a wrapped helper, resolve.  [execute] runs a sequence of such calls and
    collects the tokens that the wrapped helpers returned. *)

Inductive operation : Type :=
| OpHelper (nm : nameArg) (f : option Helper)
| OpWrapHelper (nm : nameArg) (supplied : option Helper)
| OpInvoke (nm : string) (this : jsvalue) (arguments : list jsvalue)
| OpResolveId (fuel : nat) (key : jsvalue)
| OpResolveIds (fuel : nat) (str : jsvalue).

Definition perform (src : source) (op : operation) (st : AsyncHelpers)
  : option string * AsyncHelpers :=
  match op with
  | OpHelper nm f => (None, after (helper nm f) st)
  | OpWrapHelper nm supplied => (None, after (wrapHelper src nm supplied) st)
  | OpInvoke nm this arguments => invoke nm this arguments st
  | OpResolveId fuel key => (None, after (resolveId src fuel key) st)
  | OpResolveIds fuel str => (None, after (resolveIds src fuel str) st)
  end.

Fixpoint execute (src : source) (ops : list operation) (st : AsyncHelpers)
  : list string * AsyncHelpers :=
  match ops with
  | [] => ([], st)
  | op :: rest =>
      let (t, st1) := perform src op st in
      let (ts, st2) := execute src rest st1 in
      (match t with Some x => x :: ts | None => ts end, st2)
  end.

(** A call is followed to its end when it returns, throws or settles its
    promise within the model: its outcome is neither [Unmodelled] nor
    [Diverged].  A call of a wrapped helper always is. *)
Definition settled {A : Type} (o : outcome A) : bool :=
  match o with
  | Fulfilled _ | Rejected _ => true
  | Diverged | Unmodelled => false
  end.

Definition followed (src : source) (op : operation) (st : AsyncHelpers) : bool :=
  match op with
  | OpHelper nm f => settled (fst (helper nm f st))
  | OpWrapHelper nm supplied => settled (fst (wrapHelper src nm supplied st))
  | OpInvoke _ _ _ => true
  | OpResolveId fuel key => settled (fst (resolveId src fuel key st))
  | OpResolveIds fuel str => settled (fst (resolveIds src fuel str st))
  end.

Fixpoint all_followed (src : source) (ops : list operation) (st : AsyncHelpers)
  : bool :=
  match ops with
  | [] => true
  | op :: rest =>
      followed src op st && all_followed src rest (snd (perform src op st))
  end.

(** The runs that the theorems below range over: sequences of calls on a
    new instance, each followed to its end. *)
Definition modelled (src : source) (options_prefix : option string)
  (ops : list operation) : bool :=
  all_followed src ops (constructor options_prefix).

(** The state of an instance after a sequence of calls on a new instance,
    and the tokens its wrapped helpers have returned on the way. *)
Definition reached (src : source) (options_prefix : option string)
  (ops : list operation) : AsyncHelpers :=
  snd (execute src ops (constructor options_prefix)).

Definition issued (src : source) (options_prefix : option string)
  (ops : list operation) : list string :=
  fst (execute src ops (constructor options_prefix)).

(** ** Invariants of the instance state *)

(** Every stored identifier was made from the prefix and from a value the
    counter has already passed. *)
Definition ids_bounded (st : AsyncHelpers) : Prop :=
  forall k, In k (keys (helperIds st)) ->
    exists nm n, k = make_id (prefix st) nm n /\ n <= counter st.

(** Every record is stored under its own field [id]. *)
Definition ids_ok (st : AsyncHelpers) : Prop :=
  forall k r, assoc k (helperIds st) = Some r -> id r = k.

(** A wrapped helper exists only for a name that has a raw helper, and it
    carries that name. *)
Definition registry_ok (st : AsyncHelpers) : Prop :=
  forall nm w, assoc nm (wrappedHelpers st) = Some w ->
    raw_lookup nm st <> None /\ helperName w = nm.

Definition invariant (st : AsyncHelpers) : Prop :=
  ids_bounded st /\ ids_ok st /\ registry_ok st.

(** The memo of a token: the own property [value] of its record. *)
Definition memo (key : jsvalue) (st : AsyncHelpers) : option jsvalue :=
  match ToString key with
  | Some k =>
      match assoc k (helperIds st) with
      | Some r => value r
      | None => None
      end
  | None => None
  end.

(** The calls of implementations made for the token [i]. *)
Definition calls_of (i : string) (st : AsyncHelpers) : list call :=
  filter (fun c => String.eqb (call_id c) i) (calls st).

(** The states of the examples: one helper wrapped under its name and
    called once on a fresh instance with the default prefix. *)
Definition once (src : source) (nm : string) (h : Helper)
  (arguments : list jsvalue) : AsyncHelpers :=
  call_wrapped nm arguments (register src nm h (constructor None)).

Definition first_token (nm : string) : string := make_id defaultPrefix nm 1.

(** The two entry points of resolution. *)
Inductive entry : Type :=
| ResolveToken    (* [resolveId] *)
| ResolveAll.     (* [resolveIds] *)

Definition resolve (src : source) (via : entry) (fuel : nat) (x : jsvalue)
  : M jsvalue :=
  match via with
  | ResolveToken => resolveId src fuel x
  | ResolveAll => resolveIds src fuel x
  end.

(** What [part_002] can deliver: a truthy value or the empty string. *)
Definition never_blank (v : jsvalue) : Prop :=
  truthy v = true \/ v = VString EmptyString.

(** [token_free pfx v]: [hasAsyncId(v)] is falsy under the plain prefix
    [pfx]. *)
Definition token_free (pfx : string) (v : jsvalue) : bool :=
  match v with
  | VString s => negb (test_id_pattern pfx s)
  | _ => true
  end.

(** [literal src pfx ids arg]: resolution leaves the argument as it is.  Its
    property key is neither a stored identifier nor a member of
    [Object.prototype], and the values of its [hash], or its elements if it
    is an array, hold no token. *)
Definition literal (src : source) (pfx : string) (ids : list (string * Token))
  (arg : jsvalue) : bool :=
  match ToString arg with
  | None => false
  | Some k =>
      match assoc k ids with
      | Some _ => false
      | None =>
          if inherited k then false
          else if takes_hash_branch src arg then
            match get_hash arg with
            | VObject entries => forallb (token_free pfx) (map snd entries)
            | VArray elements => forallb (token_free pfx) elements
            | _ => false
            end
          else
            match arg with
            | VArray elements => forallb (token_free pfx) elements
            | _ => true
            end
      end
  end.

(** What [resolveId] makes of the result [v] of an implementation. *)
Definition delivered (src : source) (v : jsvalue) : jsvalue :=
  match src with
  | part_002 => if truthy v then v else VString EmptyString
  | part_004 => v
  end.

(** The states of the witnesses. *)
Definition wrap_upper : list operation :=
  [OpWrapHelper (Name "upper") (Some upper)].

Definition call_upper : list operation :=
  [OpWrapHelper (Name "upper") (Some upper);
   OpInvoke "upper" VUndefined [VString "doowb"]].

Definition call_abc : list operation :=
  [OpWrapHelper (Name "abc") (Some (always VUndefined));
   OpInvoke "abc" VUndefined []].

Definition upper_registered : AsyncHelpers := reached part_002 None wrap_upper.

Definition upper_wrapped : WrappedHelper :=
  {| helperName := "upper"; wrappedFn := normalize upper |}.

Definition upper_called (src : source) : AsyncHelpers :=
  once src "upper" upper [VString "doowb"].

Definition upper_resolved (src : source) : AsyncHelpers :=
  after (resolveId src 2 (VString (first_token "upper"))) (upper_called src).

Definition upper_throwing (src : source) : AsyncHelpers :=
  once src "upper" (throws "yeah UPPER sync Error") [VString "doowb"].

Definition upper_failing : AsyncHelpers :=
  once part_002 "upper" (calls_back_with_error "async returned UPPER Error")
    [VString "doowb"].

Definition foobar_resolved : AsyncHelpers :=
  after (resolveId part_002 2 (VString (first_token "foobar")))
    (once part_002 "foobar" (always (VNumber 123)) []).
(** Absence of the separator [@] from a string. *)
Definition at_free (s : string) : Prop :=
  ~ In "@"%char (list_ascii_of_string s).

(** ** What resolution leaves alone

    Resolution assigns the property [value] of stored records and applies
    implementations; it touches nothing else.  [same_record r r'] relates a
    record to its later state. *)

Definition same_record (r r' : Token) : Prop :=
  id r' = id r /\ name r' = name r /\ args r' = args r /\ fn r' = fn r
  /\ ctx r' = ctx r /\ count r' = count r
  /\ (value r <> None -> value r' <> None).

Definition same_entry (p p' : string * Token) : Prop :=
  fst p' = fst p /\ same_record (snd p) (snd p').

Definition same_records : list (string * Token) -> list (string * Token) -> Prop :=
  Forall2 same_entry.

(** [frame st st' l]: [st'] differs from [st] only by assignments of
    [value] and by the implementation calls [l]. *)
Record frame (st st' : AsyncHelpers) (l : list call) : Prop := {
  frame_prefix : prefix st' = prefix st;
  frame_counter : counter st' = counter st;
  frame_rawHelpers : rawHelpers st' = rawHelpers st;
  frame_wrappedHelpers : wrappedHelpers st' = wrappedHelpers st;
  frame_helperIds : same_records (helperIds st) (helperIds st');
  frame_calls : calls st' = (calls st ++ l)%list
}.

(** ** Failed calls are not swallowed

    [accounted o l]: every failed call among [l] shows in the outcome [o],
    which is then a rejection. *)

Definition accounted {A : Type} (o : outcome A) (l : list call) : Prop :=
  forall c e, In c l -> call_completion c = Fails e ->
    exists e', o = Rejected e'.

Definition sound {A : Type} (m : M A) : Prop :=
  forall st, exists l,
    frame st (snd (m st)) l /\ accounted (fst (m st)) l.

(** [registry_only m]: [m] leaves the token store, the counter and the
    calls alone and keeps [registry_ok]. *)

Definition registry_only {A : Type} (m : M A) : Prop :=
  forall st,
    prefix (snd (m st)) = prefix st
    /\ counter (snd (m st)) = counter st
    /\ helperIds (snd (m st)) = helperIds st
    /\ calls (snd (m st)) = calls st
    /\ (registry_ok st -> registry_ok (snd (m st))).

(** ** Inputs of the further properties *)

(** An object whose properties are all functions, as passed to [helper] and
    [wrapHelper]. *)
Definition helpers_object (m : list (string * Helper)) : nameArg :=
  Helpers (map (fun kv => (fst kv, Some (snd kv))) m).

(** The closure that [wrapHelper] creates for the raw helper [h] under the
    name [nm]. *)
Definition wrapped_as (nm : string) (h : Helper) : WrappedHelper :=
  {| helperName := nm; wrappedFn := normalize h |}.

(** A name on one line: no character of it is a line terminator. *)
Fixpoint single_line (s : string) : bool :=
  match s with
  | EmptyString => true
  | String c r => negb (is_line_terminator c) && single_line r
  end.

(** How the elements of an array argument, or the values of a [hash],
    relate to what the helper receives in their place.  The loop takes them
    in order, from the state [st] to the state [st']: an element on which
    [hasAsyncId] is false is passed on as it is and the state stays; any
    other element is replaced by what [resolveId] returns for it in the
    state the loop has reached, and the loop goes on from the state that
    this call leaves. *)
Inductive elements_resolved (src : source) (fuel : nat)
  : AsyncHelpers -> list jsvalue -> list jsvalue -> AsyncHelpers -> Prop :=
| resolved_none (st : AsyncHelpers) : elements_resolved src fuel st [] [] st
| resolved_as_it_is (st st' : AsyncHelpers) (e : jsvalue)
    (es es' : list jsvalue) :
    token_free (prefix st) e = true ->
    elements_resolved src fuel st es es' st' ->
    elements_resolved src fuel st (e :: es) (e :: es') st'
| resolved_by_resolveId (st st1 st' : AsyncHelpers) (e e' : jsvalue)
    (es es' : list jsvalue) :
    token_free (prefix st) e = false ->
    resolveId src fuel e st = (Fulfilled e', st1) ->
    elements_resolved src fuel st1 es es' st' ->
    elements_resolved src fuel st (e :: es) (e' :: es') st'.

(** [String.prototype.split] with a string separator, which the resolver of
    [src/src/index.ts] uses for its substitution,
    [str = str.split(key).join(val)].  [current] is the piece being read and
    [skip] counts the characters of the current separator that remain to be
    dropped. *)
Fixpoint split_scan (sep current : string) (skip : nat) (s : string)
  : list string :=
  match s with
  | EmptyString => [current]
  | String c r =>
      match skip with
      | S k => split_scan sep current k r
      | O =>
          if String.prefix sep s then
            current :: split_scan sep EmptyString (String.length sep - 1) r
          else split_scan sep (current ++ String c EmptyString) 0 r
      end
  end.

(** The empty separator splits between all characters. *)
Definition split (sep s : string) : list string :=
  match sep with
  | EmptyString => map (fun c => String c EmptyString) (list_ascii_of_string s)
  | _ => split_scan sep EmptyString 0 s
  end.

(** A replacement text without [$]. *)
Fixpoint dollar_free (s : string) : bool :=
  match s with
  | EmptyString => true
  | String c r => negb (Ascii.eqb c "$") && dollar_free r
  end.

(** A value that the memo test of the source serves: any value in
    [part_004], a string in [part_002]. *)
Definition served (src : source) (w : jsvalue) : Prop :=
  src = part_004 \/ is_string w = true.

(** [keeps_values src st st']: every record that holds a served value in
    [st] holds the same value in [st']. *)
Definition keeps_values (src : source) (st st' : AsyncHelpers) : Prop :=
  forall k r w,
    assoc k (helperIds st) = Some r -> value r = Some w -> served src w ->
    exists r', assoc k (helperIds st') = Some r' /\ value r' = Some w.

(** [steady src m]: from a state in which every record is stored under its
    own identifier, [m] leads to such a state and keeps the served values. *)
Definition steady {A : Type} (src : source) (m : M A) : Prop :=
  forall st, ids_ok st ->
    ids_ok (snd (m st)) /\ keeps_values src st (snd (m st)).

(** A helper whose result holds the identifier of a call of [upper], as the
    block helpers of a template engine do, and a run that calls it. *)
Definition block : Helper :=
  always (VString ("[" ++ first_token "upper" ++ "]")).

Definition call_block : list operation :=
  (call_upper ++ [OpWrapHelper (Name "block") (Some block);
                  OpInvoke "block" VUndefined []])%list.

(** The nested call [lower(upper("DooWB"))] of the test suite. *)
Definition lower_of_upper (src : source) : AsyncHelpers :=
  call_wrapped "lower" [VString (first_token "upper")]
    (register src "lower" lower (once src "upper" upper [VString "DooWB"])).

(** A call of [upper] followed by a call of a helper that returns an
    array. *)
Definition upper_then_list (src : source) : AsyncHelpers :=
  call_wrapped "list" []
    (register src "list" (always (VArray [VString "a"; VString "b"]))
       (once src "upper" upper [VString "doowb"])).

(** ** [helper] with arguments of any type

    The arguments of [helper] as JavaScript passes them: a data value, a
    function, or an object whose properties may be functions. *)
Inductive argument : Type :=
| Data (v : jsvalue)
| Function (h : Helper)
| ObjectOf (m : list (string * argument)).

Definition expect_name : exn :=
  JsTypeError "AsyncHelpers#helper: expect `name` to be non empty string".

Definition expect_fn : exn :=
  JsTypeError "AsyncHelpers#helper: expect `fn` to be function".

(** [fn] is truthy and [typeof fn !== "function"]. *)
Definition truthy_not_function (fn : argument) : bool :=
  match fn with
  | Data v => truthy v
  | Function _ => false
  | ObjectOf _ => true
  end.

(** [helper(name, fn)] for a name that is a string:
    [[
    if (!name) return this.rawHelpers;
    if (name && !fn) return this.rawHelpers[name];
    if (!fn || typeof fn !== "function") throw new TypeError(...);
    this.rawHelpers[name] = fn;
    return this;
    ]] *)
Definition helper_entry (nm : string) (fn : argument) : M helperReturn :=
  match nm with
  | EmptyString => helper_named EmptyString None
  | _ =>
      match fn with
      | Function h => helper_named nm (Some h)
      | Data v => if truthy v then throw expect_fn else helper_named nm None
      | ObjectOf _ => throw expect_fn
      end
  end.

(** [Object.keys] of an array and the elements under them. *)
Definition indexed (l : list jsvalue) : list (string * argument) :=
  combine (map decimal (seq 0 (List.length l))) (map Data l).

Definition helper_each (m : list (string * argument)) : M helperReturn :=
  forEach (fun kv => helper_entry (fst kv) (snd kv) ;;; ret tt) m ;;; ret This.

(** [helper(name, fn)].  The first test is [typeof name === "object"] in
    [part_002], which [null] and arrays pass, and [isObject(name)] in
    [part_004]; a name that is neither an object nor falsy nor a string
    gives the [TypeError] on the name. *)
Definition helper_any (src : source) (name fn : argument) : M helperReturn :=
  match name with
  | ObjectOf m => helper_each m
  | Function _ => throw expect_name
  | Data (VObject props) =>
      helper_each (map (fun kv => (fst kv, Data (snd kv))) props)
  | Data (VArray l) =>
      match src with
      | part_002 => helper_each (indexed l)
      | part_004 => throw expect_name
      end
  | Data VNull =>
      match src with
      | part_002 =>
          throw (JsTypeError "Cannot convert undefined or null to object")
      | part_004 => raw <- gets rawHelpers ;; ret (AllRaw raw)
      end
  | Data (VString s) => helper_entry s fn
  | Data v =>
      if truthy v then throw expect_name
      else raw <- gets rawHelpers ;; ret (AllRaw raw)
  end.

(** An object of functions as an [argument]. *)
Definition functions (m : list (string * Helper)) : list (string * argument) :=
  map (fun kv => (fst kv, Function (snd kv))) m.

(** ** The older class of [part_004]

    The second class of the file (lines 190 to 288) keeps its helpers in
    [allHelpers] and its records in [ids], wraps a helper when it is
    defined, and resolves with [resolve].  Its methods keep their names in
    the module [Older].  The value of [Date.now()] is a parameter of the
    call of a wrapped helper.  As above, [Promise.all] is awaited in array
    order and every record is resolved to its end before the next. *)
Module Older.

(** A function as [helper] sees it: [async_tag] tells whether
    [Object.prototype.toString.call(fn)] includes [Async], and
    [isAsyncFunction(fn)] is [isAsyncWithCb]. *)
Record Declared : Type := {
  declared : Helper;
  async_tag : bool
}.

(** The entries of [allHelpers]: the function as it was given, or the
    closure [wrapped] made for it. *)
Inductive Stored : Type :=
| Kept (f : Declared)
| Wrapped (name : string) (func : implementation).

(** The entries of [ids]. *)
Record Token : Type := {
  id : string;
  count : nat;
  context : jsvalue;
  fn : implementation;
  name : string;
  args : list jsvalue;
  value : option jsvalue
}.

Record AsyncHelpers : Type := {
  prefix : string;
  allHelpers : list (string * Stored);
  counter : nat;
  ids : list (string * Token)
}.

(** [this.prefix = this.options.prefix || '{$ASYNCID$'] *)
Definition constructor (options_prefix : option string) : AsyncHelpers :=
  {| prefix := match options_prefix with
               | Some EmptyString | None => "{$ASYNCID$"
               | Some p => p
               end;
     allHelpers := []; counter := 0; ids := [] |}.

Inductive getReturn : Type :=
| AllHelpers (m : list (string * Stored))
| TheHelper (s : option Stored).

(** [[
    get(name) {
      if (!name || typeof name !== 'string') return this.allHelpers;
      return this.allHelpers[name];
    }
    ]] *)
Definition get (name : jsvalue) (self : AsyncHelpers) : outcome getReturn :=
  match name with
  | VString (String _ _ as nm) =>
      match assoc nm (allHelpers self) with
      | Some s => Fulfilled (TheHelper (Some s))
      | None => if inherited nm then Unmodelled else Fulfilled (TheHelper None)
      end
  | _ => Fulfilled (AllHelpers (allHelpers self))
  end.

Definition expect_name : exn :=
  JsTypeError "expect `name` to be non empty string".

Definition expect_fn : exn := JsTypeError "expect `fn` to be function".

Definition expect_obj : exn :=
  JsTypeError "expect `obj` to be object of helpers".

(** [type.includes('Async') || isAsync] *)
Definition is_async (f : Declared) : bool :=
  async_tag f || isAsyncWithCb (declared f).

(** What [helper] stores for [fn]; [func] is
    [isAsync ? promisify(fn) : fn]. *)
Definition stored_for (nm : string) (f : Declared) : Stored :=
  if is_async f then Wrapped nm (normalize (declared f)) else Kept f.

Definition set_allHelpers (g : list (string * Stored) -> list (string * Stored))
  (self : AsyncHelpers) : AsyncHelpers :=
  {| prefix := prefix self; allHelpers := g (allHelpers self);
     counter := counter self; ids := ids self |}.

(** [helper(name, fn)]; [fn] is a value that is not a function, or a
    function.  An assignment to [this.allHelpers["__proto__"]] sets a
    prototype and is not modelled. *)
Definition helper (name : jsvalue) (fn : jsvalue + Declared)
  (self : AsyncHelpers) : outcome unit * AsyncHelpers :=
  match name with
  | VString (String _ _ as nm) =>
      match fn with
      | inl _ => (Rejected expect_fn, self)
      | inr f =>
          if String.eqb nm "__proto__" then (Unmodelled, self)
          else (Fulfilled tt,
                set_allHelpers (assoc_set nm (stored_for nm f)) self)
      end
  | _ => (Rejected expect_name, self)
  end.

(** The loop of [helpers] over [Object.keys(obj)]. *)
Fixpoint helper_each (m : list (string * (jsvalue + Declared)))
  (self : AsyncHelpers) : outcome unit * AsyncHelpers :=
  match m with
  | [] => (Fulfilled tt, self)
  | (k, fn) :: rest =>
      match helper (VString k) fn self with
      | (Fulfilled _, self') => helper_each rest self'
      | failure => failure
      end
  end.

(** [helpers(obj)]; [obj] is a data value or an object whose properties may
    be functions. *)
Definition helpers (obj : jsvalue + list (string * (jsvalue + Declared)))
  (self : AsyncHelpers) : outcome unit * AsyncHelpers :=
  match obj with
  | inr m => helper_each m self
  | inl (VObject props) =>
      helper_each (map (fun kv => (fst kv, inl (snd kv))) props) self
  | inl _ => (Rejected expect_obj, self)
  end.

(** [`{$ASYNCID$${Date.now()}$${name}$${self.counter}$}`] *)
Definition make_id (now : nat) (nm : string) (n : nat) : string :=
  "{$ASYNCID$" ++ decimal now ++ "$" ++ nm ++ "$" ++ decimal n ++ "$}".

(** The closure [wrapped], called when [Date.now()] is [now]. *)
Definition wrapped (nm : string) (func : implementation) (now : nat)
  (this : jsvalue) (arguments : list jsvalue) (self : AsyncHelpers)
  : string * AsyncHelpers :=
  let n := S (counter self) in
  let i := make_id now nm n in
  (i,
   {| prefix := prefix self; allHelpers := allHelpers self; counter := n;
      ids := assoc_set i
               {| id := i; count := n;
                  context := if truthy this then this else emptyObject;
                  fn := func; name := nm; args := arguments; value := None |}
               (ids self) |}).

(** An argument that [func] returns as it is: its property key is neither
    a stored identifier nor a member name of [Object.prototype]. *)
Definition flat (records : list (string * Token)) (arg : jsvalue) : bool :=
  match ToString arg with
  | Some k =>
      match assoc k records with
      | Some _ => false
      | None => negb (inherited k)
      end
  | None => false
  end.

(** What [func] returns for an argument: the argument itself, or the promise
    of the call [item.fn.call(item.context, ...item.args.map(func))].  When
    an argument of [item] is itself an identifier, [item.fn] is handed a
    promise, which is not modelled. *)
Inductive started : Type :=
| Plain (v : jsvalue)
| Promise (c : completion).

Definition func (records : list (string * Token)) (arg : jsvalue)
  : outcome started :=
  match ToString arg with
  | None => Rejected (JsTypeError "Cannot convert object to primitive value")
  | Some k =>
      match assoc k records with
      | Some item =>
          if forallb (flat records) (args item) then
            Fulfilled (Promise (settle (fn item) (context item) (args item)))
          else Unmodelled
      | None =>
          if inherited k then
            Rejected (JsTypeError
                        "Cannot read properties of undefined (reading 'call')")
          else Fulfilled (Plain arg)
      end
  end.

(** [args.map(func)] *)
Fixpoint start_all (records : list (string * Token)) (l : list jsvalue)
  : outcome (list started) :=
  match l with
  | [] => Fulfilled []
  | a :: rest =>
      match func records a with
      | Fulfilled s =>
          match start_all records rest with
          | Fulfilled ss => Fulfilled (s :: ss)
          | failure => failure
          end
      | Rejected e => Rejected e
      | Diverged => Diverged
      | Unmodelled => Unmodelled
      end
  end.

(** [await Promise.all(argz)] *)
Fixpoint await_all (l : list started) : outcome (list jsvalue) :=
  match l with
  | [] => Fulfilled []
  | Plain v :: rest =>
      match await_all rest with
      | Fulfilled vs => Fulfilled (v :: vs)
      | failure => failure
      end
  | Promise (Returns v) :: rest =>
      match await_all rest with
      | Fulfilled vs => Fulfilled (v :: vs)
      | failure => failure
      end
  | Promise (Fails e) :: _ => Rejected e
  end.

Definition with_value (v : jsvalue) (r : Token) : Token :=
  {| id := id r; count := count r; context := context r; fn := fn r;
     name := name r; args := args r; value := Some v |}.

Fixpoint store_value (i : string) (v : jsvalue) (l : list (string * Token))
  : list (string * Token) :=
  match l with
  | [] => []
  | (k, r) :: rest =>
      if String.eqb i k then (k, with_value v r) :: rest
      else (k, r) :: store_value i v rest
  end.

Definition set_ids (g : list (string * Token) -> list (string * Token))
  (self : AsyncHelpers) : AsyncHelpers :=
  {| prefix := prefix self; allHelpers := allHelpers self;
     counter := counter self; ids := g (ids self) |}.

(** The asynchronous callback of [resolve], for one record:
    [[
    const argz = args.map(function func(arg) { ... });
    this.ids[id].value = await fn.call(context, ...(await Promise.all(argz)));
    ]] *)
Definition resolve_record (r : Token) (self : AsyncHelpers)
  : outcome unit * AsyncHelpers :=
  match start_all (ids self) (args r) with
  | Fulfilled promises =>
      match await_all promises with
      | Fulfilled argz =>
          match settle (fn r) (context r) argz with
          | Returns v =>
              match assoc (id r) (ids self) with
              | Some _ => (Fulfilled tt, set_ids (store_value (id r) v) self)
              | None =>
                  (Rejected
                     (JsTypeError
                        "Cannot set properties of undefined (setting 'value')"),
                   self)
              end
          | Fails e => (Rejected e, self)
          end
      | Rejected e => (Rejected e, self)
      | Diverged => (Diverged, self)
      | Unmodelled => (Unmodelled, self)
      end
  | Rejected e => (Rejected e, self)
  | Diverged => (Diverged, self)
  | Unmodelled => (Unmodelled, self)
  end.

Fixpoint resolve_records (l : list Token) (self : AsyncHelpers)
  : outcome unit * AsyncHelpers :=
  match l with
  | [] => (Fulfilled tt, self)
  | r :: rest =>
      match resolve_record r self with
      | (Fulfilled _, self') => resolve_records rest self'
      | failure => failure
      end
  end.

Definition value_or_undefined (r : Token) : jsvalue :=
  match value r with Some v => v | None => VUndefined end.

(** The callback of [res.reduce]:
    [acc.replace(new RegExp(escapeRegex(id), 'g'), value)].  The escaped
    identifier matches its own text and nothing else. *)
Definition reduce_step (acc : jsvalue) (r : Token) : outcome jsvalue :=
  match acc with
  | VString s =>
      match ToString (value_or_undefined r) with
      | Some replacement => Fulfilled (VString (replace_all (id r) replacement s))
      | None => Rejected (JsTypeError "Cannot convert object to primitive value")
      end
  | VUndefined =>
      Rejected (JsTypeError
                  "Cannot read properties of undefined (reading 'replace')")
  | VNull =>
      Rejected (JsTypeError "Cannot read properties of null (reading 'replace')")
  | _ => Rejected (JsTypeError "acc.replace is not a function")
  end.

Fixpoint reduce (l : list Token) (acc : jsvalue) : outcome jsvalue :=
  match l with
  | [] => Fulfilled acc
  | r :: rest =>
      match reduce_step acc r with
      | Fulfilled acc' => reduce rest acc'
      | failure => failure
      end
  end.

(** What the callbacks return: [this.ids[id]] for the [id] of each record
    read at the start. *)
Definition returned (snapshot : list Token) (self : AsyncHelpers) : list Token :=
  flat_map (fun r => match assoc (id r) (ids self) with
                     | Some r' => [r']
                     | None => []
                     end) snapshot.

(** [resolve(str)]: the records are read from [ids] before the callbacks
    run, and their values when the reduction runs. *)
Definition resolve (str : jsvalue) (self : AsyncHelpers)
  : outcome jsvalue * AsyncHelpers :=
  match resolve_records (map snd (ids self)) self with
  | (Fulfilled _, self') =>
      (reduce (returned (map snd (ids self)) self') str, self')
  | (Rejected e, self') => (Rejected e, self')
  | (Diverged, self') => (Diverged, self')
  | (Unmodelled, self') => (Unmodelled, self')
  end.

(** What a caller does with an instance. *)
Inductive operation : Type :=
| OpHelper (name : jsvalue) (fn : jsvalue + Declared)
| OpHelpers (obj : jsvalue + list (string * (jsvalue + Declared)))
| OpCall (name : string) (now : nat) (this : jsvalue) (arguments : list jsvalue)
| OpResolve (str : jsvalue).

(** [perform op self]: the identifier that the call returned, if it was a
    call of a wrapped helper, and the state after it.  A helper that was
    kept as it is runs at once and leaves the state alone. *)
Definition perform (op : operation) (self : AsyncHelpers)
  : option string * AsyncHelpers :=
  match op with
  | OpHelper name fn => (None, snd (helper name fn self))
  | OpHelpers obj => (None, snd (helpers obj self))
  | OpCall name now this arguments =>
      match assoc name (allHelpers self) with
      | Some (Wrapped nm func) =>
          let (i, self') := wrapped nm func now this arguments self in
          (Some i, self')
      | _ => (None, self)
      end
  | OpResolve str => (None, snd (resolve str self))
  end.

Fixpoint execute (ops : list operation) (self : AsyncHelpers)
  : list string * AsyncHelpers :=
  match ops with
  | [] => ([], self)
  | op :: rest =>
      let (t, self1) := perform op self in
      let (ts, self2) := execute rest self1 in
      (match t with Some x => x :: ts | None => ts end, self2)
  end.

(** Every stored identifier was made from a value the counter has
    passed. *)
Definition bounded (self : AsyncHelpers) : Prop :=
  forall k, In k (keys (ids self)) ->
    exists now nm n, k = make_id now nm n /\ n <= counter self.

End Older.

(** * Properties *)

(** ** Strings *)

Lemma append_nil_r (s : string) : s ++ EmptyString = s.
Proof. induction s as [|c s IH]; simpl; [reflexivity | now rewrite IH]. Qed.

Lemma append_assoc (a b c : string) : (a ++ b) ++ c = a ++ b ++ c.
Proof. induction a as [|x a IH]; simpl; [reflexivity | now rewrite IH]. Qed.

Lemma list_of_append (a b : string) :
  list_ascii_of_string (a ++ b)
  = (list_ascii_of_string a ++ list_ascii_of_string b)%list.
Proof. induction a as [|x a IH]; simpl; [reflexivity | now rewrite IH]. Qed.

Lemma list_of_string_inj (a b : string) :
  list_ascii_of_string a = list_ascii_of_string b -> a = b.
Proof.
  intros H.
  rewrite <- (string_of_list_ascii_of_string a), H.
  apply string_of_list_ascii_of_string.
Qed.

Lemma append_inv_tail (a b c : string) : a ++ c = b ++ c -> a = b.
Proof.
  intros H. apply list_of_string_inj.
  apply (f_equal list_ascii_of_string) in H.
  rewrite !list_of_append in H.
  now apply app_inv_tail in H.
Qed.

Lemma append_inv_head (a b c : string) : c ++ a = c ++ b -> a = b.
Proof.
  induction c as [|x c IH]; simpl; intros H; [assumption|].
  injection H as H. now apply IH.
Qed.

Lemma prefix_append (p s : string) : String.prefix p (p ++ s) = true.
Proof.
  induction p as [|c p IH]; simpl.
  - now destruct s.
  - destruct (ascii_dec c c) as [_|N]; [exact IH | now elim N].
Qed.

Lemma prefix_split (p s : string) :
  String.prefix p s = true -> exists r, s = p ++ r.
Proof.
  revert s. induction p as [|c p IH]; intros s H.
  - now exists s.
  - destruct s as [|d s]; simpl in H; [discriminate|].
    destruct (ascii_dec c d) as [->|]; [|discriminate].
    destruct (IH _ H) as [r ->]. now exists r.
Qed.

Lemma string_of_uint_at_free (d : Decimal.uint) :
  at_free (NilEmpty.string_of_uint d).
Proof.
  unfold at_free.
  induction d; simpl; [tauto | intros [H|H]; [discriminate H | tauto] ..].
Qed.

Lemma decimal_at_free (n : nat) : at_free (decimal n).
Proof. apply string_of_uint_at_free. Qed.

Lemma decimal_inj (n m : nat) : decimal n = decimal m -> n = m.
Proof.
  unfold decimal. intros H.
  apply Unsigned.to_uint_inj.
  assert (E : Some (Nat.to_uint n) = Some (Nat.to_uint m)).
  { rewrite <- !NilEmpty.usu. now rewrite H. }
  now injection E.
Qed.

(** The text after the last [@] of a string is determined by the string. *)
Lemma last_field_unique (a b x y : string) :
  at_free x -> at_free y ->
  a ++ "@" ++ x = b ++ "@" ++ y -> x = y.
Proof.
  unfold at_free. intros Hx Hy. revert b.
  induction a as [|c a IH]; intros [|d b] H; simpl in H.
  - now injection H.
  - injection H as _ H. exfalso. apply Hx. rewrite H, list_of_append.
    apply in_or_app. right. now left.
  - injection H as _ H. exfalso. apply Hy. rewrite <- H, list_of_append.
    apply in_or_app. right. now left.
  - injection H as _ H. now apply (IH b).
Qed.

(** Two identifiers of one instance that agree were made from the same
    value of the counter. *)
Lemma make_id_counter (pfx n1 n2 : string) (c1 c2 : nat) :
  make_id pfx n1 c1 = make_id pfx n2 c2 -> c1 = c2.
Proof.
  unfold make_id. intros H.
  apply append_inv_head in H. simpl in H. injection H as H.
  apply decimal_inj.
  apply (last_field_unique n1 n2); try apply decimal_at_free.
  apply (append_inv_tail _ _ "@@@").
  rewrite !append_assoc. simpl. exact H.
Qed.

Lemma make_id_prefix (pfx nm : string) (n : nat) :
  String.prefix pfx (make_id pfx nm n) = true.
Proof. apply prefix_append. Qed.

(** ** Association lists *)

Lemma assoc_set_eq {A : Type} (k : string) (a : A) (l : list (string * A)) :
  assoc k (assoc_set k a l) = Some a.
Proof.
  induction l as [|[k' a'] l IH]; simpl.
  - now rewrite String.eqb_refl.
  - destruct (String.eqb k k') eqn:E; simpl; rewrite E; [reflexivity | exact IH].
Qed.

Lemma assoc_set_neq {A : Type} (k k' : string) (a : A) (l : list (string * A)) :
  k' <> k -> assoc k' (assoc_set k a l) = assoc k' l.
Proof.
  intros N. induction l as [|[k0 a0] l IH]; simpl.
  - apply String.eqb_neq in N. now rewrite N.
  - destruct (String.eqb k k0) eqn:E; simpl.
    + apply String.eqb_eq in E. subst k0.
      apply String.eqb_neq in N. now rewrite N.
    + now rewrite IH.
Qed.

Lemma assoc_set_same {A : Type} (k : string) (a : A) (l : list (string * A)) :
  assoc k l = Some a -> assoc_set k a l = l.
Proof.
  induction l as [|[k' a'] l IH]; simpl; [discriminate|].
  destruct (String.eqb k k') eqn:E.
  - now intros [= ->].
  - intros H. now rewrite IH.
Qed.

Lemma assoc_in_keys {A : Type} (k : string) (a : A) (l : list (string * A)) :
  assoc k l = Some a -> In k (keys l).
Proof.
  induction l as [|[k' a'] l IH]; simpl; [discriminate|].
  destruct (String.eqb k k') eqn:E.
  - apply String.eqb_eq in E. now left.
  - intros H. right. now apply IH.
Qed.

Lemma assoc_none_keys {A : Type} (k : string) (l : list (string * A)) :
  ~ In k (keys l) -> assoc k l = None.
Proof.
  induction l as [|[k' a'] l IH]; simpl; [reflexivity|].
  intros N. destruct (String.eqb k k') eqn:E.
  - apply String.eqb_eq in E. elim N. now left.
  - apply IH. tauto.
Qed.

Lemma keys_assoc_set_new {A : Type} (k : string) (a : A) (l : list (string * A)) :
  assoc k l = None -> keys (assoc_set k a l) = (keys l ++ [k])%list.
Proof.
  induction l as [|[k' a'] l IH]; simpl; [reflexivity|].
  destruct (String.eqb k k') eqn:E; [discriminate|].
  intros H. simpl. f_equal. now apply IH.
Qed.

Lemma keys_store_value (i : string) (v : jsvalue) (l : list (string * Token)) :
  keys (store_value i v l) = keys l.
Proof.
  induction l as [|[k r] l IH]; simpl; [reflexivity|].
  destruct (String.eqb i k); simpl; [reflexivity | now rewrite IH].
Qed.

Lemma assoc_store_value_eq (i : string) (v : jsvalue) (l : list (string * Token)) :
  assoc i (store_value i v l) = option_map (with_value v) (assoc i l).
Proof.
  induction l as [|[k r] l IH]; simpl; [reflexivity|].
  destruct (String.eqb i k) eqn:E; simpl; rewrite E; [reflexivity | exact IH].
Qed.

Lemma assoc_store_value_neq (i k : string) (v : jsvalue)
  (l : list (string * Token)) :
  k <> i -> assoc k (store_value i v l) = assoc k l.
Proof.
  intros N. induction l as [|[k0 r] l IH]; simpl; [reflexivity|].
  destruct (String.eqb i k0) eqn:E; simpl.
  - apply String.eqb_eq in E. subst k0.
    apply String.eqb_neq in N. now rewrite N.
  - now rewrite IH.
Qed.

Lemma same_record_refl (r : Token) : same_record r r.
Proof. unfold same_record; tauto. Qed.

Lemma same_record_trans (a b c : Token) :
  same_record a b -> same_record b c -> same_record a c.
Proof.
  unfold same_record.
  intros (A1 & A2 & A3 & A4 & A5 & A6 & A7) (B1 & B2 & B3 & B4 & B5 & B6 & B7).
  repeat split; try congruence. auto.
Qed.

Lemma same_records_refl (l : list (string * Token)) : same_records l l.
Proof.
  induction l; constructor; [|assumption].
  split; [reflexivity | apply same_record_refl].
Qed.

Lemma same_records_trans (a b c : list (string * Token)) :
  same_records a b -> same_records b c -> same_records a c.
Proof.
  intros H. revert c. induction H as [|x y a b [K R] _ IH]; intros c Hc.
  - inversion Hc. constructor.
  - inversion Hc as [|y' z b' c' [K' R'] Hbc]; subst.
    constructor; [|now apply IH].
    split; [congruence | eapply same_record_trans; eassumption].
Qed.

Lemma same_records_keys (l l' : list (string * Token)) :
  same_records l l' -> keys l' = keys l.
Proof.
  induction 1 as [|x y l l' [K _] _ IH]; simpl; [reflexivity|].
  now rewrite K, IH.
Qed.

Lemma same_records_assoc (l l' : list (string * Token)) (k : string) (r : Token) :
  same_records l l' -> assoc k l = Some r ->
  exists r', assoc k l' = Some r' /\ same_record r r'.
Proof.
  induction 1 as [|[k1 r1] [k2 r2] l l' [K R] _ IH]; simpl; [discriminate|].
  simpl in K, R. subst k2.
  destruct (String.eqb k k1).
  - intros [= <-]. now exists r2.
  - exact IH.
Qed.

Lemma same_records_assoc_none (l l' : list (string * Token)) (k : string) :
  same_records l l' -> assoc k l = None -> assoc k l' = None.
Proof.
  induction 1 as [|[k1 r1] [k2 r2] l l' [K R] _ IH]; simpl; [reflexivity|].
  simpl in K. subst k2.
  destruct (String.eqb k k1); [discriminate | exact IH].
Qed.

Lemma same_records_store_value (i : string) (v : jsvalue)
  (l : list (string * Token)) :
  same_records l (store_value i v l).
Proof.
  induction l as [|[k r] l IH]; simpl; [constructor|].
  destruct (String.eqb i k).
  - constructor; [|apply same_records_refl].
    split; [reflexivity|]. unfold same_record; simpl.
    repeat split; try reflexivity. discriminate.
  - constructor; [|exact IH].
    split; [reflexivity | apply same_record_refl].
Qed.

Lemma frame_refl (st : AsyncHelpers) : frame st st [].
Proof.
  constructor; try reflexivity.
  - apply same_records_refl.
  - now rewrite app_nil_r.
Qed.

Lemma frame_trans (a b c : AsyncHelpers) (l1 l2 : list call) :
  frame a b l1 -> frame b c l2 -> frame a c (l1 ++ l2).
Proof.
  intros [A1 A2 A3 A4 A5 A6] [B1 B2 B3 B4 B5 B6].
  constructor; try congruence.
  - eapply same_records_trans; eassumption.
  - now rewrite B6, A6, app_assoc.
Qed.

Lemma frame_record_call (c : call) (st : AsyncHelpers) :
  frame st (record_call c st) [c].
Proof. constructor; try reflexivity. apply same_records_refl. Qed.

Lemma frame_store_value (i : string) (v : jsvalue) (st : AsyncHelpers) :
  frame st (set_helperIds (store_value i v) st) [].
Proof.
  constructor; try reflexivity.
  - apply same_records_store_value.
  - simpl. now rewrite app_nil_r.
Qed.

Lemma accounted_nil {A : Type} (o : outcome A) : accounted o [].
Proof. intros c e []. Qed.

Lemma sound_pure {A : Type} (m : M A) :
  (forall st, snd (m st) = st) -> sound m.
Proof.
  intros H st. exists []. rewrite H. split; [apply frame_refl | apply accounted_nil].
Qed.

Lemma sound_ret {A : Type} (a : A) : sound (ret a).
Proof. now apply sound_pure. Qed.

Lemma sound_throw {A : Type} (e : exn) : sound (@throw A e).
Proof. now apply sound_pure. Qed.

Lemma sound_diverge {A : Type} : sound (@diverge A).
Proof. now apply sound_pure. Qed.

Lemma sound_unmodelled {A : Type} : sound (@unmodelled A).
Proof. now apply sound_pure. Qed.

Lemma sound_gets {A : Type} (f : AsyncHelpers -> A) : sound (gets f).
Proof. now apply sound_pure. Qed.

Lemma sound_bind {A B : Type} (m : M A) (k : A -> M B) :
  sound m -> (forall a, sound (k a)) -> sound (bind m k).
Proof.
  intros Hm Hk st. unfold bind.
  destruct (Hm st) as (l1 & F1 & A1).
  destruct (m st) as [[a|e| |] st1]; simpl in *.
  - destruct (Hk a st1) as (l2 & F2 & A2).
    exists (l1 ++ l2)%list. split; [eapply frame_trans; eassumption|].
    intros c e I E. apply in_app_or in I. destruct I as [I|I].
    + destruct (A1 c e I E) as (e1 & O). discriminate O.
    + exact (A2 c e I E).
  - exists l1. split; [assumption|].
    intros c e' I E. now exists e.
  - exists l1. split; [assumption|].
    intros c e' I E. destruct (A1 c e' I E) as (e1 & O). discriminate.
  - exists l1. split; [assumption|].
    intros c e' I E. destruct (A1 c e' I E) as (e1 & O). discriminate.
Qed.

Lemma sound_mapM {A B : Type} (f : A -> M B) (l : list A) :
  (forall a, sound (f a)) -> sound (mapM f l).
Proof.
  intros H. induction l as [|a l IH]; simpl.
  - apply sound_ret.
  - apply sound_bind; [apply H|]. intros b.
    apply sound_bind; [exact IH|]. intros bs. apply sound_ret.
Qed.

Lemma sound_foldM {A B : Type} (f : B -> A -> M B) (l : list A) (b : B) :
  (forall b a, sound (f b a)) -> sound (foldM f l b).
Proof.
  intros H. revert b. induction l as [|a l IH]; intros b; simpl.
  - apply sound_ret.
  - apply sound_bind; [apply H | intros b'; apply IH].
Qed.

Lemma sound_hasAsyncId (v : jsvalue) : sound (hasAsyncId v).
Proof.
  apply sound_pure. intros st. unfold hasAsyncId, bind, gets, ret, unmodelled.
  simpl. now destruct (plain (prefix st)).
Qed.

Lemma sound_ToPropertyKey (v : jsvalue) : sound (ToPropertyKey v).
Proof.
  unfold ToPropertyKey. destruct (ToString v); [apply sound_ret | apply sound_throw].
Qed.

Create HintDb sound.

#[local] Hint Resolve sound_ret sound_throw sound_diverge sound_unmodelled
  sound_gets sound_hasAsyncId sound_ToPropertyKey : sound.

Section SoundResolve.

Variable src : source.
Variable self : jsvalue -> M jsvalue.
Hypothesis sound_self : forall key, sound (self key).

Lemma sound_resolve_element (x : jsvalue) : sound (resolve_element self x).
Proof.
  unfold resolve_element. apply sound_bind; auto with sound.
  intros []; auto with sound.
Qed.

Lemma sound_resolve_hash (arg : jsvalue) : sound (resolve_hash self arg).
Proof.
  unfold resolve_hash. destruct (get_hash arg); auto with sound.
  - apply sound_bind; [|auto with sound].
    apply sound_mapM. apply sound_resolve_element.
  - apply sound_bind; [|auto with sound].
    apply sound_mapM. intros kv.
    apply sound_bind; [apply sound_resolve_element | auto with sound].
Qed.

Lemma sound_resolve_arg (arg : jsvalue) : sound (resolve_arg src self arg).
Proof.
  unfold resolve_arg. apply sound_bind; auto with sound. intros k.
  apply sound_bind; auto with sound. intros ids.
  destruct (assoc k ids); [apply sound_self|].
  destruct (inherited k); [apply sound_self|].
  destruct (takes_hash_branch src arg); [apply sound_resolve_hash|].
  destruct arg; try apply sound_ret.
  apply sound_bind; [|auto with sound].
  apply sound_mapM. apply sound_resolve_element.
Qed.

Lemma sound_reduce_step (acc : jsvalue) (entry : string * jsvalue) :
  sound (reduce_step acc entry).
Proof.
  unfold reduce_step. destruct entry as [i v].
  destruct (strict_equals_string acc i); auto with sound.
  destruct acc; auto with sound;
    destruct (plain i); auto with sound.
  destruct (ToString v); auto with sound.
Qed.

Lemma sound_resolve_keys (ks : list string) : sound (resolve_keys self ks).
Proof.
  apply sound_mapM. intros i. apply sound_bind; auto with sound.
Qed.

Lemma sound_resolveIds_body (str : jsvalue) : sound (resolveIds_body self str).
Proof.
  unfold resolveIds_body. apply sound_bind; auto with sound. intros ids.
  apply sound_bind.
  - apply sound_resolve_keys.
  - intros res. apply sound_foldM. apply sound_reduce_step.
Qed.

End SoundResolve.

Section SoundResolveId.

Variable src : source.
Variable self : jsvalue -> M jsvalue.
Hypothesis sound_self : forall key, sound (self key).

Lemma sound_guarded_call (r : Token) : sound (guarded_call src self r).
Proof.
  intros st. unfold guarded_call, try_catch, bind.
  destruct (sound_mapM (resolve_arg src self) (args r)
              (sound_resolve_arg src self sound_self) st) as (l1 & F1 & A1).
  destruct (mapM (resolve_arg src self) (args r) st) as [[argz|e| |] st1];
    simpl in F1, A1.
  - (* the arguments are resolved: the implementation is applied *)
    unfold apply, bind, modify.
    set (c := {| call_id := id r; call_name := name r; call_args := argz;
                 call_completion := settle (fn r) (ctx r) argz |}).
    assert (Fc : frame st (record_call c st1) (l1 ++ [c])).
    { eapply frame_trans; [exact F1 | apply frame_record_call]. }
    assert (A1' : forall c' e', In c' l1 -> call_completion c' <> Fails e').
    { intros c' e' I E. destruct (A1 c' e' I E) as (? & O).
      discriminate O. }
    destruct (settle (fn r) (ctx r) argz) as [v|e] eqn:Hs; simpl.
    + unfold assign_value, bind, gets. simpl.
      destruct (assoc (id r) (helperIds st1)); simpl.
      * exists ((l1 ++ [c]) ++ [])%list. split.
        -- eapply frame_trans; [exact Fc | apply frame_store_value].
        -- intros c' e' I E. rewrite app_nil_r in I.
           apply in_app_or in I. destruct I as [I|[<-|[]]].
           ++ now elim (A1' c' e').
           ++ subst c. simpl in E. congruence.
      * exists (l1 ++ [c])%list. split; [exact Fc|].
        intros c' e' I E.
        apply in_app_or in I. destruct I as [I|[<-|[]]].
        -- now elim (A1' c' e').
        -- subst c. simpl in E. congruence.
    + exists (l1 ++ [c])%list. split; [exact Fc|].
      intros c' e' I E.
      apply in_app_or in I. destruct I as [I|[<-|[]]].
      * now elim (A1' c' e').
      * now eexists.
  - (* an argument failed: the rejection is wrapped once more *)
    exists l1. split; [exact F1|].
    intros c e' I E. now eexists.
  - exists l1. split; [exact F1|].
    intros c e' I E. destruct (A1 c e' I E) as (? & O). discriminate O.
  - exists l1. split; [exact F1|].
    intros c e' I E. destruct (A1 c e' I E) as (? & O). discriminate O.
Qed.

Lemma sound_expand (val : jsvalue) : sound (expand self val).
Proof.
  unfold expand. apply sound_bind; auto with sound.
  intros []; auto with sound. now apply sound_resolveIds_body.
Qed.

Lemma sound_deliver (val : jsvalue) : sound (deliver src self val).
Proof.
  unfold deliver. destruct src; [|apply sound_expand].
  destruct (negb (truthy val)); [apply sound_ret | apply sound_expand].
Qed.

Lemma sound_resolve_member : sound (resolve_member src).
Proof.
  unfold resolve_member. apply sound_bind; auto with sound. intros ids.
  destruct (assoc "undefined" ids) as [at_id|]; auto with sound.
  destruct src, (value at_id); auto with sound.
Qed.

Lemma sound_resolveId_body (key : jsvalue) :
  sound (resolveId_body src self key).
Proof.
  unfold resolveId_body.
  apply sound_bind; auto with sound. intros k.
  apply sound_bind; auto with sound. intros ids.
  destruct (assoc k ids) as [r|];
    [|destruct (inherited k); [apply sound_resolve_member | auto with sound]].
  destruct (assoc (id r) ids) as [at_id|]; auto with sound.
  destruct (memoized src at_id r); auto with sound.
  apply sound_bind; [apply sound_guarded_call|]. intros _.
  apply sound_bind; auto with sound. intros ids'.
  destruct (assoc (id r) ids') as [r'|]; auto with sound.
  apply sound_deliver.
Qed.

End SoundResolveId.

Lemma sound_resolveId (src : source) (fuel : nat) (key : jsvalue) :
  sound (resolveId src fuel key).
Proof.
  revert key. induction fuel as [|n IH]; intros key; simpl.
  - apply sound_diverge.
  - now apply sound_resolveId_body.
Qed.

Lemma sound_resolveIds (src : source) (fuel : nat) (str : jsvalue) :
  sound (resolveIds src fuel str).
Proof. apply sound_resolveIds_body. intros key. apply sound_resolveId. Qed.

(** ** Wrapping is cached (C8) *)

(** C8.  When [wrapHelper] is asked for a name whose wrapped version is
    already stored (its property [wrapped] is [true] from its creation on),
    it returns that stored function itself and changes nothing, whatever
    helper is supplied along: in both classes a helper is wrapped at most
    once. *)
Theorem wrapHelper_is_idempotent :
  forall (src : source) (nm : string) (supplied : option Helper)
         (st : AsyncHelpers) (w : WrappedHelper),
    nm <> EmptyString ->
    assoc nm (wrappedHelpers st) = Some w ->
    wrapHelper src (Name nm) supplied st = (Fulfilled (TheWrapped w), st).
Proof.
  intros src nm supplied st w Hnm Hw.
  destruct nm as [|c nm]; [now elim Hnm|].
  unfold wrapHelper, wrapHelper_with, wrap_named, bind, gets. simpl fst.
  cbv beta iota. rewrite Hw. now destruct src.
Qed.

Lemma wrapHelper_is_idempotent_witness :
  wrapHelper part_004 (Name "upper") (Some lower)
    (register part_004 "upper" upper (constructor None))
  = (Fulfilled (TheWrapped {| helperName := "upper";
                              wrappedFn := normalize upper |}),
     register part_004 "upper" upper (constructor None)).
Proof.
  apply (wrapHelper_is_idempotent part_004 "upper" (Some lower)).
  - discriminate.
  - reflexivity.
Defined.

(** The statement is by name.  A function that is itself marked [wrapped],
    supplied under a name that has no wrapped version, is handed back as it
    is by [part_004] and wrapped once more by [part_002]. *)
Example wrapped_function_under_a_new_name :
  fst (wrapHelper part_004 (Name "upper") (Some foreign_wrapped)
         (constructor None))
  = Fulfilled (TheHelper foreign_wrapped)
  /\ fst (wrapHelper part_002 (Name "upper") (Some foreign_wrapped)
            (constructor None))
     = Fulfilled (TheWrapped {| helperName := "upper";
                                wrappedFn := normalize foreign_wrapped |}).
Proof. split; reflexivity. Qed.

Lemma registry_only_pure {A : Type} (m : M A) :
  (forall st, snd (m st) = st) -> registry_only m.
Proof. intros H st. rewrite H. tauto. Qed.

Lemma registry_only_bind {A B : Type} (m : M A) (k : A -> M B) :
  registry_only m -> (forall a, registry_only (k a)) -> registry_only (bind m k).
Proof.
  intros Hm Hk st. unfold bind.
  destruct (Hm st) as (P1 & P2 & P3 & P4 & P5).
  destruct (m st) as [[a|e| |] st1]; simpl in *; try tauto.
  destruct (Hk a st1) as (Q1 & Q2 & Q3 & Q4 & Q5).
  intuition congruence.
Qed.

Lemma registry_only_forEach {A : Type} (f : A -> M unit) (l : list A) :
  (forall a, registry_only (f a)) -> registry_only (forEach f l).
Proof.
  intros H. induction l as [|a l IH]; simpl.
  - now apply registry_only_pure.
  - apply registry_only_bind; [apply H | intros _; exact IH].
Qed.

Lemma registry_ok_set_raw (nm : string) (o : option Helper) (st : AsyncHelpers) :
  o <> None \/ assoc nm (wrappedHelpers st) = None ->
  registry_ok st -> registry_ok (set_rawHelpers (assoc_set nm o) st).
Proof.
  intros Ho R nm' w Hw. simpl in Hw.
  destruct (R nm' w Hw) as [Hraw Hn]. split; [|exact Hn].
  unfold raw_lookup in *. simpl.
  destruct (string_dec nm' nm) as [->|N].
  - rewrite assoc_set_eq. destruct Ho as [Ho|Ho]; [exact Ho | congruence].
  - now rewrite assoc_set_neq.
Qed.

Lemma registry_ok_set_wrapped (nm : string) (w : WrappedHelper) (st : AsyncHelpers) :
  raw_lookup nm st <> None -> helperName w = nm ->
  registry_ok st -> registry_ok (set_wrappedHelpers (assoc_set nm w) st).
Proof.
  intros Hraw Hn R nm' w' Hw. simpl in Hw.
  destruct (string_dec nm' nm) as [->|N].
  - rewrite assoc_set_eq in Hw. injection Hw as <-. now split.
  - rewrite assoc_set_neq in Hw by assumption. exact (R nm' w' Hw).
Qed.

Lemma raw_lookup_set_raw (nm : string) (o : option Helper) (st : AsyncHelpers) :
  raw_lookup nm (set_rawHelpers (assoc_set nm o) st) = o.
Proof. unfold raw_lookup. simpl. now rewrite assoc_set_eq. Qed.

Ltac registry_case :=
  simpl;
  repeat match goal with
  | |- _ /\ _ => split; [reflexivity|]
  end;
  intros R;
  first
    [ exact R
    | repeat first
        [ apply registry_ok_set_wrapped; [| reflexivity |]
        | apply registry_ok_set_raw; [|] ];
      try exact R;
      try (left; discriminate);
      try (right; assumption);
      try (rewrite raw_lookup_set_raw; discriminate);
      try congruence ].

Lemma registry_only_wrap_named (src : source) (nm : string)
  (supplied : option Helper) :
  registry_only (wrap_named src nm supplied).
Proof.
  intros st.
  unfold wrap_named, bind, gets, modify, install, ret, throw, unmodelled.
  simpl.
  destruct src;
    destruct (assoc nm (wrappedHelpers st)) as [w|] eqn:Hw;
    destruct (inherited nm);
    destruct (raw_lookup nm st) as [h|] eqn:Hraw;
    destruct supplied as [s|]; simpl;
    try (destruct (wrapped_prop _)); registry_case.
Qed.

Lemma registry_only_wrapHelper (src : source) (nm : nameArg)
  (supplied : option Helper) :
  registry_only (wrapHelper src nm supplied).
Proof.
  assert (All : registry_only (wrap_all (wrap_named src))).
  { unfold wrap_all. apply registry_only_bind; [now apply registry_only_pure|].
    intros raw. destruct (existsb _ _); [now apply registry_only_pure|].
    apply registry_only_forEach. intros kv.
    apply registry_only_bind; [apply registry_only_wrap_named|].
    intros _. now apply registry_only_pure. }
  assert (Ws : registry_only (ws <- gets wrappedHelpers ;; ret (AllWrapped ws))).
  { now apply registry_only_pure. }
  unfold wrapHelper, wrapHelper_with. destruct nm as [[|c s]|m|].
  - apply registry_only_bind; [exact All | intros _; exact Ws].
  - apply registry_only_wrap_named.
  - apply registry_only_bind; [|intros _; exact Ws].
    apply registry_only_forEach. intros [[|c k] o]; simpl; [exact All|].
    apply registry_only_bind; [apply registry_only_wrap_named|].
    intros _. now apply registry_only_pure.
  - apply registry_only_bind; [exact All | intros _; exact Ws].
Qed.

Lemma registry_only_helper_named (nm : string) (f : option Helper) :
  registry_only (helper_named nm f).
Proof.
  unfold helper_named. destruct nm as [|c nm]; [now apply registry_only_pure|].
  destruct f as [h|].
  2:{ apply registry_only_pure. intros st. unfold bind, gets. simpl.
      destruct (assoc _ (rawHelpers st)); [reflexivity|].
      now destruct (inherited _). }
  apply registry_only_bind; [|intros _; now apply registry_only_pure].
  intros st. simpl. do 4 (split; [reflexivity|]).
  apply registry_ok_set_raw. left. discriminate.
Qed.

Lemma registry_only_helper (nm : nameArg) (f : option Helper) :
  registry_only (helper nm f).
Proof.
  unfold helper. destruct nm as [s|m|].
  - apply registry_only_helper_named.
  - apply registry_only_bind; [|intros _; now apply registry_only_pure].
    apply registry_only_forEach. intros kv.
    apply registry_only_bind; [apply registry_only_helper_named|].
    intros _. now apply registry_only_pure.
  - now apply registry_only_pure.
Qed.

(** ** The invariants hold in every state a caller can reach *)

Lemma keys_assoc_set {A : Type} (k x : string) (a : A) (l : list (string * A)) :
  In x (keys (assoc_set k a l)) <-> In x (keys l) \/ x = k.
Proof.
  induction l as [|[k' a'] l IH]; simpl.
  - intuition.
  - destruct (String.eqb k k') eqn:E; simpl.
    + apply String.eqb_eq in E. subst k'. intuition.
    + rewrite IH. intuition.
Qed.

Lemma same_records_assoc_back (l l' : list (string * Token)) (k : string)
  (r' : Token) :
  same_records l l' -> assoc k l' = Some r' ->
  exists r, assoc k l = Some r /\ same_record r r'.
Proof.
  induction 1 as [|[k1 r1] [k2 r2] l l' [K R] _ IH]; simpl; [discriminate|].
  simpl in K, R. subst k2.
  destruct (String.eqb k k1).
  - intros [= <-]. now exists r1.
  - exact IH.
Qed.

Lemma invariant_constructor (options_prefix : option string) :
  invariant (constructor options_prefix).
Proof.
  split; [|split].
  - intros k [].
  - intros k r H. discriminate H.
  - intros nm w H. discriminate H.
Qed.

Lemma invariant_registry_only {A : Type} (m : M A) (st : AsyncHelpers) :
  registry_only m -> invariant st -> invariant (snd (m st)).
Proof.
  intros H (I1 & I2 & I3). destruct (H st) as (P1 & P2 & P3 & P4 & P5).
  split; [|split].
  - intros k Hk. rewrite P1, P2. apply I1. now rewrite <- P3.
  - intros k r Hk. apply I2. now rewrite <- P3.
  - now apply P5.
Qed.

Lemma invariant_frame (st st' : AsyncHelpers) (l : list call) :
  frame st st' l -> invariant st -> invariant st'.
Proof.
  intros [F1 F2 F3 F4 F5 F6] (I1 & I2 & I3). split; [|split].
  - intros k Hk. rewrite F1, F2. apply I1.
    now rewrite <- (same_records_keys _ _ F5).
  - intros k r' Hk.
    destruct (same_records_assoc_back _ _ _ _ F5 Hk) as (r & Hr & S).
    destruct S as (S1 & _). rewrite S1. now apply I2.
  - intros nm w Hw. rewrite F4 in Hw. destruct (I3 nm w Hw) as [Hraw Hn].
    split; [|exact Hn]. unfold raw_lookup in *. now rewrite F3.
Qed.

Lemma wrappedHelper_fresh (w : WrappedHelper) (this : jsvalue)
  (arguments : list jsvalue) (st : AsyncHelpers) :
  ids_bounded st ->
  ~ In (fst (wrappedHelper w this arguments st)) (keys (helperIds st)).
Proof.
  intros B Hin. simpl in Hin.
  destruct (B _ Hin) as (nm & n & E & Hn).
  apply make_id_counter in E. lia.
Qed.

Lemma invariant_wrappedHelper (w : WrappedHelper) (this : jsvalue)
  (arguments : list jsvalue) (st : AsyncHelpers) :
  invariant st -> invariant (snd (wrappedHelper w this arguments st)).
Proof.
  intros (I1 & I2 & I3). split; [|split].
  - intros k Hk. simpl in *. apply keys_assoc_set in Hk.
    destruct Hk as [Hk| ->].
    + destruct (I1 k Hk) as (nm & n & E & Hn). exists nm, n. split; [exact E | lia].
    + exists (helperName w), (S (counter st)). split; [reflexivity | lia].
  - intros k r Hk. simpl in Hk.
    destruct (string_dec k (make_id (prefix st) (helperName w) (S (counter st))))
      as [->|N].
    + rewrite assoc_set_eq in Hk. now injection Hk as <-.
    + rewrite assoc_set_neq in Hk by assumption. now apply I2.
  - exact I3.
Qed.

Lemma perform_spec (src : source) (op : operation) (st : AsyncHelpers) :
  invariant st ->
  invariant (snd (perform src op st))
  /\ prefix (snd (perform src op st)) = prefix st
  /\ (forall k, In k (keys (helperIds st)) ->
                In k (keys (helperIds (snd (perform src op st)))))
  /\ (forall t, fst (perform src op st) = Some t ->
                In t (keys (helperIds (snd (perform src op st))))
                /\ ~ In t (keys (helperIds st))).
Proof.
  intros I.
  assert (Reg : forall (A : Type) (m : M A), registry_only m ->
            invariant (after m st) /\ prefix (after m st) = prefix st
            /\ (forall k, In k (keys (helperIds st)) ->
                          In k (keys (helperIds (after m st))))
            /\ (forall t, @None string = Some t ->
                  In t (keys (helperIds (after m st)))
                  /\ ~ In t (keys (helperIds st)))).
  { intros A m Hm. split; [now apply invariant_registry_only|].
    destruct (Hm st) as (P1 & _ & P3 & _). unfold after.
    split; [exact P1|]. split; [now rewrite P3 | discriminate]. }
  assert (Res : forall (A : Type) (m : M A), sound m ->
            invariant (after m st) /\ prefix (after m st) = prefix st
            /\ (forall k, In k (keys (helperIds st)) ->
                          In k (keys (helperIds (after m st))))
            /\ (forall t, @None string = Some t ->
                  In t (keys (helperIds (after m st)))
                  /\ ~ In t (keys (helperIds st)))).
  { intros A m Hm. destruct (Hm st) as (l & F & _). unfold after.
    split; [eapply invariant_frame; eassumption|].
    split; [apply (frame_prefix _ _ _ F)|].
    split; [|discriminate].
    intros k. now rewrite (same_records_keys _ _ (frame_helperIds _ _ _ F)). }
  destruct op as [nm f|nm f|nm this arguments|fuel key|fuel str]; simpl.
  - apply Reg, registry_only_helper.
  - apply Reg, registry_only_wrapHelper.
  - unfold invoke. destruct (assoc nm (wrappedHelpers st)) as [w|].
    + pose proof (wrappedHelper_fresh w this arguments st (proj1 I)) as Fr.
      pose proof (invariant_wrappedHelper w this arguments st I) as I'.
      destruct (wrappedHelper w this arguments st) as [t st'] eqn:E.
      simpl in *. injection E as <- <-.
      split; [exact I'|]. split; [reflexivity|]. split.
      * intros k Hk. simpl. apply keys_assoc_set. now left.
      * intros t [= <-]. split; [|exact Fr].
        simpl. apply keys_assoc_set. now right.
    + simpl. split; [exact I|]. split; [reflexivity|]. split; [tauto | discriminate].
  - apply Res, sound_resolveId.
  - apply Res, sound_resolveIds.
Qed.

Lemma execute_spec (src : source) (ops : list operation) (st : AsyncHelpers) :
  invariant st ->
  invariant (snd (execute src ops st))
  /\ prefix (snd (execute src ops st)) = prefix st
  /\ (forall k, In k (keys (helperIds st)) ->
                In k (keys (helperIds (snd (execute src ops st)))))
  /\ (forall t, In t (fst (execute src ops st)) ->
                In t (keys (helperIds (snd (execute src ops st))))
                /\ ~ In t (keys (helperIds st)))
  /\ NoDup (fst (execute src ops st)).
Proof.
  revert st. induction ops as [|op ops IH]; intros st I; simpl.
  - split; [exact I|]. split; [reflexivity|]. split; [tauto|].
    split; [intros t []|constructor].
  - destruct (perform_spec src op st I) as (I1 & P1 & K1 & T1).
    destruct (perform src op st) as [t st1]. simpl in *.
    destruct (IH st1 I1) as (I2 & P2 & K2 & T2 & N2).
    destruct (execute src ops st1) as [ts st2]. simpl in *.
    split; [exact I2|]. split; [congruence|]. split; [auto|].
    destruct t as [x|].
    + destruct (T1 x eq_refl) as [Hx1 Hx2]. split.
      * intros t [<-|Ht].
        -- split; [now apply K2 | exact Hx2].
        -- destruct (T2 t Ht) as [A B]. split; [exact A|]. intros C. apply B. auto.
      * constructor; [|exact N2]. intros C. destruct (T2 x C) as [_ B]. tauto.
    + split; [|exact N2].
      intros t Ht. destruct (T2 t Ht) as [A B]. split; [exact A|].
      intros C. apply B. auto.
Qed.

Lemma reached_invariant (src : source) (options_prefix : option string)
  (ops : list operation) :
  invariant (reached src options_prefix ops).
Proof.
  exact (proj1 (execute_spec src ops _ (invariant_constructor options_prefix))).
Qed.

(** ** One resolution step, symbolically *)

Lemma resolveId_unmemoized (src : source) (fuel : nat) (key : jsvalue)
  (k : string) (r : Token) (st st1 : AsyncHelpers) (argz : list jsvalue)
  (v : jsvalue) :
  ToString key = Some k ->
  assoc k (helperIds st) = Some r ->
  id r = k ->
  memoized src r r = false ->
  mapM (resolve_arg src (resolveId src fuel)) (args r) st
  = (Fulfilled argz, st1) ->
  settle (fn r) (ctx r) argz = Returns v ->
  resolveId src (S fuel) key st
  = deliver src (resolveId src fuel) v
      (set_helperIds (store_value k v)
         (record_call {| call_id := k; call_name := name r;
                         call_args := argz; call_completion := Returns v |}
            st1)).
Proof.
  intros Hk Hr Hid Hm Hargs Hs.
  destruct (sound_mapM (resolve_arg src (resolveId src fuel)) (args r)
              (sound_resolve_arg src _ (sound_resolveId src fuel)) st)
    as (l & F & _).
  rewrite Hargs in F. simpl in F.
  destruct (same_records_assoc _ _ _ _ (frame_helperIds _ _ _ F) Hr)
    as (r1 & Hr1 & _).
  simpl. unfold resolveId_body, ToPropertyKey. rewrite Hk.
  unfold bind at 1, ret at 1. unfold bind at 1, gets at 1.
  rewrite Hr, Hid, Hr, Hm.
  unfold bind at 1. unfold guarded_call, try_catch, bind at 1.
  rewrite Hargs. unfold apply, bind at 1, modify. rewrite Hs.
  unfold bind at 1, ret at 1. unfold assign_value, bind at 1, gets at 1.
  cbn [helperIds record_call]. rewrite Hid, Hr1. cbn [fst snd].
  unfold bind at 1, gets at 1. unfold modify.
  cbn [helperIds set_helperIds record_call].
  rewrite assoc_store_value_eq, Hr1. cbn [option_map].
  unfold value_or_undefined. cbn [value with_value]. reflexivity.
Qed.

Lemma hasAsyncId_token_free (val : jsvalue) (st : AsyncHelpers) :
  plain (prefix st) = true -> token_free (prefix st) val = true ->
  hasAsyncId val st = (Fulfilled false, st).
Proof.
  intros Hp Ht. unfold hasAsyncId, bind, gets. rewrite Hp.
  destruct val; try reflexivity. simpl in Ht.
  apply negb_true_iff in Ht. rewrite Ht. now rewrite andb_false_r.
Qed.

Lemma deliver_token_free (src : source) (self : jsvalue -> M jsvalue)
  (v : jsvalue) (st : AsyncHelpers) :
  plain (prefix st) = true -> token_free (prefix st) v = true ->
  deliver src self v st = (Fulfilled (delivered src v), st).
Proof.
  intros Hp Ht.
  assert (E : expand self v st = (Fulfilled v, st)).
  { unfold expand, bind. now rewrite hasAsyncId_token_free. }
  unfold deliver, delivered. destruct src; [|exact E].
  destruct (truthy v); [exact E | reflexivity].
Qed.

(** ** Arguments without tokens are passed as they are *)

Section Literal.

Variable src : source.
Variable self : jsvalue -> M jsvalue.

Lemma mapM_unchanged {A : Type} (f : A -> M A) (l : list A) (st : AsyncHelpers) :
  (forall a, In a l -> f a st = (Fulfilled a, st)) ->
  mapM f l st = (Fulfilled l, st).
Proof.
  induction l as [|a l IH]; intros H; [reflexivity|].
  simpl. unfold bind. rewrite (H a (or_introl eq_refl)).
  rewrite IH; [reflexivity|]. intros b Hb. apply H. now right.
Qed.

Lemma resolve_element_token_free (x : jsvalue) (st : AsyncHelpers) :
  plain (prefix st) = true -> token_free (prefix st) x = true ->
  resolve_element self x st = (Fulfilled x, st).
Proof.
  intros Hp Ht. unfold resolve_element, bind.
  now rewrite hasAsyncId_token_free.
Qed.

Lemma resolve_elements_token_free (l : list jsvalue) (st : AsyncHelpers) :
  plain (prefix st) = true -> forallb (token_free (prefix st)) l = true ->
  mapM (resolve_element self) l st = (Fulfilled l, st).
Proof.
  intros Hp Hl. apply mapM_unchanged. intros a Ha.
  apply resolve_element_token_free; [exact Hp|].
  rewrite forallb_forall in Hl. now apply Hl.
Qed.

Lemma resolve_entries_token_free (entries : list (string * jsvalue))
  (st : AsyncHelpers) :
  plain (prefix st) = true ->
  forallb (token_free (prefix st)) (map snd entries) = true ->
  mapM (fun kv => v <- resolve_element self (snd kv) ;; ret (fst kv, v))
    entries st
  = (Fulfilled entries, st).
Proof.
  intros Hp Hl. apply mapM_unchanged. intros [k v] Ha.
  unfold bind. rewrite resolve_element_token_free; [reflexivity | exact Hp |].
  rewrite forallb_forall in Hl. apply Hl.
  change v with (snd (k, v)). now apply in_map.
Qed.

Lemma set_hash_same (arg h : jsvalue) :
  get_hash arg = h -> h <> VUndefined -> set_hash arg h = arg.
Proof.
  destruct arg; simpl; try reflexivity.
  destruct (assoc "hash" props) as [h'|] eqn:E.
  - intros <- _. now rewrite (assoc_set_same _ _ _ E).
  - intros <- N. now elim N.
Qed.

Lemma resolve_arg_literal (arg : jsvalue) (st : AsyncHelpers) :
  plain (prefix st) = true ->
  literal src (prefix st) (helperIds st) arg = true ->
  resolve_arg src self arg st = (Fulfilled arg, st).
Proof.
  intros Hp. unfold literal, resolve_arg, ToPropertyKey.
  destruct (ToString arg) as [k|]; [|discriminate].
  unfold bind at 1, ret at 1. unfold bind at 1, gets at 1.
  destruct (assoc k (helperIds st)); [discriminate|].
  destruct (inherited k); [discriminate|].
  destruct (takes_hash_branch src arg).
  - unfold resolve_hash. destruct (get_hash arg) eqn:Hh; try discriminate.
    + intros Hl. unfold bind.
      rewrite resolve_elements_token_free by assumption.
      unfold ret. rewrite set_hash_same; [reflexivity | exact Hh | discriminate].
    + intros Hl. unfold bind.
      rewrite resolve_entries_token_free by assumption.
      unfold ret. rewrite set_hash_same; [reflexivity | exact Hh | discriminate].
  - destruct arg; try reflexivity.
    intros Hl. unfold bind.
    now rewrite resolve_elements_token_free by assumption.
Qed.

Lemma resolve_args_literal (arguments : list jsvalue) (st : AsyncHelpers) :
  plain (prefix st) = true ->
  forallb (literal src (prefix st) (helperIds st)) arguments = true ->
  mapM (resolve_arg src self) arguments st = (Fulfilled arguments, st).
Proof.
  intros Hp Hl. apply mapM_unchanged. intros a Ha.
  apply resolve_arg_literal; [exact Hp|].
  rewrite forallb_forall in Hl. now apply Hl.
Qed.

End Literal.

(** ** Wrapping registers an unknown helper (C10) *)

Lemma clear_wrapped_unwrapped (h : Helper) :
  wrapped_prop h = false -> clear_wrapped h = h.
Proof. destruct h as [c b w]. simpl. now intros ->. Qed.

Lemma unregistered_is_unwrapped (st : AsyncHelpers) (nm : string) :
  registry_ok st -> raw_lookup nm st = None ->
  assoc nm (wrappedHelpers st) = None.
Proof.
  intros R Hraw. destruct (assoc nm (wrappedHelpers st)) as [w|] eqn:Hw;
    [|reflexivity].
  destruct (R nm w Hw) as [N _]. now elim N.
Qed.

(** C10, amended.  In a state reached by calls of the class's methods, each
    followed to its end, let
    [nm] be a non-empty name without raw helper that is not the name of a
    member of [Object.prototype].  [wrapHelper(nm, f)] with a supplied
    function [f] registers [f] as the raw helper, so that [helper(nm)]
    afterwards returns [f] -- in [part_002] for every [f], in [part_004] and
    [part_005] for every [f] whose own property [wrapped] is not truthy.  (A
    supplied function marked [wrapped] is handed back by the two JavaScript
    classes without being registered.) *)
Theorem wrapHelper_registers_unknown_name :
  forall (src : source) (options_prefix : option string)
         (ops : list operation) (nm : string) (f : Helper)
         (st005 : AsyncHelpers),
    modelled src options_prefix ops = true ->
    nm <> EmptyString ->
    inherited nm = false ->
    raw_lookup nm (reached src options_prefix ops) = None ->
    raw_lookup nm st005 = None ->
    (src = part_002 \/ wrapped_prop f = false) ->
    fst (helper (Name nm) None
           (after (wrapHelper src (Name nm) (Some f))
              (reached src options_prefix ops)))
    = Fulfilled (Raw (Some f))
    /\ (wrapped_prop f = false ->
        fst (helper (Name nm) None
               (after (wrapHelper_005 (Name nm) (Some f)) st005))
        = Fulfilled (Raw (Some f))).
Proof.
  intros src options_prefix ops nm f st005 _ Hnm Hin Hraw Hraw5 Hf.
  destruct (reached_invariant src options_prefix ops) as (_ & _ & R).
  set (st := reached src options_prefix ops) in *.
  pose proof (unregistered_is_unwrapped st nm R Hraw) as Hw.
  destruct nm as [|c nm]; [now elim Hnm|].
  assert (Get : forall raw, fst (helper (Name (String c nm)) None
                             (set_wrappedHelpers
                                (assoc_set (String c nm)
                                   {| helperName := String c nm;
                                      wrappedFn := normalize f |})
                                (set_rawHelpers
                                   (assoc_set (String c nm) (Some f)) raw)))
                        = Fulfilled (Raw (Some f))).
  { intros raw. unfold helper, helper_named, bind, gets. simpl.
    now rewrite assoc_set_eq. }
  split.
  - unfold after, wrapHelper, wrapHelper_with, wrap_named, bind at 1, gets at 1.
    unfold bind at 1, gets at 1. rewrite Hw, Hraw, Hin.
    destruct src.
    + exact (Get st).
    + destruct Hf as [Hf|Hf]; [discriminate|]. cbn [first_some]. cbv iota.
      rewrite Hf, (clear_wrapped_unwrapped f Hf). exact (Get st).
  - intros Hu.
    unfold after, wrapHelper_005, wrapHelper_with, wrap_named_005.
    unfold bind at 1, gets at 1. unfold bind at 1, gets at 1.
    rewrite Hin, Hraw5. cbn [first_some]. cbv iota. rewrite Hu.
    exact (Get st005).
Qed.

Lemma wrapHelper_registers_unknown_name_witness :
  fst (helper (Name "lower") None
         (after (wrapHelper part_004 (Name "lower") (Some lower))
            (reached part_004 None wrap_upper)))
  = Fulfilled (Raw (Some lower))
  /\ (wrapped_prop lower = false ->
      fst (helper (Name "lower") None
             (after (wrapHelper_005 (Name "lower") (Some lower))
                (constructor None)))
      = Fulfilled (Raw (Some lower))).
Proof.
  apply (wrapHelper_registers_unknown_name part_004 None wrap_upper
           "lower" lower
           (constructor None)).
  - reflexivity.
  - discriminate.
  - reflexivity.
  - reflexivity.
  - reflexivity.
  - right. reflexivity.
Defined.

(** C10 as stated fails in [part_004]: a supplied function that is itself
    a wrapped helper (here of another instance) is returned as it is, and
    [helper("upper")] still finds nothing. *)
Lemma wrapHelper_returns_wrapped_function_unregistered :
  raw_lookup "upper" (constructor None) = None
  /\ fst (wrapHelper part_004 (Name "upper") (Some foreign_wrapped)
            (constructor None))
     = Fulfilled (TheHelper foreign_wrapped)
  /\ fst (helper (Name "upper") None
            (after (wrapHelper part_004 (Name "upper") (Some foreign_wrapped))
               (constructor None)))
     = Fulfilled (Raw None)
  /\ fst (helper (Name "upper") None
            (after (wrapHelper part_004 (Name "upper") (Some foreign_wrapped))
               (constructor None)))
     <> Fulfilled (Raw (Some foreign_wrapped)).
Proof.
  split; [reflexivity|]. split; [reflexivity|]. split; [reflexivity|].
  discriminate.
Qed.

(** ** Memoization (C4) *)

Lemma bind_fulfilled {A B : Type} (m : M A) (k : A -> M B)
  (st st' : AsyncHelpers) (b : B) :
  bind m k st = (Fulfilled b, st') ->
  exists a st1, m st = (Fulfilled a, st1) /\ k a st1 = (Fulfilled b, st').
Proof.
  unfold bind. destruct (m st) as [[a|e| |] st1]; try discriminate.
  intros H. now exists a, st1.
Qed.

Lemma ids_ok_frame (st st' : AsyncHelpers) (l : list call) :
  frame st st' l -> ids_ok st -> ids_ok st'.
Proof.
  intros F I k r' Hk.
  destruct (same_records_assoc_back _ _ _ _ (frame_helperIds _ _ _ F) Hk) as (r & Hr & S).
  destruct S as (S1 & _). rewrite S1. now apply I.
Qed.

Section Memo.

Variable src : source.
Variable self : jsvalue -> M jsvalue.
Hypothesis sound_self : forall key, sound (self key).

Lemma guarded_call_stores (r : Token) (st st' : AsyncHelpers) (u : unit) :
  guarded_call src self r st = (Fulfilled u, st') ->
  exists r', assoc (id r) (helperIds st') = Some r' /\ value r' <> None.
Proof.
  unfold guarded_call, try_catch, bind.
  destruct (mapM (resolve_arg src self) (args r) st) as [[argz|e| |] st1];
    try discriminate.
  unfold apply, bind, modify.
  destruct (settle (fn r) (ctx r) argz) as [v|e]; simpl; [|discriminate].
  unfold assign_value, bind, gets. simpl.
  destruct (assoc (id r) (helperIds st1)) as [r1|] eqn:H1; simpl; [|discriminate].
  intros [= _ <-]. simpl.
  rewrite assoc_store_value_eq, H1. simpl.
  eexists. split; [reflexivity | discriminate].
Qed.

Lemma resolveId_body_stores (key : jsvalue) (st st' : AsyncHelpers) (v : jsvalue) :
  ids_ok st ->
  assoc "undefined" (helperIds st) = None ->
  resolveId_body src self key st = (Fulfilled v, st') ->
  exists w, memo key st' = Some w.
Proof.
  intros I U. unfold resolveId_body, memo, ToPropertyKey.
  destruct (ToString key) as [k|]; [|discriminate].
  unfold bind at 1, ret at 1. unfold bind at 1, gets at 1.
  destruct (assoc k (helperIds st)) as [r|] eqn:Hr.
  2:{ destruct (inherited k); [|discriminate].
      unfold resolve_member, bind, gets. now rewrite U. }
  rewrite (I k r Hr), Hr.
  destruct (memoized src r r) eqn:Hm.
  - intros [= _ <-]. rewrite Hr. unfold memoized in Hm.
    destruct (value r) as [w|]; [now exists w | discriminate].
  - intros H. apply bind_fulfilled in H. destruct H as (u & st2 & G & H).
    apply guarded_call_stores in G. destruct G as (r2 & H2 & V2).
    rewrite (I k r Hr) in H2.
    apply bind_fulfilled in H. destruct H as (ids' & st3 & E & H).
    injection E as <- <-. rewrite H2 in H.
    destruct (sound_deliver src self sound_self (value_or_undefined r2) st2)
      as (l & F & _).
    rewrite H in F. simpl in F.
    destruct (same_records_assoc _ _ _ _ (frame_helperIds _ _ _ F) H2) as (r3 & H3 & S).
    rewrite H3. destruct S as (_ & _ & _ & _ & _ & _ & S).
    destruct (value r3) as [w|]; [now exists w | now elim (S V2)].
Qed.

End Memo.

Lemma resolveId_stores (src : source) (fuel : nat) (key : jsvalue)
  (st st' : AsyncHelpers) (v : jsvalue) :
  ids_ok st ->
  assoc "undefined" (helperIds st) = None ->
  resolveId src fuel key st = (Fulfilled v, st') ->
  exists w, memo key st' = Some w.
Proof.
  destruct fuel as [|n]; simpl; [discriminate|].
  apply resolveId_body_stores. intros k. apply sound_resolveId.
Qed.

Lemma make_id_has_separator (pfx nm : string) (n : nat) :
  In "@"%char (list_ascii_of_string (make_id pfx nm n)).
Proof.
  unfold make_id. rewrite list_of_append. apply in_or_app. right. now left.
Qed.

(** No identifier is the string [undefined]. *)
Lemma bounded_no_undefined (st : AsyncHelpers) :
  ids_bounded st -> assoc "undefined" (helperIds st) = None.
Proof.
  intros B. destruct (assoc "undefined" (helperIds st)) as [r|] eqn:E;
    [|reflexivity].
  destruct (B _ (assoc_in_keys _ _ _ E)) as (nm & n & Hk & _).
  pose proof (make_id_has_separator (prefix st) nm n) as Hin.
  rewrite <- Hk in Hin. simpl in Hin.
  repeat (destruct Hin as [Hin|Hin]; [discriminate Hin|]). contradiction.
Qed.

Lemma resolveId_memoized (src : source) (fuel : nat) (key : jsvalue)
  (st : AsyncHelpers) (w : jsvalue) :
  ids_ok st ->
  memo key st = Some w ->
  src = part_004 \/ is_string w = true ->
  resolveId src (S fuel) key st = (Fulfilled w, st).
Proof.
  intros I Hm Hs. simpl. unfold resolveId_body, memo, ToPropertyKey in *.
  destruct (ToString key) as [k|]; [|discriminate].
  unfold bind at 1, ret at 1. unfold bind at 1, gets at 1.
  destruct (assoc k (helperIds st)) as [r|] eqn:Hr; [|discriminate].
  rewrite (I k r Hr), Hr.
  unfold memoized, value_or_undefined. rewrite Hm.
  destruct src; [|reflexivity].
  destruct Hs as [Hs|Hs]; [discriminate|]. now rewrite Hs.
Qed.



(** In the witness the stored value is the string [DOOWB], and the second
    resolution indeed adds no call. *)
Example upper_is_applied_once :
  memo (VString (first_token "upper")) (upper_resolved part_002)
  = Some (VString "DOOWB")
  /\ List.length (calls (upper_resolved part_002)) = 1
  /\ List.length
       (calls (after (resolveId part_002 2 (VString (first_token "upper")))
                 (upper_resolved part_002))) = 1.
Proof. repeat split. Qed.


(** ** Error propagation (C5) *)

Lemma sound_resolve (src : source) (via : entry) (fuel : nat) (x : jsvalue) :
  sound (resolve src via fuel x).
Proof. destruct via; [apply sound_resolveId | apply sound_resolveIds]. Qed.

(** C5.  The [catch] block of [resolveId] builds its report from
    [err.message].  A helper that rejects with an [Error] is reported by its
    name, its token and the message of the error.  A helper that rejects
    with the string [not found] is reported with the text [undefined] in
    place of the string.  For a helper that rejects with [undefined],
    reading [err.message] throws inside the [catch] block: [resolveId] and
    [resolveIds] are rejected with that [TypeError], which names neither
    the helper nor the token. *)
Theorem failure_that_is_no_error_loses_its_report :
  forall src : source,
    let token := "@@@ASYNCID@@upper@1@@@" in
    let report :=
      "AsyncHelpers#resolveId: helper with name " ++ dquote ++ "upper"
      ++ dquote ++ " and id " ++ dquote ++ token ++ dquote ++ " failed: " in
    fst (resolveId src 1 (VString token)
           (once src "upper" (rejects "not found") [VString "doowb"]))
    = Rejected (JsError (report ++ "not found"))
    /\ fst (resolveId src 1 (VString token)
              (once src "upper" (rejects_with (VString "not found"))
                 [VString "doowb"]))
       = Rejected (JsError (report ++ "undefined"))
    /\ fst (resolveId src 1 (VString token)
              (once src "upper" (rejects_with VUndefined) [VString "doowb"]))
       = Rejected (JsTypeError
                     "Cannot read properties of undefined (reading 'message')")
    /\ fst (resolveIds src 1 (VString token)
              (once src "upper" (rejects_with VUndefined) [VString "doowb"]))
       = Rejected (JsTypeError
                     "Cannot read properties of undefined (reading 'message')").
Proof. intros []; repeat split; reflexivity. Qed.

(** The three ways of failing, on the helpers of the test suite. *)
Example sync_throw_is_reported :
  fst (resolveIds part_004 2 (VString (first_token "upper"))
         (once part_004 "upper" (throws "yeah UPPER sync Error") [VString "doowb"]))
  = Rejected (JsError (failed "upper" (first_token "upper")
                       ++ ": yeah UPPER sync Error")).
Proof. reflexivity. Qed.

Example rejected_promise_is_reported :
  fst (resolveId part_002 2 (VString (first_token "upper"))
         (once part_002 "upper" (rejects "UPPER Error") [VString "doowb"]))
  = Rejected (JsError (failed "upper" (first_token "upper") ++ ": UPPER Error")).
Proof. reflexivity. Qed.

(** A failure below an argument is reported through both records. *)
Example nested_failure_is_reported :
  fst (resolveId part_004 3 (VString (make_id defaultPrefix "lower" 2))
         (call_wrapped "lower" [VString (first_token "upper")]
            (register part_004 "lower" lower
               (once part_004 "upper" (throws "UPPER Error")
                  [VString "doowb"]))))
  = Rejected (JsError (failed "lower" (make_id defaultPrefix "lower" 2) ++ ": "
                       ++ failed "upper" (first_token "upper") ++ ": UPPER Error")).
Proof. reflexivity. Qed.

(** ** Strings without tokens (C6) *)

Lemma prefix_refl (s : string) : String.prefix s s = true.
Proof. rewrite <- (append_nil_r s) at 2. apply prefix_append. Qed.

Lemma occurs_refl (s : string) : occurs s s = true.
Proof. destruct s; [reflexivity|]. cbn [occurs]. now rewrite prefix_refl. Qed.

Lemma replace_scan_absent (pat replacement : string) (s before : string) :
  occurs pat s = false ->
  replace_scan pat replacement before 0 s = s.
Proof.
  revert before. induction s as [|c s IH]; intros before H; [reflexivity|].
  cbn [occurs] in H. apply orb_false_iff in H. destruct H as [Hp Ho].
  cbn [replace_scan]. rewrite Hp. f_equal. now apply IH.
Qed.

Lemma replace_all_absent (pat replacement s : string) :
  occurs pat s = false -> replace_all pat replacement s = s.
Proof.
  intros H. unfold replace_all. destruct pat as [|c pat].
  - destruct s; discriminate H.
  - now apply replace_scan_absent.
Qed.

Lemma resolve_keys_fst (self : jsvalue -> M jsvalue) (ks : list string)
  (st st' : AsyncHelpers) (res : list (string * jsvalue)) :
  resolve_keys self ks st = (Fulfilled res, st') -> map fst res = ks.
Proof.
  revert st st' res. induction ks as [|k ks IH]; intros st st' res; simpl.
  - now intros [= <- _].
  - unfold resolve_keys in *. simpl. intros H.
    apply bind_fulfilled in H. destruct H as (kv & st1 & H1 & H).
    apply bind_fulfilled in H1. destruct H1 as (v & st0 & _ & H1).
    injection H1 as <- <-.
    apply bind_fulfilled in H. destruct H as (rest & st2 & H2 & H).
    injection H as <- _. simpl. f_equal. exact (IH _ _ _ H2).
Qed.

Lemma reduce_without_occurrence (res : list (string * jsvalue)) (s : string)
  (st : AsyncHelpers) :
  (forall i v, In (i, v) res ->
     plain i = true /\ occurs i s = false /\ ToString v <> None) ->
  foldM reduce_step res (VString s) st = (Fulfilled (VString s), st).
Proof.
  induction res as [|[i v] res IH]; intros H; [reflexivity|].
  destruct (H i v (or_introl eq_refl)) as (Hp & Ho & Hv).
  cbn [foldM]. unfold bind. unfold reduce_step at 1.
  cbn [strict_equals_string].
  destruct (String.eqb s i) eqn:E.
  - apply String.eqb_eq in E. subst i. now rewrite occurs_refl in Ho.
  - rewrite Hp. destruct (ToString v) as [replacement|]; [|now elim Hv].
    unfold ret. rewrite (replace_all_absent _ _ _ Ho).
    apply IH. intros i' v' Hin. apply H. now right.
Qed.

(** C6, amended.  Let [s] be a string in which no stored identifier
    occurs, let every stored identifier be free of regular expression
    syntax characters ([resolveIds] makes a regular expression of each),
    and let every stored token resolve, to a value that converts to a
    string.  Then [resolveIds(s)] returns [s] unchanged.  [resolveIds]
    resolves every stored token, whether it occurs in [s] or not: with a
    stored token whose helper fails it is rejected. *)
Theorem resolveIds_without_tokens :
  forall (src : source) (fuel : nat) (s : string)
         (st st' : AsyncHelpers) (res : list (string * jsvalue)),
    (forall i, In i (keys (helperIds st)) ->
               plain i = true /\ occurs i s = false) ->
    resolve_keys (resolveId src fuel) (keys (helperIds st)) st
    = (Fulfilled res, st') ->
    (forall i v, In (i, v) res -> ToString v <> None) ->
    resolveIds src fuel (VString s) st = (Fulfilled (VString s), st').
Proof.
  intros src fuel s st st' res Hk Hres Hv.
  unfold resolveIds, resolveIds_body, bind at 1, gets at 1.
  unfold bind. rewrite Hres.
  apply reduce_without_occurrence. intros i v Hin.
  assert (Hi : In i (keys (helperIds st))).
  { rewrite <- (resolve_keys_fst _ _ _ _ _ Hres).
    change i with (fst (i, v)). now apply in_map. }
  destruct (Hk i Hi) as [Hp Ho]. repeat split; try assumption.
  exact (Hv i v Hin).
Qed.

Lemma resolveIds_without_tokens_witness :
  resolveIds part_004 2 (VString "no token in here") (upper_called part_004)
  = (Fulfilled (VString "no token in here"), upper_resolved part_004).
Proof.
  apply (resolveIds_without_tokens part_004 2 "no token in here"
           (upper_called part_004) (upper_resolved part_004)
           [(first_token "upper", VString "DOOWB")]).
  - intros i [<-|[]]. split; reflexivity.
  - reflexivity.
  - intros i v [[= <- <-]|[]]. discriminate.
Defined.

(** C6 as stated fails in both classes: with a stored token whose helper
    throws, [resolveIds] of a string without any token is rejected. *)
Lemma resolveIds_without_tokens_can_fail :
  fst (hasAsyncId (VString "no token in here") (upper_throwing part_002))
  = Fulfilled false
  /\ occurs (first_token "upper") "no token in here" = false
  /\ fst (resolveIds part_002 2 (VString "no token in here")
            (upper_throwing part_002))
     = Rejected (JsError (failed "upper" (first_token "upper")
                          ++ ": yeah UPPER sync Error"))
  /\ fst (resolveIds part_004 2 (VString "no token in here")
            (upper_throwing part_004))
     = Rejected (JsError (failed "upper" (first_token "upper")
                          ++ ": yeah UPPER sync Error"))
  /\ fst (resolveIds part_002 2 (VString "no token in here")
            (upper_throwing part_002))
     <> Fulfilled (VString "no token in here").
Proof. repeat split. discriminate. Qed.

(** ** Falsy results (C9) *)

Lemma string_never_blank (s : string) : never_blank (VString s).
Proof.
  unfold never_blank. simpl. destruct (String.eqb s EmptyString) eqn:E.
  - right. apply String.eqb_eq in E. now subst.
  - now left.
Qed.

Section NeverBlank.

Variable self : jsvalue -> M jsvalue.
Hypothesis self_never_blank :
  forall key st v st', self key st = (Fulfilled v, st') -> never_blank v.

Lemma resolve_keys_never_blank (ks : list string) (st st' : AsyncHelpers)
  (res : list (string * jsvalue)) :
  resolve_keys self ks st = (Fulfilled res, st') ->
  forall i v, In (i, v) res -> never_blank v.
Proof.
  revert st st' res. induction ks as [|k ks IH]; intros st st' res; simpl.
  - intros [= <- _] i v [].
  - unfold resolve_keys in *. simpl. intros H.
    apply bind_fulfilled in H. destruct H as (kv & st1 & H1 & H).
    apply bind_fulfilled in H1. destruct H1 as (v & st0 & Hv & H1).
    injection H1 as <- <-.
    apply bind_fulfilled in H. destruct H as (rest & st2 & H2 & H).
    injection H as <- _. intros i v' [[= <- <-]|Hin].
    + exact (self_never_blank _ _ _ _ Hv).
    + exact (IH _ _ _ H2 i v' Hin).
Qed.

Lemma reduce_step_never_blank (acc : jsvalue) (i : string) (v : jsvalue)
  (st st' : AsyncHelpers) (a : jsvalue) :
  never_blank v ->
  reduce_step acc (i, v) st = (Fulfilled a, st') -> never_blank a.
Proof.
  intros Hv. unfold reduce_step.
  destruct (strict_equals_string acc i); [now intros [= <- _]|].
  destruct acc; try discriminate;
    destruct (plain i); try discriminate.
  destruct (ToString v); [|discriminate].
  intros [= <- _]. apply string_never_blank.
Qed.

Lemma reduce_never_blank (res : list (string * jsvalue)) (acc : jsvalue)
  (st st' : AsyncHelpers) (a : jsvalue) :
  (forall i v, In (i, v) res -> never_blank v) ->
  never_blank acc ->
  foldM reduce_step res acc st = (Fulfilled a, st') -> never_blank a.
Proof.
  revert acc st. induction res as [|[i v] res IH]; intros acc st Hres Hacc; simpl.
  - now intros [= <- _].
  - intros H. apply bind_fulfilled in H. destruct H as (acc' & st1 & H1 & H).
    apply (IH acc' st1); [intros i' v' Hin; apply (Hres i' v'); now right | | exact H].
    apply (reduce_step_never_blank _ _ _ _ _ _ (Hres i v (or_introl eq_refl)) H1).
Qed.

Lemma resolveId_body_never_blank (key : jsvalue) (st st' : AsyncHelpers)
  (v : jsvalue) :
  resolveId_body part_002 self key st = (Fulfilled v, st') -> never_blank v.
Proof.
  unfold resolveId_body. intros H.
  apply bind_fulfilled in H. destruct H as (k & st0 & _ & H).
  apply bind_fulfilled in H. destruct H as (ids & st1 & _ & H).
  destruct (assoc k ids) as [r|].
  2:{ destruct (inherited k); [|discriminate].
      unfold resolve_member, bind, gets in H.
      destruct (assoc "undefined" (helperIds st1)) as [at_id|];
        [destruct (value at_id)|]; discriminate. }
  destruct (assoc (id r) ids) as [at_id|]; [|discriminate].
  destruct (memoized part_002 at_id r) eqn:Hm.
  - injection H as <- _. unfold memoized in Hm.
    destruct (value at_id); [|discriminate].
    destruct (value_or_undefined r); try discriminate.
    apply string_never_blank.
  - apply bind_fulfilled in H. destruct H as (u & st2 & _ & H).
    apply bind_fulfilled in H. destruct H as (ids' & st3 & _ & H).
    destruct (assoc (id r) ids') as [r'|]; [|discriminate].
    unfold deliver in H.
    destruct (truthy (value_or_undefined r')) eqn:Ht; simpl in H.
    + unfold expand in H.
      apply bind_fulfilled in H. destruct H as (b & st4 & _ & H).
      destruct b.
      * unfold resolveIds_body in H.
        apply bind_fulfilled in H. destruct H as (ids'' & st5 & _ & H).
        apply bind_fulfilled in H. destruct H as (res & st6 & Hres & H).
        apply (reduce_never_blank _ _ _ _ _
                 (resolve_keys_never_blank _ _ _ _ Hres)) in H; [exact H|].
        now left.
      * injection H as <- _. now left.
    + injection H as <- _. now right.
Qed.

End NeverBlank.

Lemma resolveId_never_blank (fuel : nat) (key : jsvalue)
  (st st' : AsyncHelpers) (v : jsvalue) :
  resolveId part_002 fuel key st = (Fulfilled v, st') -> never_blank v.
Proof.
  revert key st st' v. induction fuel as [|n IH]; intros key st st' v; simpl.
  - discriminate.
  - apply resolveId_body_never_blank. intros k s w s'. apply IH.
Qed.

Lemma hasAsyncId_falsy (val : jsvalue) (st : AsyncHelpers) :
  plain (prefix st) = true -> truthy val = false ->
  hasAsyncId val st = (Fulfilled false, st).
Proof.
  intros Hp Ht. unfold hasAsyncId, bind, gets. rewrite Hp.
  destruct val; try reflexivity. now rewrite Ht.
Qed.




(** ** The wrapped helper (C1) *)

(** C1, amended.  In a state reached by calls of the class's methods, each
    followed to its end, let
    [w] be the wrapped helper stored under [nm].  Its call with any
    receiver and any arguments is a total function of the state that
    returns the string [<prefix>@<nm>@<counter + 1>@@@]; the token starts
    with the configured prefix, was returned by no earlier call of a wrapped
    helper on the instance, and keys a new record holding the arguments,
    the receiver (or an empty object for a falsy one) and the normalized
    implementation.  Resolving the token yields what the implementation
    returns for the arguments, [v], in [part_004]; in [part_002] it yields
    [v] when [v] is truthy and the empty string when [v] is falsy.  This
    holds when the prefix has no regular expression syntax character, when
    [hasAsyncId] is false of [v], and when every argument is [literal]:
    it converts to a property key that is neither a stored identifier nor
    a member name of [Object.prototype]; if it takes the [hash] branch its
    [hash] is an object or an array (not [null], which passes the test of
    [part_002]) on whose values [hasAsyncId] is false; and if it is an
    array, [hasAsyncId] is false of its elements. *)
Theorem wrapped_call_issues_fresh_token :
  forall (src : source) (options_prefix : option string)
         (ops : list operation) (nm : string) (w : WrappedHelper)
         (this : jsvalue) (arguments : list jsvalue),
    modelled src options_prefix ops = true ->
    assoc nm (wrappedHelpers (reached src options_prefix ops)) = Some w ->
    let st := reached src options_prefix ops in
    let tok := fst (wrappedHelper w this arguments st) in
    let st' := snd (wrappedHelper w this arguments st) in
    let receiver := if truthy this then this else emptyObject in
    tok = make_id (prefix (constructor options_prefix)) nm (S (counter st))
    /\ String.prefix (prefix (constructor options_prefix)) tok = true
    /\ ~ In tok (issued src options_prefix ops)
    /\ assoc tok (helperIds st')
       = Some {| id := tok; name := nm; args := arguments; fn := wrappedFn w;
                 ctx := receiver; count := S (counter st); value := None |}
    /\ (forall (fuel : nat) (v : jsvalue),
          plain (prefix st') = true ->
          forallb (literal src (prefix st') (helperIds st')) arguments = true ->
          body (target (wrappedFn w)) receiver arguments = Returns v ->
          token_free (prefix st') v = true ->
          fst (resolveId src (S fuel) (VString tok) st')
          = Fulfilled (delivered src v)).
Proof.
  intros src options_prefix ops nm w this arguments _ Hw st tok st' receiver.
  destruct (execute_spec src ops _ (invariant_constructor options_prefix))
    as ((B & I & R) & P & _ & T & _).
  fold (reached src options_prefix ops) in B, I, R, P, T.
  fold (issued src options_prefix ops) in T.
  fold st in B, I, R, P, T, Hw.
  destruct (R nm w Hw) as [_ Hn].
  assert (Etok : tok = make_id (prefix (constructor options_prefix)) nm
                         (S (counter st))).
  { unfold tok. simpl. now rewrite Hn, P. }
  assert (Erec : assoc tok (helperIds st')
                 = Some {| id := tok; name := nm; args := arguments;
                           fn := wrappedFn w; ctx := receiver;
                           count := S (counter st); value := None |}).
  { unfold st', tok, receiver. simpl. rewrite assoc_set_eq. now rewrite Hn. }
  split; [exact Etok|]. split; [rewrite Etok; apply make_id_prefix|].
  split.
  { intros Hin. destruct (T tok Hin) as [Hkey _].
    exact (wrappedHelper_fresh w this arguments st B Hkey). }
  split; [exact Erec|].
  intros fuel v Hp Hl Hb Hv.
  rewrite (resolveId_unmemoized src fuel (VString tok) tok _ st' st' arguments v
             eq_refl Erec eq_refl eq_refl
             (resolve_args_literal src _ arguments st' Hp Hl) Hb).
  now rewrite deliver_token_free.
Qed.

Lemma wrapped_call_issues_fresh_token_witness :
  fst (wrappedHelper upper_wrapped VUndefined [VString "doowb"] upper_registered)
  = make_id defaultPrefix "upper" 1
  /\ String.prefix defaultPrefix
       (fst (wrappedHelper upper_wrapped VUndefined [VString "doowb"]
               upper_registered)) = true
  /\ ~ In (fst (wrappedHelper upper_wrapped VUndefined [VString "doowb"]
                  upper_registered))
          (issued part_002 None wrap_upper)
  /\ assoc (first_token "upper") (helperIds (upper_called part_002))
     = Some {| id := first_token "upper"; name := "upper";
               args := [VString "doowb"]; fn := normalize upper;
               ctx := emptyObject; count := 1; value := None |}
  /\ fst (resolveId part_002 1 (VString (first_token "upper"))
            (upper_called part_002))
     = Fulfilled (VString "DOOWB").
Proof.
  destruct (wrapped_call_issues_fresh_token part_002 None wrap_upper "upper"
              upper_wrapped VUndefined [VString "doowb"] eq_refl eq_refl)
    as (T & P & F & R & V).
  split; [exact T|]. split; [exact P|]. split; [exact F|]. split; [exact R|].
  apply (V 0 (VString "DOOWB")); reflexivity.
Defined.

(** The scenario of the specification: [upper] and [lower] wrapped, each
    called with ["doowb"], and the string built from the two tokens
    resolved. *)
Example upper_and_lower :
  forall src : source,
    fst (resolveIds src 2
           (VString (first_token "upper" ++ " + "
                     ++ make_id defaultPrefix "lower" 2))
           (call_wrapped "lower" [VString "doowb"]
              (call_wrapped "upper" [VString "doowb"]
                 (register src "lower" lower
                    (register src "upper" upper (constructor None))))))
    = Fulfilled (VString "DOOWB + doowb").
Proof. intros []; reflexivity. Qed.

(** An argument that names a member of [Object.prototype] is not literal:
    [this.helperIds["constructor"]] finds the inherited function, and the
    resolution of [upper("constructor")] is rejected. *)
Example argument_naming_a_prototype_member :
  forall src : source,
    literal src defaultPrefix
      (helperIds (once src "upper" upper [VString "constructor"]))
      (VString "constructor") = false
    /\ fst (resolveId src 2 (VString (first_token "upper"))
              (once src "upper" upper [VString "constructor"]))
       = Rejected (JsError (failed "upper" (first_token "upper") ++ ": "
                            ++ message (cannot_resolve "undefined"))).
Proof. intros []; split; reflexivity. Qed.

(** C1 as stated fails in [part_002]: the helper [() => {}] returns
    [undefined] and resolving the token of its call yields the empty
    string; so does [size([])], which is [0]. *)
Lemma falsy_result_is_not_what_the_helper_returned :
  body (always VUndefined) emptyObject [] = Returns VUndefined
  /\ fst (resolveId part_002 1 (VString (first_token "noop"))
            (once part_002 "noop" (always VUndefined) []))
     = Fulfilled (VString EmptyString)
  /\ fst (resolveId part_002 1 (VString (first_token "noop"))
            (once part_002 "noop" (always VUndefined) []))
     <> Fulfilled VUndefined
  /\ body size emptyObject [VArray []] = Returns (VNumber 0)
  /\ fst (resolveId part_002 1 (VString (first_token "size"))
            (once part_002 "size" size [VArray []]))
     = Fulfilled (VString EmptyString).
Proof. repeat split. discriminate. Qed.

(** ** Array arguments (C2) *)

(** C2 at the failing input.  [upper("doowb")] gives a token, and [echo] is
    called with the one-element array holding that token.  The lookup
    [this.helperIds[arg]] converts the array to its property key, which is
    the token itself, so [echo] receives the resolved string and not an
    array of length one.  With a second element the array is resolved
    element by element. *)
Theorem singleton_array_argument_collapses :
  forall src : source,
    fst (resolveId src 3 (VString (make_id defaultPrefix "echo" 2))
           (call_wrapped "echo" [VArray [VString (first_token "upper")]]
              (register src "echo" echo
                 (once src "upper" upper [VString "doowb"]))))
    = Fulfilled (VString "DOOWB")
    /\ fst (resolveId src 3 (VString (make_id defaultPrefix "echo" 2))
              (call_wrapped "echo"
                 [VArray [VString (first_token "upper"); VString "x"]]
                 (register src "echo" echo
                    (once src "upper" upper [VString "doowb"]))))
       = Fulfilled (VArray [VString "DOOWB"; VString "x"]).
Proof. intros []; split; reflexivity. Qed.

(** The nested call of the specification: [lower(upper("DooWB"))]. *)
Example nested_call :
  forall src : source,
    fst (resolveId src 3 (VString (make_id defaultPrefix "lower" 2))
           (call_wrapped "lower" [VString (first_token "upper")]
              (register src "lower" lower
                 (once src "upper" upper [VString "DooWB"]))))
    = Fulfilled (VString "doowb").
Proof. intros []; reflexivity. Qed.

(** ** Substitution into the rendered string (C3) *)

(** C3 at the failing input.  The helper returns the text [$$x$$]; in the
    rendered string the token is replaced by [$x$], because
    [String.prototype.replace] reads [$$] in the replacement as one [$]. *)
Theorem dollar_signs_are_lost :
  forall src : source,
    fst (resolveId src 2 (VString (first_token "math"))
           (once src "math" (always (VString "$$x$$")) []))
    = Fulfilled (VString "$$x$$")
    /\ fst (resolveIds src 2
              (VString ("formula: " ++ first_token "math"))
              (once src "math" (always (VString "$$x$$")) []))
       = Fulfilled (VString "formula: $x$").
Proof. intros []; split; reflexivity. Qed.

(** The example of the specification, ["a <T1> b <T1> c <T2>"]. *)
Example repeated_tokens :
  forall src : source,
    fst (resolveIds src 2
           (VString ("a " ++ first_token "x" ++ " b " ++ first_token "x"
                     ++ " c " ++ make_id defaultPrefix "y" 2))
           (call_wrapped "y" []
              (register src "y" (always (VString "Y"))
                 (once src "x" (always (VString "X")) []))))
    = Fulfilled (VString "a X b X c Y").
Proof. intros []; reflexivity. Qed.

(** ** A string that is exactly one token (C7) *)

(** C7 at the failing input.  While the token of the array-valued helper is
    the only one stored, [resolveIds] of that token returns the array.  Once
    a second wrapped helper has been called, the reduction goes on after the
    array has replaced the string, calls [replace] on the array, and
    [resolveIds] of the same token is rejected with a [TypeError]. *)
Theorem native_value_is_lost_when_more_tokens_follow :
  forall src : source,
    fst (resolveIds src 2 (VString (first_token "list"))
           (once src "list" (always (VArray [VString "a"; VString "b"])) []))
    = Fulfilled (VArray [VString "a"; VString "b"])
    /\ fst (resolveIds src 2 (VString (first_token "list"))
              (call_wrapped "upper" [VString "doowb"]
                 (register src "upper" upper
                    (once src "list"
                       (always (VArray [VString "a"; VString "b"])) []))))
       = Rejected (JsTypeError "acc.replace is not a function").
Proof. intros []; split; reflexivity. Qed.

(** ** What holds of nested tokens and of arrays in general *)

(** An argument that is a stored token is resolved like the token. *)
Lemma token_argument_is_resolved (src : source) (self : jsvalue -> M jsvalue)
  (t : string) (item : Token) (st : AsyncHelpers) :
  assoc t (helperIds st) = Some item ->
  resolve_arg src self (VString t) st = self (VString (id item)) st.
Proof.
  intros H. unfold resolve_arg, ToPropertyKey. simpl.
  unfold bind at 1, ret at 1. unfold bind at 1, gets at 1. now rewrite H.
Qed.

Lemma mapM_length {A B : Type} (f : A -> M B) (l : list A) (l' : list B)
  (st st' : AsyncHelpers) :
  mapM f l st = (Fulfilled l', st') -> List.length l' = List.length l.
Proof.
  revert l' st st'. induction l as [|a l IH]; intros l' st st'; simpl.
  - now intros [= <- _].
  - intros H. apply bind_fulfilled in H. destruct H as (b & st1 & _ & H).
    apply bind_fulfilled in H. destruct H as (bs & st2 & H2 & H).
    injection H as <- _. simpl. f_equal. exact (IH _ _ _ H2).
Qed.

(** An array argument whose property key is neither a stored identifier nor
    a member of [Object.prototype] is resolved to an array of the same
    length. *)
Lemma array_argument_keeps_length (src : source) (self : jsvalue -> M jsvalue)
  (elements : list jsvalue) (k : string) (st st' : AsyncHelpers) (v : jsvalue) :
  ToString (VArray elements) = Some k ->
  assoc k (helperIds st) = None ->
  inherited k = false ->
  resolve_arg src self (VArray elements) st = (Fulfilled v, st') ->
  exists elements',
    v = VArray elements' /\ List.length elements' = List.length elements.
Proof.
  intros Hk Hnone Hin. unfold resolve_arg, ToPropertyKey. rewrite Hk.
  unfold bind at 1, ret at 1. unfold bind at 1, gets at 1. rewrite Hnone, Hin.
  assert (Hb : takes_hash_branch src (VArray elements) = false)
    by now destruct src.
  rewrite Hb. intros H.
  apply bind_fulfilled in H. destruct H as (res & st1 & Hm & H).
  injection H as <- _. exists res. split; [reflexivity|].
  exact (mapM_length _ _ _ _ _ Hm).
Qed.

(** X1.  The nested call in general, for a prefix without regular
    expression syntax characters.  Let [inner] have been called with
    arguments that resolution leaves as they are ([literal]), and [outer]
    with the identifier of that call as its only argument; each record is
    stored under its own identifier, neither has a [value] yet, and the
    results of both implementations are values on which [hasAsyncId] is
    false.  [resolveId] of the identifier of
    [outer] first resolves the call of [inner], applies the implementation
    of [outer] to what that resolution delivers, and delivers the result:
    the result itself in [part_004], and in [part_002] the result when it
    is truthy and the empty string when it is falsy. *)
Lemma nested_token_is_substituted (src : source) (fuel : nat)
  (st : AsyncHelpers) (ti t : string) (ri r : Token) (vi v : jsvalue) :
  plain (prefix st) = true ->
  assoc ti (helperIds st) = Some ri -> id ri = ti -> value ri = None ->
  forallb (literal src (prefix st) (helperIds st)) (args ri) = true ->
  settle (fn ri) (ctx ri) (args ri) = Returns vi ->
  token_free (prefix st) vi = true ->
  assoc t (helperIds st) = Some r -> id r = t -> value r = None ->
  args r = [VString ti] ->
  settle (fn r) (ctx r) [delivered src vi] = Returns v ->
  token_free (prefix st) v = true ->
  fst (resolveId src (S (S fuel)) (VString t) st) = Fulfilled (delivered src v).
Proof.
  intros Hp Hri Hidi Hvi Hli Hsi Hti Hr Hid Hv Hargs Hs Ht.
  assert (Hmi : memoized src ri ri = false) by (unfold memoized; now rewrite Hvi).
  assert (Hm : memoized src r r = false) by (unfold memoized; now rewrite Hv).
  set (st1 := set_helperIds (store_value ti vi)
                (record_call {| call_id := ti; call_name := name ri;
                                call_args := args ri;
                                call_completion := Returns vi |} st)).
  assert (Einner : resolveId src (S fuel) (VString ti) st
                   = (Fulfilled (delivered src vi), st1)).
  { rewrite (resolveId_unmemoized src fuel (VString ti) ti ri st st (args ri) vi
               eq_refl Hri Hidi Hmi
               (resolve_args_literal src _ (args ri) st Hp Hli) Hsi).
    now apply deliver_token_free. }
  assert (Eargs : mapM (resolve_arg src (resolveId src (S fuel))) (args r) st
                  = (Fulfilled [delivered src vi], st1)).
  { rewrite Hargs. cbn [mapM]. unfold bind at 1.
    rewrite (token_argument_is_resolved src _ ti ri st Hri), Hidi, Einner.
    reflexivity. }
  rewrite (resolveId_unmemoized src (S fuel) (VString t) t r st st1
             [delivered src vi] v eq_refl Hr Hid Hm Eargs Hs).
  now rewrite deliver_token_free.
Qed.

(** ** The native value of the most recent token *)

Lemma foldM_app {A B : Type} (f : B -> A -> M B) (l1 l2 : list A) (b : B)
  (st : AsyncHelpers) :
  foldM f (l1 ++ l2)%list b st = bind (foldM f l1 b) (foldM f l2) st.
Proof.
  revert b st. induction l1 as [|a l1 IH]; intros b st; [reflexivity|].
  simpl. unfold bind. destruct (f b a st) as [[b'|e| |] st1]; try reflexivity.
  apply IH.
Qed.

Lemma split_last_entry (res : list (string * jsvalue)) (earlier : list string)
  (t : string) :
  map fst res = (earlier ++ [t])%list ->
  exists res1 v, res = (res1 ++ [(t, v)])%list /\ map fst res1 = earlier.
Proof.
  revert res. induction earlier as [|i earlier IH]; intros res Hfst.
  - destruct res as [|[k v] [|? ?]]; try discriminate.
    injection Hfst as ->. now exists [], v.
  - destruct res as [|[k v] res]; [discriminate|].
    injection Hfst as -> Hfst.
    destruct (IH res Hfst) as (res1 & w & -> & Hm).
    exists ((i, v) :: res1), w. split; [reflexivity|]. simpl. now rewrite Hm.
Qed.

(** X2.  When the string is exactly the identifier created last, and no
    earlier identifier occurs in it, [resolveIds] returns the resolved value
    of that identifier as it is, whatever its type: an array stays an
    array. *)
Lemma last_token_resolves_to_native_value (src : source) (fuel : nat)
  (t : string) (earlier : list string) (st st' : AsyncHelpers)
  (res : list (string * jsvalue)) :
  keys (helperIds st) = (earlier ++ [t])%list ->
  (forall i, In i earlier -> plain i = true /\ occurs i t = false) ->
  resolve_keys (resolveId src fuel) (keys (helperIds st)) st
  = (Fulfilled res, st') ->
  (forall i v, In (i, v) res -> ToString v <> None) ->
  exists v,
    In (t, v) res
    /\ resolveIds src fuel (VString t) st = (Fulfilled v, st').
Proof.
  intros Hkeys Hearlier Hres Hv.
  pose proof (resolve_keys_fst _ _ _ _ _ Hres) as Hfst. rewrite Hkeys in Hfst.
  destruct (split_last_entry res earlier t Hfst) as (res1 & v & -> & Hm).
  exists v. split; [apply in_or_app; right; now left|].
  unfold resolveIds, resolveIds_body, bind at 1, gets at 1.
  unfold bind at 1. rewrite Hres. rewrite foldM_app. unfold bind.
  rewrite reduce_without_occurrence.
  - simpl. unfold bind, reduce_step. simpl. now rewrite String.eqb_refl.
  - intros i w Hin.
    assert (Hi : In i earlier).
    { rewrite <- Hm. change i with (fst (i, w)). now apply in_map. }
    destruct (Hearlier i Hi) as [Hp Ho]. repeat split; try assumption.
    apply (Hv i w). apply in_or_app. now left.
Qed.

Lemma nested_token_is_substituted_witness :
  fst (resolveId part_004 2 (VString (make_id defaultPrefix "lower" 2))
         (lower_of_upper part_004))
  = Fulfilled (delivered part_004 (VString "doowb")).
Proof.
  apply (nested_token_is_substituted part_004 0 (lower_of_upper part_004)
           (first_token "upper") (make_id defaultPrefix "lower" 2)
           {| id := first_token "upper"; name := "upper";
              args := [VString "DooWB"]; fn := normalize upper;
              ctx := emptyObject; count := 1; value := None |}
           {| id := make_id defaultPrefix "lower" 2; name := "lower";
              args := [VString (first_token "upper")]; fn := normalize lower;
              ctx := emptyObject; count := 2; value := None |}
           (VString "DOOWB") (VString "doowb"));
    reflexivity.
Defined.

Lemma last_token_resolves_to_native_value_witness :
  exists v,
    In (make_id defaultPrefix "list" 2, v)
      [(first_token "upper", VString "DOOWB");
       (make_id defaultPrefix "list" 2, VArray [VString "a"; VString "b"])]
    /\ resolveIds part_002 2 (VString (make_id defaultPrefix "list" 2))
         (upper_then_list part_002)
       = (Fulfilled v,
          after (resolveIds part_002 2 (VString "x")) (upper_then_list part_002)).
Proof.
  apply (last_token_resolves_to_native_value part_002 2
           (make_id defaultPrefix "list" 2) [first_token "upper"]
           (upper_then_list part_002)
           (after (resolveIds part_002 2 (VString "x")) (upper_then_list part_002))
           [(first_token "upper", VString "DOOWB");
            (make_id defaultPrefix "list" 2, VArray [VString "a"; VString "b"])]).
  - reflexivity.
  - intros i [<-|[]]. split; reflexivity.
  - reflexivity.
  - intros i v [[= <- <-]|[[= <- <-]|[]]]; discriminate.
Defined.

(** * Further properties of the class *)

(** ** The registry of raw helpers *)

Lemma helper_lookup (nm : string) (st : AsyncHelpers) (o : option Helper) :
  nm <> EmptyString ->
  assoc nm (rawHelpers st) = Some o ->
  fst (helper (Name nm) None st) = Fulfilled (Raw o).
Proof.
  intros Hnm H. destruct nm as [|c nm]; [now elim Hnm|].
  unfold helper, helper_named, bind, gets. simpl fst. now rewrite H.
Qed.

Lemma helper_lookup_same (nm : string) (st st' : AsyncHelpers) :
  nm <> EmptyString ->
  assoc nm (rawHelpers st') = assoc nm (rawHelpers st) ->
  fst (helper (Name nm) None st') = fst (helper (Name nm) None st).
Proof.
  intros Hnm H. destruct nm as [|c nm]; [now elim Hnm|].
  unfold helper, helper_named, bind, gets. simpl. rewrite H.
  destruct (assoc (String c nm) (rawHelpers st)); [reflexivity|].
  now destruct (inherited (String c nm)).
Qed.

Lemma helper_define (nm : string) (f : Helper) (st : AsyncHelpers) :
  nm <> EmptyString ->
  helper (Name nm) (Some f) st
  = (Fulfilled This, set_rawHelpers (assoc_set nm (Some f)) st).
Proof. intros Hnm. destruct nm as [|c nm]; [now elim Hnm | reflexivity]. Qed.

(** X3.  [helper(name, fn)] with a non-empty name and a function returns the
    instance and stores the function: [helper(name)] afterwards returns
    [fn].  What [helper] returns for any other non-empty name is as before,
    and the wrapped helpers, the records and the counter are untouched.
    (The name [__proto__] is left out: an assignment to it sets the
    prototype of [rawHelpers].) *)
Theorem helper_defines_and_returns :
  forall (nm : string) (f : Helper) (st : AsyncHelpers),
    nm <> EmptyString ->
    nm <> "__proto__" ->
    let st' := after (helper (Name nm) (Some f)) st in
    fst (helper (Name nm) (Some f) st) = Fulfilled This
    /\ fst (helper (Name nm) None st') = Fulfilled (Raw (Some f))
    /\ (forall nm', nm' <> EmptyString -> nm' <> nm ->
          fst (helper (Name nm') None st') = fst (helper (Name nm') None st))
    /\ wrappedHelpers st' = wrappedHelpers st
    /\ helperIds st' = helperIds st
    /\ counter st' = counter st.
Proof.
  intros nm f st Hnm _ st'. unfold st', after.
  rewrite (helper_define nm f st Hnm). simpl fst. simpl snd.
  split; [reflexivity|]. split.
  - apply helper_lookup; [exact Hnm|]. simpl. apply assoc_set_eq.
  - split; [|now repeat split].
    intros nm' Hnm' Hne. apply helper_lookup_same; [exact Hnm'|].
    simpl. now apply assoc_set_neq.
Qed.

Lemma helper_defines_and_returns_witness :
  fst (helper (Name "upper") (Some upper) (constructor None)) = Fulfilled This
  /\ fst (helper (Name "upper") None
            (after (helper (Name "upper") (Some upper)) (constructor None)))
     = Fulfilled (Raw (Some upper))
  /\ (forall nm', nm' <> EmptyString -> nm' <> "upper" ->
        fst (helper (Name nm') None
               (after (helper (Name "upper") (Some upper)) (constructor None)))
        = fst (helper (Name nm') None (constructor None)))
  /\ wrappedHelpers (after (helper (Name "upper") (Some upper)) (constructor None))
     = wrappedHelpers (constructor None)
  /\ helperIds (after (helper (Name "upper") (Some upper)) (constructor None))
     = helperIds (constructor None)
  /\ counter (after (helper (Name "upper") (Some upper)) (constructor None))
     = counter (constructor None).
Proof.
  apply (helper_defines_and_returns "upper" upper (constructor None));
    discriminate.
Defined.

Lemma helper_object_loop (m : list (string * Helper)) (st : AsyncHelpers) :
  exists st',
    forEach (fun kv : string * option Helper =>
               helper_named (fst kv) (snd kv) ;;; ret tt)
      (map (fun kv => (fst kv, Some (snd kv))) m) st
    = (Fulfilled tt, st')
    /\ wrappedHelpers st' = wrappedHelpers st
    /\ helperIds st' = helperIds st
    /\ counter st' = counter st
    /\ (forall k, ~ In k (map fst m) ->
          assoc k (rawHelpers st') = assoc k (rawHelpers st))
    /\ (NoDup (map fst m) ->
        forall k h, In (k, h) m -> k <> EmptyString ->
          assoc k (rawHelpers st') = Some (Some h)).
Proof.
  revert st. induction m as [|[k h] m IH]; intros st.
  - exists st. simpl. repeat split; try reflexivity. intros _ k h [].
  - simpl map. cbn [forEach].
    assert (Step : exists st1,
              (helper_named k (Some h) ;;; ret tt) st = (Fulfilled tt, st1)
              /\ wrappedHelpers st1 = wrappedHelpers st
              /\ helperIds st1 = helperIds st
              /\ counter st1 = counter st
              /\ (forall k', k' <> k ->
                    assoc k' (rawHelpers st1) = assoc k' (rawHelpers st))
              /\ (k <> EmptyString ->
                  assoc k (rawHelpers st1) = Some (Some h))).
    { destruct k as [|c k].
      - exists st. repeat split; try reflexivity. intros N. now elim N.
      - exists (set_rawHelpers (assoc_set (String c k) (Some h)) st).
        repeat split; try reflexivity.
        + intros k' Hk'. simpl. now apply assoc_set_neq.
        + intros _. simpl. apply assoc_set_eq. }
    destruct Step as (st1 & E1 & W1 & I1 & C1 & O1 & S1).
    destruct (IH st1) as (st' & E & W & I & C & O & S).
    exists st'. unfold bind at 1. cbn [fst snd] in *. rewrite E1.
    split; [exact E|]. split; [congruence|]. split; [congruence|].
    split; [congruence|]. split.
    + intros k' Hk'. simpl in Hk'. rewrite O by tauto. apply O1.
      intros ->. tauto.
    + intros N k' h' [[= <- <-]|Hin] Hk'.
      * inversion N as [|? ? Hn _]. subst. rewrite O by exact Hn. now apply S1.
      * inversion N as [|? ? _ N']. subst. now apply (S N' k' h').
Qed.

(** X4.  [helper(object)] with an object of functions defines each of them
    under its key and returns the instance: [helper(key)] afterwards returns
    the function of that key, and what [helper] returns for a non-empty
    name that is not a key is as before.  An empty key defines nothing. *)
Theorem helper_defines_every_entry :
  forall (m : list (string * Helper)) (st : AsyncHelpers),
    NoDup (map fst m) ->
    ~ In "__proto__" (map fst m) ->
    let st' := after (helper (helpers_object m) None) st in
    fst (helper (helpers_object m) None st) = Fulfilled This
    /\ (forall k h, In (k, h) m -> k <> EmptyString ->
          fst (helper (Name k) None st') = Fulfilled (Raw (Some h)))
    /\ (forall k, k <> EmptyString -> ~ In k (map fst m) ->
          fst (helper (Name k) None st') = fst (helper (Name k) None st))
    /\ wrappedHelpers st' = wrappedHelpers st
    /\ helperIds st' = helperIds st
    /\ counter st' = counter st.
Proof.
  intros m st N _ st'.
  destruct (helper_object_loop m st) as (s & E & W & I & C & O & S).
  assert (Run : helper (helpers_object m) None st = (Fulfilled This, s)).
  { unfold helper, helpers_object, bind at 1. now rewrite E. }
  unfold st', after. rewrite Run. simpl fst. simpl snd.
  split; [reflexivity|]. split.
  - intros k h Hin Hk. apply helper_lookup; [exact Hk|]. now apply (S N k h).
  - split; [|now repeat split].
    intros k Hk Hn. apply helper_lookup_same; [exact Hk|]. now apply O.
Qed.

Lemma helper_defines_every_entry_witness :
  fst (helper (helpers_object [("upper", upper); ("lower", lower)]) None
         (constructor None)) = Fulfilled This
  /\ (forall k h, In (k, h) [("upper", upper); ("lower", lower)] ->
        k <> EmptyString ->
        fst (helper (Name k) None
               (after (helper (helpers_object [("upper", upper); ("lower", lower)])
                         None) (constructor None)))
        = Fulfilled (Raw (Some h)))
  /\ (forall k, k <> EmptyString ->
        ~ In k (map fst [("upper", upper); ("lower", lower)]) ->
        fst (helper (Name k) None
               (after (helper (helpers_object [("upper", upper); ("lower", lower)])
                         None) (constructor None)))
        = fst (helper (Name k) None (constructor None)))
  /\ wrappedHelpers
       (after (helper (helpers_object [("upper", upper); ("lower", lower)]) None)
          (constructor None)) = wrappedHelpers (constructor None)
  /\ helperIds
       (after (helper (helpers_object [("upper", upper); ("lower", lower)]) None)
          (constructor None)) = helperIds (constructor None)
  /\ counter
       (after (helper (helpers_object [("upper", upper); ("lower", lower)]) None)
          (constructor None)) = counter (constructor None).
Proof.
  apply (helper_defines_every_entry [("upper", upper); ("lower", lower)]
           (constructor None)).
  - repeat constructor; simpl; intuition discriminate.
  - simpl. intuition discriminate.
Defined.

(** ** Wrapping registered helpers *)

Lemma set_rawHelpers_same (nm : string) (o : option Helper) (st : AsyncHelpers) :
  assoc nm (rawHelpers st) = Some o ->
  set_rawHelpers (assoc_set nm o) st = st.
Proof.
  intros H. unfold set_rawHelpers. rewrite (assoc_set_same _ _ _ H).
  now destruct st.
Qed.

Lemma raw_lookup_some (nm : string) (st : AsyncHelpers) (h : Helper) :
  raw_lookup nm st = Some h -> assoc nm (rawHelpers st) = Some (Some h).
Proof.
  unfold raw_lookup. destruct (assoc nm (rawHelpers st)) as [[x|]|];
    congruence.
Qed.

Lemma wrap_named_registered (src : source) (nm : string) (h : Helper)
  (supplied : option Helper) (st : AsyncHelpers) :
  inherited nm = false ->
  raw_lookup nm st = Some h ->
  assoc nm (wrappedHelpers st) = None ->
  src = part_002 \/ wrapped_prop h = false ->
  wrap_named src nm supplied st
  = (Fulfilled (TheWrapped (wrapped_as nm h)),
     set_wrappedHelpers (assoc_set nm (wrapped_as nm h)) st).
Proof.
  intros Hin Hraw Hw Hsrc.
  unfold wrap_named, bind at 1, gets at 1. unfold bind at 1, gets at 1.
  rewrite Hw, Hraw, Hin. cbn [first_some].
  destruct src.
  - unfold bind, modify, install, ret.
    now rewrite (set_rawHelpers_same _ _ _ (raw_lookup_some _ _ _ Hraw)).
  - destruct Hsrc as [Hsrc|Hsrc]; [discriminate|]. now rewrite Hsrc.
Qed.

(** X5.  [wrapHelper(name, fn)] for a non-empty name that is no member name
    of [Object.prototype] and that already has a raw helper [f] and no
    wrapped one wraps [f], whatever [fn] is: the function it returns and
    stores in [wrappedHelpers] runs [f], and nothing else of the state
    changes, so [helper(name)] still returns [f].  In [part_004] this needs
    that the property [wrapped] of [f] is not truthy.  (Under a member name
    of [Object.prototype] the lookup [this.wrappedHelpers[name]] finds the
    inherited function.) *)
Theorem wrapHelper_prefers_registered_helper :
  forall (src : source) (nm : string) (f : Helper) (supplied : option Helper)
         (st : AsyncHelpers),
    nm <> EmptyString ->
    inherited nm = false ->
    raw_lookup nm st = Some f ->
    assoc nm (wrappedHelpers st) = None ->
    (src = part_002 \/ wrapped_prop f = false) ->
    wrapHelper src (Name nm) supplied st
    = (Fulfilled (TheWrapped {| helperName := nm; wrappedFn := normalize f |}),
       set_wrappedHelpers
         (assoc_set nm {| helperName := nm; wrappedFn := normalize f |}) st)
    /\ fst (helper (Name nm) None
              (after (wrapHelper src (Name nm) supplied) st))
       = Fulfilled (Raw (Some f)).
Proof.
  intros src nm f supplied st Hnm Hin Hraw Hw Hsrc.
  assert (E : wrapHelper src (Name nm) supplied st
              = (Fulfilled (TheWrapped (wrapped_as nm f)),
                 set_wrappedHelpers (assoc_set nm (wrapped_as nm f)) st)).
  { destruct nm as [|c nm]; [now elim Hnm|].
    exact (wrap_named_registered src _ f supplied st Hin Hraw Hw Hsrc). }
  split; [exact E|]. unfold after. rewrite E.
  apply helper_lookup; [exact Hnm|]. simpl. now apply raw_lookup_some.
Qed.

Lemma wrapHelper_prefers_registered_helper_witness :
  wrapHelper part_004 (Name "upper") (Some lower)
    (after (helper (Name "upper") (Some upper)) (constructor None))
  = (Fulfilled (TheWrapped {| helperName := "upper";
                              wrappedFn := normalize upper |}),
     set_wrappedHelpers
       (assoc_set "upper" {| helperName := "upper";
                             wrappedFn := normalize upper |})
       (after (helper (Name "upper") (Some upper)) (constructor None)))
  /\ fst (helper (Name "upper") None
            (after (wrapHelper part_004 (Name "upper") (Some lower))
               (after (helper (Name "upper") (Some upper)) (constructor None))))
     = Fulfilled (Raw (Some upper)).
Proof.
  apply (wrapHelper_prefers_registered_helper part_004 "upper" upper (Some lower)
           (after (helper (Name "upper") (Some upper)) (constructor None))).
  - discriminate.
  - reflexivity.
  - reflexivity.
  - reflexivity.
  - right. reflexivity.
Defined.

(** X6.  A helper that is defined again after it has been wrapped is not
    wrapped again: [helper(name, g)] replaces the raw helper, but
    [wrapHelper(name)] keeps returning the wrapped function made before,
    and a call under the name still runs the implementation that function
    was made from. *)
Theorem redefinition_does_not_rewrap :
  forall (src : source) (nm : string) (g : Helper) (supplied : option Helper)
         (w : WrappedHelper) (this : jsvalue) (arguments : list jsvalue)
         (st : AsyncHelpers),
    nm <> EmptyString ->
    nm <> "__proto__" ->
    assoc nm (wrappedHelpers st) = Some w ->
    let st' := after (helper (Name nm) (Some g)) st in
    fst (helper (Name nm) None st') = Fulfilled (Raw (Some g))
    /\ wrapHelper src (Name nm) supplied st' = (Fulfilled (TheWrapped w), st')
    /\ invoke nm this arguments st'
       = (Some (fst (wrappedHelper w this arguments st')),
          snd (wrappedHelper w this arguments st'))
    /\ (exists r,
          assoc (fst (wrappedHelper w this arguments st'))
            (helperIds (snd (wrappedHelper w this arguments st'))) = Some r
          /\ fn r = wrappedFn w).
Proof.
  intros src nm g supplied w this arguments st Hnm _ Hw st'.
  unfold st', after. rewrite (helper_define nm g st Hnm). simpl snd.
  set (s := set_rawHelpers (assoc_set nm (Some g)) st).
  assert (Hw' : assoc nm (wrappedHelpers s) = Some w) by exact Hw.
  split.
  { apply helper_lookup; [exact Hnm|]. simpl. apply assoc_set_eq. }
  split.
  { destruct nm as [|c nm]; [now elim Hnm|].
    unfold wrapHelper, wrapHelper_with, wrap_named, bind at 1, gets at 1.
    unfold bind at 1, gets at 1. rewrite Hw'. now destruct src. }
  split.
  { unfold invoke. now rewrite Hw'. }
  eexists. split; [simpl; apply assoc_set_eq | reflexivity].
Qed.

Lemma redefinition_does_not_rewrap_witness :
  fst (helper (Name "upper") None
         (after (helper (Name "upper") (Some lower)) upper_registered))
  = Fulfilled (Raw (Some lower))
  /\ wrapHelper part_002 (Name "upper") None
       (after (helper (Name "upper") (Some lower)) upper_registered)
     = (Fulfilled (TheWrapped upper_wrapped),
        after (helper (Name "upper") (Some lower)) upper_registered)
  /\ invoke "upper" VUndefined [VString "doowb"]
       (after (helper (Name "upper") (Some lower)) upper_registered)
     = (Some (fst (wrappedHelper upper_wrapped VUndefined [VString "doowb"]
                     (after (helper (Name "upper") (Some lower))
                        upper_registered))),
        snd (wrappedHelper upper_wrapped VUndefined [VString "doowb"]
               (after (helper (Name "upper") (Some lower)) upper_registered)))
  /\ (exists r,
        assoc (fst (wrappedHelper upper_wrapped VUndefined [VString "doowb"]
                      (after (helper (Name "upper") (Some lower))
                         upper_registered)))
          (helperIds
             (snd (wrappedHelper upper_wrapped VUndefined [VString "doowb"]
                     (after (helper (Name "upper") (Some lower))
                        upper_registered)))) = Some r
        /\ fn r = wrappedFn upper_wrapped).
Proof.
  apply (redefinition_does_not_rewrap part_002 "upper" lower None upper_wrapped
           VUndefined [VString "doowb"] upper_registered).
  - discriminate.
  - discriminate.
  - reflexivity.
Defined.

(** ** [wrapHelper()] without a name *)

(** What one step of the loop of [wrapHelper()] does to the state. *)
Lemma wrap_named_step (src : source) (nm : string) (o : option Helper)
  (st : AsyncHelpers) (h : Helper) :
  inherited nm = false ->
  raw_lookup nm st = Some h ->
  exists r st',
    wrap_named src nm o st = (Fulfilled r, st')
    /\ rawHelpers st' = rawHelpers st
    /\ helperIds st' = helperIds st
    /\ counter st' = counter st
    /\ (forall k w, assoc k (wrappedHelpers st) = Some w ->
          assoc k (wrappedHelpers st') = Some w)
    /\ (forall k, k <> nm ->
          assoc k (wrappedHelpers st') = assoc k (wrappedHelpers st))
    /\ (assoc nm (wrappedHelpers st) = None ->
        src = part_002 \/ wrapped_prop h = false ->
        assoc nm (wrappedHelpers st') = Some (wrapped_as nm h)).
Proof.
  intros Hin Hraw.
  destruct (assoc nm (wrappedHelpers st)) as [w|] eqn:Hw.
  - exists (TheWrapped w), st. split.
    + unfold wrap_named, bind at 1, gets at 1. unfold bind at 1, gets at 1.
      rewrite Hw. now destruct src.
    + repeat split; try reflexivity; try tauto. discriminate.
  - assert (Good : src = part_002 \/ wrapped_prop h = false
                   \/ (src = part_004 /\ wrapped_prop h = true)).
    { destruct src; [now left|]. destruct (wrapped_prop h); tauto. }
    destruct Good as [G|[G|[-> G]]].
    + exists (TheWrapped (wrapped_as nm h)),
        (set_wrappedHelpers (assoc_set nm (wrapped_as nm h)) st).
      split; [apply wrap_named_registered; tauto|].
      repeat split; try reflexivity.
      * intros k w Hk. simpl. rewrite assoc_set_neq; [exact Hk | congruence].
      * intros k Hk. simpl. now apply assoc_set_neq.
      * intros _ _. simpl. apply assoc_set_eq.
    + exists (TheWrapped (wrapped_as nm h)),
        (set_wrappedHelpers (assoc_set nm (wrapped_as nm h)) st).
      split; [apply wrap_named_registered; tauto|].
      repeat split; try reflexivity.
      * intros k w Hk. simpl. rewrite assoc_set_neq; [exact Hk | congruence].
      * intros k Hk. simpl. now apply assoc_set_neq.
      * intros _ _. simpl. apply assoc_set_eq.
    + exists (TheHelper h), st. split.
      * unfold wrap_named, bind at 1, gets at 1. unfold bind at 1, gets at 1.
        rewrite Hw, Hraw, Hin. cbn [first_some]. now rewrite G.
      * repeat split; try reflexivity; try tauto.
        intros _ [C|C]; congruence.
Qed.

Lemma wrap_each (src : source) (l : list (string * option Helper))
  (st : AsyncHelpers) :
  (forall k, In k (keys l) ->
     inherited k = false /\ raw_lookup k st <> None) ->
  exists st',
    forEach (fun kv : string * option Helper =>
               wrap_named src (fst kv) (snd kv) ;;; ret tt) l st
    = (Fulfilled tt, st')
    /\ rawHelpers st' = rawHelpers st
    /\ helperIds st' = helperIds st
    /\ counter st' = counter st
    /\ (forall k w, assoc k (wrappedHelpers st) = Some w ->
          assoc k (wrappedHelpers st') = Some w)
    /\ (forall k h, In k (keys l) -> raw_lookup k st = Some h ->
          assoc k (wrappedHelpers st) = None ->
          src = part_002 \/ wrapped_prop h = false ->
          assoc k (wrappedHelpers st') = Some (wrapped_as k h)).
Proof.
  revert st. induction l as [|[k o] l IH]; intros st H.
  - exists st. simpl. repeat split; try reflexivity; try tauto.
  - destruct (H k (or_introl eq_refl)) as [Hin Hraw].
    destruct (raw_lookup k st) as [h|] eqn:Eraw; [|now elim Hraw].
    destruct (wrap_named_step src k o st h Hin Eraw)
      as (r & st1 & E1 & R1 & I1 & C1 & K1 & O1 & N1).
    assert (H1 : forall k', In k' (keys l) ->
                   inherited k' = false /\ raw_lookup k' st1 <> None).
    { intros k' Hk'. unfold raw_lookup. rewrite R1.
      apply (H k'). now right. }
    destruct (IH st1 H1) as (st' & E & R & I & C & K & N).
    exists st'. cbn [forEach]. unfold bind at 1. unfold bind at 1.
    cbn [fst snd]. rewrite E1. unfold ret at 1.
    split; [exact E|]. split; [congruence|]. split; [congruence|].
    split; [congruence|]. split; [auto|].
    intros k' h' Hk' Hraw' Hw' Hs.
    destruct (String.eqb_spec k' k) as [->|Hne].
    + assert (h' = h) by congruence. subst h'.
      apply K. apply N1; [exact Hw' | exact Hs].
    + destruct Hk' as [Hk'|Hk']; [simpl in Hk'; congruence|].
      apply (N k' h' Hk').
      * unfold raw_lookup. rewrite R1. exact Hraw'.
      * rewrite O1; assumption.
      * exact Hs.
Qed.

Lemma no_empty_key {A : Type} (l : list (string * A)) :
  (forall k, In k (keys l) -> k <> EmptyString) ->
  existsb (String.eqb EmptyString) (keys l) = false.
Proof.
  intros H. destruct (existsb (String.eqb EmptyString) (keys l)) eqn:E;
    [|reflexivity].
  apply existsb_exists in E. destruct E as (k & Hk & Hx).
  apply String.eqb_eq in Hx. subst k. now elim (H EmptyString Hk).
Qed.

(** X7.  [wrapHelper()] without a name wraps all the raw helpers.  Let every
    key of [rawHelpers] be non-empty, be no member name of
    [Object.prototype] and hold a function.  Then the call returns
    [wrappedHelpers]; the raw helpers, the records and the counter are as
    before; a helper that was wrapped before keeps its wrapped function;
    and every raw helper [h] that was not wrapped now is, by a function made
    from [h] -- in [part_002] every one, in [part_004] every one whose
    property [wrapped] is not truthy. *)
Theorem wrapHelper_wraps_every_raw_helper :
  forall (src : source) (st : AsyncHelpers),
    (forall k, In k (keys (rawHelpers st)) ->
       k <> EmptyString /\ inherited k = false /\ raw_lookup k st <> None) ->
    exists st',
      wrapHelper src NoName None st
      = (Fulfilled (AllWrapped (wrappedHelpers st')), st')
      /\ rawHelpers st' = rawHelpers st
      /\ helperIds st' = helperIds st
      /\ counter st' = counter st
      /\ (forall k w, assoc k (wrappedHelpers st) = Some w ->
            assoc k (wrappedHelpers st') = Some w)
      /\ (forall k h, raw_lookup k st = Some h ->
            assoc k (wrappedHelpers st) = None ->
            src = part_002 \/ wrapped_prop h = false ->
            assoc k (wrappedHelpers st')
            = Some {| helperName := k; wrappedFn := normalize h |}).
Proof.
  intros src st H.
  destruct (wrap_each src (rawHelpers st) st) as (st' & E & R & I & C & K & N).
  { intros k Hk. destruct (H k Hk) as (_ & A & B). now split. }
  exists st'. split.
  - unfold wrapHelper, wrapHelper_with, wrap_all.
    unfold bind at 1. unfold bind at 1, gets at 1.
    rewrite no_empty_key by (intros k Hk; apply (H k Hk)).
    now rewrite E.
  - split; [exact R|]. split; [exact I|]. split; [exact C|].
    split; [exact K|].
    intros k h Hraw Hw Hs. apply (N k h); try assumption.
    apply raw_lookup_some in Hraw. exact (assoc_in_keys _ _ _ Hraw).
Qed.

Lemma wrapHelper_wraps_every_raw_helper_witness :
  exists st',
    wrapHelper part_004 NoName None
      (after (helper (helpers_object [("upper", upper); ("lower", lower)]) None)
         (constructor None))
    = (Fulfilled (AllWrapped (wrappedHelpers st')), st')
    /\ rawHelpers st'
       = rawHelpers
           (after (helper (helpers_object [("upper", upper); ("lower", lower)])
                     None) (constructor None))
    /\ helperIds st'
       = helperIds
           (after (helper (helpers_object [("upper", upper); ("lower", lower)])
                     None) (constructor None))
    /\ counter st'
       = counter
           (after (helper (helpers_object [("upper", upper); ("lower", lower)])
                     None) (constructor None))
    /\ (forall k w,
          assoc k (wrappedHelpers
                     (after (helper (helpers_object
                                       [("upper", upper); ("lower", lower)])
                               None) (constructor None))) = Some w ->
          assoc k (wrappedHelpers st') = Some w)
    /\ (forall k h,
          raw_lookup k
            (after (helper (helpers_object [("upper", upper); ("lower", lower)])
                      None) (constructor None)) = Some h ->
          assoc k (wrappedHelpers
                     (after (helper (helpers_object
                                       [("upper", upper); ("lower", lower)])
                               None) (constructor None))) = None ->
          part_004 = part_002 \/ wrapped_prop h = false ->
          assoc k (wrappedHelpers st')
          = Some {| helperName := k; wrappedFn := normalize h |}).
Proof.
  apply (wrapHelper_wraps_every_raw_helper part_004
           (after (helper (helpers_object [("upper", upper); ("lower", lower)])
                     None) (constructor None))).
  intros k [<-|[<-|[]]]; repeat split; discriminate.
Defined.

(** With the helpers of the test suite: both are wrapped, in the order of
    their definition. *)
Example wrapHelper_wraps_upper_and_lower :
  forall src : source,
    fst (wrapHelper src NoName None
           (after (helper (helpers_object [("upper", upper); ("lower", lower)])
                     None) (constructor None)))
    = Fulfilled (AllWrapped [("upper", wrapped_as "upper" upper);
                             ("lower", wrapped_as "lower" lower)]).
Proof. intros []; reflexivity. Qed.

(** ** A name that cannot be found *)

Lemma wrap_each_wrapped (src : source) (l : list (string * option Helper))
  (st : AsyncHelpers) :
  (forall k, In k (keys l) -> assoc k (wrappedHelpers st) <> None) ->
  forEach (fun kv : string * option Helper =>
             wrap_named src (fst kv) (snd kv) ;;; ret tt) l st
  = (Fulfilled tt, st).
Proof.
  induction l as [|[k o] l IH]; intros H; [reflexivity|].
  cbn [forEach]. unfold bind at 1. unfold bind at 1. cbn [fst snd].
  assert (E : wrap_named src k o st
              = (match assoc k (wrappedHelpers st) with
                 | Some w => Fulfilled (TheWrapped w)
                 | None => Unmodelled
                 end, st)).
  { pose proof (H k (or_introl eq_refl)) as Hk.
    unfold wrap_named, bind at 1, gets at 1. unfold bind at 1, gets at 1.
    destruct (assoc k (wrappedHelpers st)); [|now elim Hk].
    now destruct src. }
  rewrite E. pose proof (H k (or_introl eq_refl)) as Hk.
  destruct (assoc k (wrappedHelpers st)); [|now elim Hk].
  unfold ret at 1. apply IH. intros k' Hk'. apply H. now right.
Qed.

Lemma forEach_app {A : Type} (f : A -> M unit) (l1 l2 : list A)
  (st : AsyncHelpers) :
  forEach f (l1 ++ l2)%list st = bind (forEach f l1) (fun _ => forEach f l2) st.
Proof.
  revert st. induction l1 as [|a l1 IH]; intros st; [reflexivity|].
  simpl. unfold bind. destruct (f a st) as [[[]|e| |] st1]; try reflexivity.
  apply IH.
Qed.

Lemma assoc_set_new {A : Type} (k : string) (a : A) (l : list (string * A)) :
  ~ In k (keys l) -> assoc_set k a l = (l ++ [(k, a)])%list.
Proof.
  induction l as [|[k' a'] l IH]; intros H; [reflexivity|].
  simpl in *. destruct (String.eqb_spec k k') as [->|Hne]; [tauto|].
  rewrite IH by tauto. reflexivity.
Qed.

Lemma assoc_app_other {A : Type} (k nm : string) (a : A)
  (l : list (string * A)) :
  k <> nm -> assoc k (l ++ [(nm, a)])%list = assoc k l.
Proof.
  intros Hne. induction l as [|[k' a'] l IH]; simpl.
  - now destruct (String.eqb_spec k nm).
  - now destruct (String.eqb k k').
Qed.

Lemma assoc_app_new {A : Type} (nm : string) (a : A) (l : list (string * A)) :
  ~ In nm (keys l) -> assoc nm (l ++ [(nm, a)])%list = Some a.
Proof.
  induction l as [|[k' a'] l IH]; intros Hl; simpl.
  - now rewrite String.eqb_refl.
  - simpl in Hl. destruct (String.eqb_spec nm k') as [->|_]; [tauto|].
    apply IH. tauto.
Qed.

(** X8.  [wrapHelper(name)] called without a function, for a non-empty name
    that has neither a raw nor a wrapped helper and is no member name of
    [Object.prototype], throws the [TypeError] that names it.  [part_004]
    leaves the state as it was.  [part_002] has by then assigned
    [this.rawHelpers[name]]: the name is a new key of [rawHelpers] that
    holds [undefined], every other name holds what it held, and nothing
    else of the state has changed.  If every raw helper of the state has a
    non-empty name and was wrapped, [wrapHelper()] therefore still succeeds
    in [part_004], and throws the same [TypeError] in [part_002]. *)
Theorem wrapHelper_of_an_unknown_name :
  forall (nm : string) (st : AsyncHelpers),
    nm <> EmptyString ->
    inherited nm = false ->
    ~ In nm (keys (rawHelpers st)) ->
    assoc nm (wrappedHelpers st) = None ->
    (forall src,
       fst (wrapHelper src (Name nm) None st) = Rejected (cannot_find nm))
    /\ after (wrapHelper part_004 (Name nm) None) st = st
    /\ (let st2 := after (wrapHelper part_002 (Name nm) None) st in
        assoc nm (rawHelpers st2) = Some None
        /\ (forall k, k <> nm ->
              assoc k (rawHelpers st2) = assoc k (rawHelpers st))
        /\ wrappedHelpers st2 = wrappedHelpers st
        /\ helperIds st2 = helperIds st
        /\ prefix st2 = prefix st
        /\ counter st2 = counter st)
    /\ ((forall k, In k (keys (rawHelpers st)) ->
           k <> EmptyString /\ assoc k (wrappedHelpers st) <> None) ->
        wrapHelper part_004 NoName None st
        = (Fulfilled (AllWrapped (wrappedHelpers st)), st)
        /\ fst (wrapHelper part_002 NoName None
                  (after (wrapHelper part_002 (Name nm) None) st))
           = Rejected (cannot_find nm)).
Proof.
  intros nm st Hnm Hin Hkey Hw.
  assert (Hraw : raw_lookup nm st = None).
  { unfold raw_lookup. now rewrite (assoc_none_keys _ _ Hkey). }
  assert (E4 : wrapHelper part_004 (Name nm) None st
               = (Rejected (cannot_find nm), st)).
  { destruct nm as [|c nm]; [now elim Hnm|].
    unfold wrapHelper, wrapHelper_with, wrap_named, bind at 1, gets at 1.
    unfold bind at 1, gets at 1. now rewrite Hw, Hraw, Hin. }
  assert (E2 : wrapHelper part_002 (Name nm) None st
               = (Rejected (cannot_find nm),
                  set_rawHelpers (fun raw => (raw ++ [(nm, None)])%list) st)).
  { destruct nm as [|c nm]; [now elim Hnm|].
    unfold wrapHelper, wrapHelper_with, wrap_named, bind at 1, gets at 1.
    unfold bind at 1, gets at 1. rewrite Hw, Hraw, Hin. cbn [first_some].
    unfold bind, modify, throw, set_rawHelpers.
    now rewrite (assoc_set_new _ _ _ Hkey). }
  split; [intros []; [now rewrite E2 | now rewrite E4]|].
  unfold after. rewrite E4, E2. simpl snd.
  split; [reflexivity|]. split.
  { cbn zeta. cbn [rawHelpers set_rawHelpers wrappedHelpers helperIds prefix
                   counter].
    split; [exact (assoc_app_new nm None _ Hkey)|].
    split; [intros k Hk; exact (assoc_app_other k nm None _ Hk)|].
    repeat split. }
  intros Hall. split.
  - unfold wrapHelper, wrapHelper_with, wrap_all.
    unfold bind at 1. unfold bind at 1, gets at 1.
    rewrite no_empty_key by (intros k Hk; apply (Hall k Hk)).
    rewrite wrap_each_wrapped by (intros k Hk; apply (Hall k Hk)).
    reflexivity.
  - set (st' := set_rawHelpers (fun raw => (raw ++ [(nm, None)])%list) st).
    unfold wrapHelper, wrapHelper_with, wrap_all.
    unfold bind at 1. unfold bind at 1, gets at 1.
    assert (Hne : existsb (String.eqb EmptyString) (keys (rawHelpers st'))
                  = false).
    { apply no_empty_key. intros k Hk. simpl in Hk. unfold keys in Hk.
      rewrite map_app in Hk. apply in_app_or in Hk.
      destruct Hk as [Hk|[<-|[]]]; [apply (Hall k Hk) | exact Hnm]. }
    rewrite Hne. change (rawHelpers st') with (rawHelpers st ++ [(nm, None)])%list.
    rewrite forEach_app. unfold bind at 1.
    rewrite wrap_each_wrapped by (intros k Hk; apply (Hall k Hk)).
    cbn [forEach]. unfold bind at 1. unfold bind at 1. cbn [fst snd].
    assert (Hraw' : raw_lookup nm st' = None).
    { unfold raw_lookup, st'. simpl.
      now rewrite (assoc_app_new nm None _ Hkey). }
    unfold wrap_named, bind at 1, gets at 1. unfold bind at 1, gets at 1.
    change (wrappedHelpers st') with (wrappedHelpers st).
    rewrite Hw, Hraw', Hin. reflexivity.
Qed.

Lemma wrapHelper_of_an_unknown_name_witness :
  (forall src,
     fst (wrapHelper src (Name "lower") None upper_registered)
     = Rejected (cannot_find "lower"))
  /\ after (wrapHelper part_004 (Name "lower") None) upper_registered
     = upper_registered
  /\ (let st2 := after (wrapHelper part_002 (Name "lower") None)
                   upper_registered in
      assoc "lower" (rawHelpers st2) = Some None
      /\ (forall k, k <> "lower" ->
            assoc k (rawHelpers st2) = assoc k (rawHelpers upper_registered))
      /\ wrappedHelpers st2 = wrappedHelpers upper_registered
      /\ helperIds st2 = helperIds upper_registered
      /\ prefix st2 = prefix upper_registered
      /\ counter st2 = counter upper_registered)
  /\ wrapHelper part_004 NoName None upper_registered
     = (Fulfilled (AllWrapped (wrappedHelpers upper_registered)),
        upper_registered)
  /\ fst (wrapHelper part_002 NoName None
            (after (wrapHelper part_002 (Name "lower") None) upper_registered))
     = Rejected (cannot_find "lower").
Proof.
  destruct (wrapHelper_of_an_unknown_name "lower" upper_registered)
    as (A & B & C & D).
  - discriminate.
  - reflexivity.
  - simpl. intuition discriminate.
  - reflexivity.
  - split; [exact A|]. split; [exact B|]. split; [exact C|].
    apply D. intros k [<-|[]]. split; discriminate.
Defined.

(** ** [hasAsyncId] *)

Lemma drop_append (a b : string) : drop (String.length a) (a ++ b) = b.
Proof. induction a as [|c a IH]; [now destruct b | exact IH]. Qed.

Lemma string_of_uint_digits (d : Decimal.uint) (rest : string) (seen : bool) :
  d <> Decimal.Nil \/ seen = true ->
  digits_then_close seen (NilEmpty.string_of_uint d ++ "@@@" ++ rest) = true.
Proof.
  revert seen. induction d; intros seen H;
    try (cbn [NilEmpty.string_of_uint append digits_then_close];
         apply IHd; now right).
  destruct H as [H|H]; [now elim H|]. subst seen. now destruct rest.
Qed.

Lemma to_uint_nonnil (n : nat) : Nat.to_uint n <> Decimal.Nil.
Proof.
  rewrite <- (Unsigned.of_to n) at 1. rewrite Unsigned.to_of.
  apply DecimalFacts.unorm_nonnil.
Qed.

Lemma counter_then_close (n : nat) (rest : string) :
  digits_then_close false (decimal n ++ "@@@" ++ rest) = true.
Proof. apply string_of_uint_digits. left. apply to_uint_nonnil. Qed.

Lemma dots_then_counter_name (nm : string) (n : nat) (rest : string)
  (seen : bool) :
  single_line nm = true ->
  nm <> EmptyString \/ seen = true ->
  dots_then_counter seen (nm ++ "@" ++ decimal n ++ "@@@" ++ rest) = true.
Proof.
  revert seen. induction nm as [|c nm IH]; intros seen Hl Hs.
  - destruct Hs as [Hs|Hs]; [now elim Hs|]. subst seen.
    change (EmptyString ++ "@" ++ decimal n ++ "@@@" ++ rest)
      with (String "@" (decimal n ++ "@@@" ++ rest)).
    cbn [dots_then_counter]. rewrite counter_then_close. reflexivity.
  - simpl in Hl. apply andb_true_iff in Hl. destruct Hl as [Hc Hl].
    change (String c nm ++ "@" ++ decimal n ++ "@@@" ++ rest)
      with (String c (nm ++ "@" ++ decimal n ++ "@@@" ++ rest)).
    cbn [dots_then_counter]. rewrite Hc, (IH true Hl (or_intror eq_refl)).
    apply orb_true_r.
Qed.

Lemma test_id_pattern_token (pfx nm : string) (n : nat) (before rest : string) :
  single_line nm = true ->
  nm <> EmptyString ->
  test_id_pattern pfx (before ++ make_id pfx nm n ++ rest) = true.
Proof.
  intros Hl Hnm. induction before as [|c before IH].
  - change (EmptyString ++ make_id pfx nm n ++ rest)
      with (make_id pfx nm n ++ rest).
    assert (E : make_id pfx nm n ++ rest
                = (pfx ++ "@") ++ nm ++ "@" ++ decimal n ++ "@@@" ++ rest).
    { unfold make_id. now rewrite !append_assoc. }
    rewrite E.
    assert (T : String.prefix (pfx ++ "@")
                  ((pfx ++ "@") ++ nm ++ "@" ++ decimal n ++ "@@@" ++ rest)
                && dots_then_counter false
                     (drop (String.length pfx + 1)
                        ((pfx ++ "@") ++ nm ++ "@" ++ decimal n ++ "@@@" ++ rest))
                = true).
    { rewrite prefix_append. simpl andb.
      replace (String.length pfx + 1) with (String.length (pfx ++ "@")).
      - rewrite drop_append. apply dots_then_counter_name; [exact Hl | now left].
      - clear. induction pfx as [|c pfx IH]; [reflexivity | simpl; now rewrite IH]. }
    destruct ((pfx ++ "@") ++ nm ++ "@" ++ decimal n ++ "@@@" ++ rest);
      cbn [test_id_pattern]; rewrite T; reflexivity.
  - change (String c before ++ make_id pfx nm n ++ rest)
      with (String c (before ++ make_id pfx nm n ++ rest)).
    cbn [test_id_pattern]. rewrite IH. apply orb_true_r.
Qed.

(** X9.  [hasAsyncId] recognises every identifier the instance can issue,
    wherever it stands in a string: for a prefix without regular expression
    syntax characters and a non-empty helper name on one line,
    [hasAsyncId] is true of every string that contains the identifier
    [<prefix>@<name>@<n>@@@], and the state is as before. *)
Theorem hasAsyncId_finds_issued_identifiers :
  forall (st : AsyncHelpers) (nm : string) (n : nat) (before rest : string),
    plain (prefix st) = true ->
    nm <> EmptyString ->
    single_line nm = true ->
    hasAsyncId (VString (before ++ make_id (prefix st) nm n ++ rest)) st
    = (Fulfilled true, st).
Proof.
  intros st nm n before rest Hp Hnm Hl.
  unfold hasAsyncId, bind, gets. rewrite Hp. unfold ret.
  rewrite (test_id_pattern_token (prefix st) nm n before rest Hl Hnm).
  assert (T : truthy (VString (before ++ make_id (prefix st) nm n ++ rest)) = true).
  { simpl. destruct (before ++ make_id (prefix st) nm n ++ rest) eqn:E;
      [|reflexivity].
    exfalso. pose proof (make_id_has_separator (prefix st) nm n) as S.
    assert (L : In "@"%char (list_ascii_of_string
                               (before ++ make_id (prefix st) nm n ++ rest))).
    { rewrite !list_of_append. apply in_or_app. right.
      apply in_or_app. now left. }
    rewrite E in L. exact L. }
  now rewrite T.
Qed.

Lemma hasAsyncId_finds_issued_identifiers_witness :
  hasAsyncId (VString ("upper: " ++ make_id (prefix (constructor None)) "upper" 7
                       ++ "!"))
    (constructor None)
  = (Fulfilled true, constructor None).
Proof.
  apply (hasAsyncId_finds_issued_identifiers (constructor None) "upper" 7
           "upper: " "!"); [reflexivity | discriminate | reflexivity].
Defined.

(** A helper name with a line break gives identifiers that [hasAsyncId]
    does not recognise: the [.] of the pattern matches no line terminator. *)
Example hasAsyncId_misses_a_name_with_a_line_break :
  fst (hasAsyncId
         (VString (make_id defaultPrefix (String (ascii_of_nat 10) "x") 1))
         (constructor None))
  = Fulfilled false.
Proof. reflexivity. Qed.

Lemma test_id_pattern_needs_prefix (pfx s : string) :
  occurs (pfx ++ "@") s = false -> test_id_pattern pfx s = false.
Proof.
  induction s as [|c s IH]; intros H.
  - cbn [occurs] in H. cbn [test_id_pattern]. apply orb_false_iff in H.
    destruct H as [H _]. now rewrite H.
  - cbn [occurs] in H. apply orb_false_iff in H. destruct H as [H1 H2].
    cbn [test_id_pattern]. rewrite H1, (IH H2). reflexivity.
Qed.

(** X10.  [hasAsyncId] is false of everything that is not a string holding
    the prefix followed by [@]: of every value that is not a string, of the
    empty string, and of every string in which [<prefix>@] does not occur.
    The state is as before. *)
Theorem hasAsyncId_needs_the_prefix :
  forall (st : AsyncHelpers) (val : jsvalue),
    plain (prefix st) = true ->
    (forall s, val = VString s -> occurs (prefix st ++ "@") s = false) ->
    hasAsyncId val st = (Fulfilled false, st).
Proof.
  intros st val Hp H. unfold hasAsyncId, bind, gets. rewrite Hp. unfold ret.
  destruct val; try reflexivity.
  rewrite (test_id_pattern_needs_prefix _ _ (H s eq_refl)).
  now rewrite andb_false_r.
Qed.

Lemma hasAsyncId_needs_the_prefix_witness :
  hasAsyncId (VString "upper: @@@ASYNCID@upper@1@@@") (constructor None)
  = (Fulfilled false, constructor None).
Proof.
  apply (hasAsyncId_needs_the_prefix (constructor None)
           (VString "upper: @@@ASYNCID@upper@1@@@")).
  - reflexivity.
  - intros s [= <-]. reflexivity.
Defined.

(** ** The records of an instance *)

Lemma perform_keys (src : source) (op : operation) (st : AsyncHelpers) :
  invariant st ->
  keys (helperIds (snd (perform src op st)))
  = (keys (helperIds st)
     ++ match fst (perform src op st) with Some t => [t] | None => [] end)%list
  /\ counter (snd (perform src op st))
     = counter st
       + match fst (perform src op st) with Some _ => 1 | None => 0 end.
Proof.
  intros I.
  assert (Reg : forall (A : Type) (m : M A), registry_only m ->
            keys (helperIds (after m st)) = (keys (helperIds st) ++ [])%list
            /\ counter (after m st) = counter st + 0).
  { intros A m Hm. destruct (Hm st) as (_ & P2 & P3 & _). unfold after.
    rewrite P2, P3, app_nil_r. now rewrite Nat.add_0_r. }
  assert (Res : forall (A : Type) (m : M A), sound m ->
            keys (helperIds (after m st)) = (keys (helperIds st) ++ [])%list
            /\ counter (after m st) = counter st + 0).
  { intros A m Hm. destruct (Hm st) as (l & F & _). unfold after.
    rewrite (same_records_keys _ _ (frame_helperIds _ _ _ F)).
    rewrite (frame_counter _ _ _ F), app_nil_r. now rewrite Nat.add_0_r. }
  destruct op as [nm f|nm f|nm this arguments|fuel key|fuel str]; simpl.
  - apply Reg, registry_only_helper.
  - apply Reg, registry_only_wrapHelper.
  - unfold invoke. destruct (assoc nm (wrappedHelpers st)) as [w|].
    + pose proof (wrappedHelper_fresh w this arguments st (proj1 I)) as Fr.
      simpl in *. split; [|lia].
      apply keys_assoc_set_new. now apply assoc_none_keys.
    + simpl. rewrite app_nil_r. split; [reflexivity | lia].
  - apply Res, sound_resolveId.
  - apply Res, sound_resolveIds.
Qed.

Lemma execute_keys (src : source) (ops : list operation) (st : AsyncHelpers) :
  invariant st ->
  keys (helperIds (snd (execute src ops st)))
  = (keys (helperIds st) ++ fst (execute src ops st))%list
  /\ counter (snd (execute src ops st))
     = counter st + List.length (fst (execute src ops st)).
Proof.
  revert st. induction ops as [|op ops IH]; intros st I; simpl.
  - rewrite app_nil_r. split; [reflexivity | lia].
  - destruct (perform_keys src op st I) as [K1 C1].
    pose proof (proj1 (perform_spec src op st I)) as I1.
    destruct (perform src op st) as [t st1]. simpl in *.
    destruct (IH st1 I1) as [K2 C2].
    destruct (execute src ops st1) as [ts st2]. simpl in *.
    rewrite K2, K1, C2, C1. destruct t as [x|]; simpl.
    + rewrite <- app_assoc. split; [reflexivity | lia].
    + rewrite app_nil_r. split; [reflexivity | lia].
Qed.

(** X11.  After any sequence of calls on a new instance, the keys of
    [helperIds], in the order [Object.keys] lists them, are exactly the
    identifiers that the wrapped helpers have returned, in the order of the
    calls, without repetition; and the counter is their number.  Defining,
    wrapping and resolving neither add a record nor remove one. *)
Theorem records_are_the_issued_identifiers :
  forall (src : source) (options_prefix : option string)
         (ops : list operation),
    modelled src options_prefix ops = true ->
    keys (helperIds (reached src options_prefix ops))
    = issued src options_prefix ops
    /\ NoDup (issued src options_prefix ops)
    /\ counter (reached src options_prefix ops)
       = List.length (issued src options_prefix ops).
Proof.
  intros src options_prefix ops _.
  destruct (execute_keys src ops _ (invariant_constructor options_prefix))
    as [K C].
  destruct (execute_spec src ops _ (invariant_constructor options_prefix))
    as (_ & _ & _ & _ & N).
  unfold reached, issued. split; [exact K|]. split; [exact N | exact C].
Qed.

Lemma records_are_the_issued_identifiers_witness :
  keys (helperIds (reached part_002 None call_upper))
  = issued part_002 None call_upper
  /\ NoDup (issued part_002 None call_upper)
  /\ counter (reached part_002 None call_upper)
     = List.length (issued part_002 None call_upper).
Proof.
  apply (records_are_the_issued_identifiers part_002 None call_upper).
  reflexivity.
Defined.

(** X12.  [resolveId] resolves only what the instance has issued.  For a key
    whose string form is none of the identifiers returned by the wrapped
    helpers of the instance (and no member name of [Object.prototype]),
    [resolveId] is rejected with the error [cannot resolve helper with
    "<key>" id]; no implementation runs and the state is as before. *)
Theorem resolveId_of_an_unknown_key :
  forall (src : source) (options_prefix : option string)
         (ops : list operation) (fuel : nat) (key : jsvalue) (k : string),
    modelled src options_prefix ops = true ->
    ToString key = Some k ->
    ~ In k (issued src options_prefix ops) ->
    inherited k = false ->
    resolveId src (S fuel) key (reached src options_prefix ops)
    = (Rejected (cannot_resolve k), reached src options_prefix ops).
Proof.
  intros src options_prefix ops fuel key k _ Hk Hn Hin.
  destruct (execute_keys src ops _ (invariant_constructor options_prefix))
    as [K _].
  fold (reached src options_prefix ops) in K.
  fold (issued src options_prefix ops) in K. simpl in K.
  assert (Hnone : assoc k (helperIds (reached src options_prefix ops)) = None).
  { apply assoc_none_keys. now rewrite K. }
  cbn [resolveId]. unfold resolveId_body, ToPropertyKey. rewrite Hk.
  unfold bind at 1, ret at 1. unfold bind at 1, gets at 1.
  now rewrite Hnone, Hin.
Qed.

Lemma resolveId_of_an_unknown_key_witness :
  resolveId part_004 1 (VString (make_id defaultPrefix "upper" 2))
    (reached part_004 None call_upper)
  = (Rejected (cannot_resolve (make_id defaultPrefix "upper" 2)),
     reached part_004 None call_upper).
Proof.
  apply (resolveId_of_an_unknown_key part_004 None call_upper 0
           (VString (make_id defaultPrefix "upper" 2))
           (make_id defaultPrefix "upper" 2)).
  - reflexivity.
  - reflexivity.
  - simpl. intuition discriminate.
  - reflexivity.
Defined.

(** ** What resolution changes *)

(** X13.  With helper implementations that make no call on the instance,
    [resolveId] and [resolveIds] themselves define and wrap no helper and
    issue no identifier.  Whatever the outcome, the prefix, the counter and
    both registries are as before, [helperIds] has the same keys in the
    same order, every record keeps its identifier, name, implementation,
    receiver and count, and a record that had a [value] still has one.
    Nothing is said of the arguments of a record: the loop over a [hash]
    assigns into the argument object. *)
Theorem resolution_only_assigns_values :
  forall (src : source) (via : entry) (fuel : nat) (x : jsvalue)
         (st : AsyncHelpers),
    prefix (after (resolve src via fuel x) st) = prefix st
    /\ counter (after (resolve src via fuel x) st) = counter st
    /\ rawHelpers (after (resolve src via fuel x) st) = rawHelpers st
    /\ wrappedHelpers (after (resolve src via fuel x) st) = wrappedHelpers st
    /\ keys (helperIds (after (resolve src via fuel x) st))
       = keys (helperIds st)
    /\ (forall k r, assoc k (helperIds st) = Some r ->
          exists r',
            assoc k (helperIds (after (resolve src via fuel x) st)) = Some r'
            /\ id r' = id r /\ name r' = name r
            /\ fn r' = fn r /\ ctx r' = ctx r /\ count r' = count r
            /\ (value r <> None -> value r' <> None))
    /\ (exists l, calls (after (resolve src via fuel x) st)
                  = (calls st ++ l)%list).
Proof.
  intros src via fuel x st.
  destruct (sound_resolve src via fuel x st) as (l & F & _).
  fold (after (resolve src via fuel x) st) in F.
  split; [apply (frame_prefix _ _ _ F)|].
  split; [apply (frame_counter _ _ _ F)|].
  split; [apply (frame_rawHelpers _ _ _ F)|].
  split; [apply (frame_wrappedHelpers _ _ _ F)|].
  split; [apply same_records_keys, (frame_helperIds _ _ _ F)|].
  split; [|exists l; apply (frame_calls _ _ _ F)].
  intros k r Hr.
  destruct (same_records_assoc _ _ k r (frame_helperIds _ _ _ F) Hr)
    as (r' & Hr' & S).
  destruct S as (S1 & S2 & _ & S4 & S5 & S6 & S7).
  exists r'. repeat split; assumption.
Qed.

Lemma reduce_step_state (acc : jsvalue) (entry : string * jsvalue)
  (st : AsyncHelpers) :
  snd (reduce_step acc entry st) = st.
Proof.
  unfold reduce_step. destruct entry as [i v].
  destruct (strict_equals_string acc i); [reflexivity|].
  destruct acc; try reflexivity; destruct (plain i); try reflexivity.
  now destruct (ToString v).
Qed.

Lemma reduce_state (res : list (string * jsvalue)) (acc : jsvalue)
  (st : AsyncHelpers) :
  snd (foldM reduce_step res acc st) = st.
Proof.
  revert acc. induction res as [|e res IH]; intros acc; [reflexivity|].
  simpl. unfold bind. pose proof (reduce_step_state acc e st) as H.
  destruct (reduce_step acc e st) as [[a|x| |] s]; simpl in H; subst s;
    try reflexivity.
  apply IH.
Qed.

Lemma resolveIds_state (src : source) (fuel : nat) (str : jsvalue)
  (st : AsyncHelpers) :
  after (resolveIds src fuel str) st
  = after (resolve_keys (resolveId src fuel) (keys (helperIds st))) st.
Proof.
  unfold after, resolveIds, resolveIds_body, bind at 1, gets at 1.
  unfold bind.
  destruct (resolve_keys (resolveId src fuel) (keys (helperIds st)) st)
    as [[res|e| |] s]; try reflexivity.
  apply reduce_state.
Qed.

(** X14.  What [resolveIds] does to the instance does not depend on the
    string it is given: it resolves every key of [helperIds], in the order
    of the keys, and the state it leaves -- the values stored and the
    implementations run -- is the same for every argument. *)
Theorem resolveIds_resolves_every_record :
  forall (src : source) (fuel : nat) (str str' : jsvalue) (st : AsyncHelpers),
    after (resolveIds src fuel str) st
    = after (resolve_keys (resolveId src fuel) (keys (helperIds st))) st
    /\ after (resolveIds src fuel str') st = after (resolveIds src fuel str) st.
Proof.
  intros src fuel str str' st.
  split; [apply resolveIds_state|]. now rewrite !resolveIds_state.
Qed.

Lemma resolve_keys_store (src : source) (fuel : nat) (ks : list string)
  (st st' : AsyncHelpers) (res : list (string * jsvalue)) :
  ids_ok st ->
  assoc "undefined" (helperIds st) = None ->
  resolve_keys (resolveId src fuel) ks st = (Fulfilled res, st') ->
  forall k, In k ks -> exists w, memo (VString k) st' = Some w.
Proof.
  revert st res. induction ks as [|i ks IH]; intros st res I U H k Hk;
    [now elim Hk|].
  unfold resolve_keys in H. cbn [mapM] in H.
  apply bind_fulfilled in H. destruct H as ([i' v] & s1 & H1 & H).
  apply bind_fulfilled in H1. destruct H1 as (v' & s1' & H1 & H1').
  injection H1' as <- <- <-.
  apply bind_fulfilled in H. destruct H as (bs & s2 & H2 & H).
  injection H as _ <-.
  destruct (sound_resolveId src fuel (VString i) st) as (l1 & F1 & _).
  rewrite H1 in F1. simpl in F1.
  assert (I1 : ids_ok s1') by exact (ids_ok_frame _ _ _ F1 I).
  assert (U1 : assoc "undefined" (helperIds s1') = None)
    by exact (same_records_assoc_none _ _ _ (frame_helperIds _ _ _ F1) U).
  destruct Hk as [<-|Hk].
  - destruct (resolveId_stores src fuel (VString i) st s1' v' I U H1)
      as (w & Hw).
    destruct (sound_mapM (fun i0 => v0 <- resolveId src fuel (VString i0) ;;
                                    ret (i0, v0)) ks
                (fun i0 => sound_bind _ _ (sound_resolveId src fuel (VString i0))
                             (fun v0 => sound_ret (i0, v0))) s1')
      as (l2 & F2 & _).
    rewrite H2 in F2. simpl in F2.
    unfold memo in *. simpl in *.
    destruct (assoc i (helperIds s1')) as [r|] eqn:Hr; [|discriminate].
    destruct (same_records_assoc _ _ i r (frame_helperIds _ _ _ F2) Hr)
      as (r' & Hr' & S).
    rewrite Hr'. destruct S as (_ & _ & _ & _ & _ & _ & S).
    destruct (value r') as [w'|]; [now exists w'|].
    exfalso. apply S; congruence.
  - exact (IH s1' bs I1 U1 H2 k Hk).
Qed.

Lemma resolve_keys_memoized (src : source) (fuel : nat) (ks : list string)
  (st : AsyncHelpers) :
  ids_ok st ->
  (forall k, In k ks -> exists w, memo (VString k) st = Some w
                                  /\ (src = part_004 \/ is_string w = true)) ->
  after (resolve_keys (resolveId src (S fuel)) ks) st = st.
Proof.
  intros I. induction ks as [|i ks IH]; intros H; [reflexivity|].
  destruct (H i (or_introl eq_refl)) as (w & Hw & Hs).
  unfold after, resolve_keys. cbn [mapM]. unfold bind at 1. unfold bind at 1.
  rewrite (resolveId_memoized src fuel (VString i) st w I Hw Hs).
  unfold ret at 1. unfold bind.
  assert (IH' : after (resolve_keys (resolveId src (S fuel)) ks) st = st).
  { apply IH. intros k Hk. apply H. now right. }
  unfold after, resolve_keys in IH'.
  destruct (mapM _ ks st) as [[bs|e| |] s]; simpl in *; exact IH'.
Qed.

(** X15.  A successful [resolveIds] settles the whole instance: every
    identifier issued so far then has a stored [value].  In [part_004], and
    in [part_002] when all the stored values are strings, every later
    [resolveIds], of whatever string, runs no implementation and leaves the
    state exactly as it is. *)
Theorem resolveIds_settles_the_instance :
  forall (src : source) (options_prefix : option string)
         (ops : list operation) (fuel : nat) (str v : jsvalue)
         (st' : AsyncHelpers),
    modelled src options_prefix ops = true ->
    resolveIds src fuel str (reached src options_prefix ops)
    = (Fulfilled v, st') ->
    (forall k, In k (issued src options_prefix ops) ->
       exists w, memo (VString k) st' = Some w)
    /\ ((src = part_004
         \/ forall k w, memo (VString k) st' = Some w -> is_string w = true) ->
        forall fuel' str',
          after (resolveIds src (S fuel') str') st' = st').
Proof.
  intros src options_prefix ops fuel str v st' _ H.
  destruct (reached_invariant src options_prefix ops) as (B & I & _).
  destruct (execute_keys src ops _ (invariant_constructor options_prefix))
    as [K _].
  fold (reached src options_prefix ops) in K.
  fold (issued src options_prefix ops) in K. simpl in K.
  set (st := reached src options_prefix ops) in *.
  pose proof (resolveIds_state src fuel str st) as Hst.
  unfold after in Hst. rewrite H in Hst. simpl in Hst.
  assert (Hk : exists res,
             resolve_keys (resolveId src fuel) (keys (helperIds st)) st
             = (Fulfilled res, st')).
  { unfold resolveIds, resolveIds_body, bind at 1, gets at 1 in H.
    apply bind_fulfilled in H. destruct H as (res & s & H1 & _).
    exists res. rewrite H1 in Hst. simpl in Hst. now subst s. }
  destruct Hk as (res & Hk).
  assert (All : forall k, In k (issued src options_prefix ops) ->
                  exists w, memo (VString k) st' = Some w).
  { intros k Hin. rewrite <- K in Hin.
    exact (resolve_keys_store src fuel _ st st' res I
             (bounded_no_undefined _ B) Hk k Hin). }
  split; [exact All|].
  intros Hs fuel' str'.
  destruct (sound_resolveIds src fuel str st) as (l & F & _).
  rewrite H in F. simpl in F.
  rewrite resolveIds_state.
  apply resolve_keys_memoized; [exact (ids_ok_frame _ _ _ F I)|].
  intros k Hin.
  rewrite (same_records_keys _ _ (frame_helperIds _ _ _ F)), K in Hin.
  destruct (All k Hin) as (w & Hw). exists w. split; [exact Hw|].
  destruct Hs as [Hs|Hs]; [now left | right; exact (Hs k w Hw)].
Qed.

Lemma resolveIds_settles_the_instance_witness :
  (forall k, In k (issued part_004 None call_upper) ->
     exists w, memo (VString k)
                 (after (resolveIds part_004 2 (VString "x"))
                    (reached part_004 None call_upper)) = Some w)
  /\ ((part_004 = part_004
       \/ forall k w,
            memo (VString k)
              (after (resolveIds part_004 2 (VString "x"))
                 (reached part_004 None call_upper)) = Some w ->
            is_string w = true) ->
      forall fuel' str',
        after (resolveIds part_004 (S fuel') str')
          (after (resolveIds part_004 2 (VString "x"))
             (reached part_004 None call_upper))
        = after (resolveIds part_004 2 (VString "x"))
            (reached part_004 None call_upper)).
Proof.
  apply (resolveIds_settles_the_instance part_004 None call_upper 2
           (VString "x") (VString "x")
           (after (resolveIds part_004 2 (VString "x"))
              (reached part_004 None call_upper)));
    reflexivity.
Defined.

(** ** A failure is not stored *)

Lemma resolveId_failing (src : source) (fuel : nat) (key : jsvalue)
  (k : string) (r : Token) (st st1 : AsyncHelpers) (argz : list jsvalue)
  (e : exn) :
  ToString key = Some k ->
  assoc k (helperIds st) = Some r ->
  id r = k ->
  memoized src r r = false ->
  mapM (resolve_arg src (resolveId src fuel)) (args r) st
  = (Fulfilled argz, st1) ->
  settle (fn r) (ctx r) argz = Fails e ->
  resolveId src (S fuel) key st
  = (Rejected (rethrown (name r) k e),
     record_call {| call_id := k; call_name := name r;
                    call_args := argz; call_completion := Fails e |} st1).
Proof.
  intros Hk Hr Hid Hm Hargs Hs.
  simpl. unfold resolveId_body, ToPropertyKey. rewrite Hk.
  unfold bind at 1, ret at 1. unfold bind at 1, gets at 1.
  rewrite Hr, Hid, Hr, Hm.
  unfold bind at 1. unfold guarded_call, try_catch, bind at 1.
  rewrite Hargs. unfold apply, bind at 1, modify. rewrite Hs.
  unfold bind at 1, throw. now rewrite Hid.
Qed.

(** X16.  A failure is not memoized.  For a prefix without regular
    expression syntax characters, take a record without [value], stored
    under its own identifier, whose
    arguments resolution leaves as they are and whose implementation fails
    for them.  [resolveId] of its identifier is rejected; it has applied the
    implementation once and has changed nothing else: the record still has
    no [value].  A second [resolveId] therefore applies the implementation
    again and is rejected with the same error. *)
Theorem failure_is_not_memoized :
  forall (src : source) (fuel : nat) (k : string) (r : Token) (e : exn)
         (st : AsyncHelpers),
    plain (prefix st) = true ->
    assoc k (helperIds st) = Some r ->
    id r = k ->
    value r = None ->
    forallb (literal src (prefix st) (helperIds st)) (args r) = true ->
    settle (fn r) (ctx r) (args r) = Fails e ->
    let c := {| call_id := k; call_name := name r; call_args := args r;
                call_completion := Fails e |} in
    exists e',
      resolveId src (S fuel) (VString k) st = (Rejected e', record_call c st)
      /\ memo (VString k) (record_call c st) = None
      /\ resolveId src (S fuel) (VString k) (record_call c st)
         = (Rejected e', record_call c (record_call c st)).
Proof.
  intros src fuel k r e st Hp Hr Hid Hv Hl Hs c.
  assert (Hm : memoized src r r = false) by (unfold memoized; now rewrite Hv).
  exists (rethrown (name r) k e).
  split.
  { exact (resolveId_failing src fuel (VString k) k r st st (args r) e
             eq_refl Hr Hid Hm (resolve_args_literal src _ (args r) st Hp Hl)
             Hs). }
  split.
  { unfold memo. simpl. now rewrite Hr. }
  exact (resolveId_failing src fuel (VString k) k r (record_call c st)
           (record_call c st) (args r) e eq_refl Hr Hid Hm
           (resolve_args_literal src _ (args r) (record_call c st) Hp Hl) Hs).
Qed.

Lemma failure_is_not_memoized_witness :
  exists e',
    resolveId part_004 1 (VString (first_token "upper")) (upper_throwing part_004)
    = (Rejected e',
       record_call {| call_id := first_token "upper"; call_name := "upper";
                      call_args := [VString "doowb"];
                      call_completion := Fails (JsError "yeah UPPER sync Error") |}
         (upper_throwing part_004))
    /\ memo (VString (first_token "upper"))
         (record_call {| call_id := first_token "upper"; call_name := "upper";
                         call_args := [VString "doowb"];
                         call_completion :=
                           Fails (JsError "yeah UPPER sync Error") |}
            (upper_throwing part_004)) = None
    /\ resolveId part_004 1 (VString (first_token "upper"))
         (record_call {| call_id := first_token "upper"; call_name := "upper";
                         call_args := [VString "doowb"];
                         call_completion :=
                           Fails (JsError "yeah UPPER sync Error") |}
            (upper_throwing part_004))
       = (Rejected e',
          record_call {| call_id := first_token "upper"; call_name := "upper";
                         call_args := [VString "doowb"];
                         call_completion :=
                           Fails (JsError "yeah UPPER sync Error") |}
            (record_call {| call_id := first_token "upper";
                            call_name := "upper";
                            call_args := [VString "doowb"];
                            call_completion :=
                              Fails (JsError "yeah UPPER sync Error") |}
               (upper_throwing part_004))).
Proof.
  apply (failure_is_not_memoized part_004 0 (first_token "upper")
           {| id := first_token "upper"; name := "upper";
              args := [VString "doowb"];
              fn := normalize (throws "yeah UPPER sync Error");
              ctx := emptyObject; count := 1; value := None |}
           (JsError "yeah UPPER sync Error") (upper_throwing part_004));
    reflexivity.
Defined.

(** ** Array arguments, element by element *)

Lemma hasAsyncId_decides (x : jsvalue) (st : AsyncHelpers) :
  plain (prefix st) = true ->
  hasAsyncId x st = (Fulfilled (negb (token_free (prefix st) x)), st).
Proof.
  intros Hp. unfold hasAsyncId, bind, gets. rewrite Hp. unfold ret.
  destruct x; try reflexivity. cbn [token_free truthy].
  rewrite negb_involutive. destruct s; [|reflexivity].
  cbn [test_id_pattern]. now destruct (prefix st).
Qed.

Lemma resolve_elements (src : source) (fuel : nat) (elements : list jsvalue)
  (st st' : AsyncHelpers) (res : list jsvalue) :
  plain (prefix st) = true ->
  mapM (resolve_element (resolveId src fuel)) elements st = (Fulfilled res, st') ->
  elements_resolved src fuel st elements res st'.
Proof.
  revert st st' res. induction elements as [|x l IH]; intros st st' res Hp H.
  - simpl in H. injection H as <- <-. constructor.
  - cbn [mapM] in H. apply bind_fulfilled in H.
    destruct H as (b & s1 & H1 & H).
    apply bind_fulfilled in H. destruct H as (bs & s2 & H2 & H).
    injection H as <- <-.
    assert (P1 : prefix s1 = prefix st).
    { destruct (sound_resolve_element (resolveId src fuel)
                  (sound_resolveId src fuel) x st) as (l1 & F & _).
      rewrite H1 in F. apply (frame_prefix _ _ _ F). }
    assert (T : elements_resolved src fuel s1 l bs s2)
      by (apply IH; [now rewrite P1 | exact H2]).
    unfold resolve_element, bind in H1.
    rewrite (hasAsyncId_decides x st Hp) in H1.
    destruct (token_free (prefix st) x) eqn:Hx; simpl in H1.
    + injection H1 as <- <-. now apply resolved_as_it_is.
    + now apply (resolved_by_resolveId src fuel st s1 s2 x b l bs).
Qed.

(** X17.  An array argument whose property key is neither a stored
    identifier nor a member name of [Object.prototype] is resolved element
    by element, for a prefix without regular expression syntax characters.
    The helper receives an array of the same length.  An element on which
    [hasAsyncId] is false is the element itself, in its place; any other
    element is what [resolveId] returned for it, called in the state that
    the elements before it have left; and the state after the argument is
    the one that the last of these calls leaves. *)
Theorem array_argument_is_resolved_elementwise :
  forall (src : source) (fuel : nat) (elements : list jsvalue) (k : string)
         (st st' : AsyncHelpers) (v : jsvalue),
    plain (prefix st) = true ->
    ToString (VArray elements) = Some k ->
    assoc k (helperIds st) = None ->
    inherited k = false ->
    resolve_arg src (resolveId src fuel) (VArray elements) st
    = (Fulfilled v, st') ->
    exists elements',
      v = VArray elements'
      /\ List.length elements' = List.length elements
      /\ elements_resolved src fuel st elements elements' st'.
Proof.
  intros src fuel elements k st st' v Hp Hk Hnone Hin.
  unfold resolve_arg, ToPropertyKey. rewrite Hk.
  unfold bind at 1, ret at 1. unfold bind at 1, gets at 1. rewrite Hnone, Hin.
  assert (Hb : takes_hash_branch src (VArray elements) = false)
    by now destruct src.
  rewrite Hb. intros H.
  apply bind_fulfilled in H. destruct H as (res & st1 & Hm & H).
  injection H as <- <-. exists res. split; [reflexivity|].
  split; [exact (mapM_length _ _ _ _ _ Hm)|].
  exact (resolve_elements src fuel elements st st1 res Hp Hm).
Qed.

Lemma array_argument_is_resolved_elementwise_witness :
  exists elements',
    VArray [VString "DOOWB"; VString "x"] = VArray elements'
    /\ List.length elements'
       = List.length [VString (first_token "upper"); VString "x"]
    /\ elements_resolved part_004 2 (upper_called part_004)
         [VString (first_token "upper"); VString "x"] elements'
         (upper_resolved part_004).
Proof.
  apply (array_argument_is_resolved_elementwise part_004 2
           [VString (first_token "upper"); VString "x"]
           (first_token "upper" ++ ",x")
           (upper_called part_004) (upper_resolved part_004)
           (VArray [VString "DOOWB"; VString "x"]));
    reflexivity.
Defined.

(** ** Substitution of a value without [$] *)

Lemma GetSubstitution_dollar_free (matched before after replacement : string) :
  dollar_free replacement = true ->
  GetSubstitution matched before after replacement = replacement.
Proof.
  induction replacement as [|c r IH]; intros H; [reflexivity|].
  simpl in H. apply andb_true_iff in H. destruct H as [Hc Hr].
  cbn [GetSubstitution]. apply negb_true_iff in Hc. rewrite Hc.
  now rewrite (IH Hr).
Qed.

Lemma join_fold_prepend (sep a x : string) (l : list string) :
  fold_left (fun acc q => acc ++ sep ++ q) l (a ++ x)
  = a ++ fold_left (fun acc q => acc ++ sep ++ q) l x.
Proof.
  revert x. induction l as [|q l IH]; intros x; [reflexivity|].
  simpl. rewrite append_assoc. apply IH.
Qed.

Lemma join_with_cons (sep p q : string) (l : list string) :
  join_with sep (p :: q :: l) = p ++ sep ++ join_with sep (q :: l).
Proof.
  unfold join_with. simpl.
  rewrite <- (append_assoc p sep q), join_fold_prepend.
  now rewrite append_assoc.
Qed.

Lemma split_scan_cons (sep current : string) (skip : nat) (s : string) :
  exists x l, split_scan sep current skip s = x :: l.
Proof.
  revert current skip. induction s as [|c s IH]; intros current skip.
  - now exists current, [].
  - cbn [split_scan]. destruct skip as [|k]; [|apply IH].
    destruct (String.prefix sep (String c s)); [|apply IH].
    now eexists _, _.
Qed.

Lemma replace_scan_is_split_and_join (pat r : string) (s : string)
  (current before : string) (skip : nat) :
  dollar_free r = true ->
  current ++ replace_scan pat r before skip s
  = join_with r (split_scan pat current skip s).
Proof.
  intros Hr. revert current before skip.
  induction s as [|c s IH]; intros current before skip.
  - simpl. apply append_nil_r.
  - cbn [replace_scan split_scan]. destruct skip as [|k]; [|apply IH].
    destruct (String.prefix pat (String c s)).
    + rewrite (GetSubstitution_dollar_free _ _ _ _ Hr).
      destruct (split_scan_cons pat EmptyString (String.length pat - 1) s)
        as (x & l & E).
      rewrite E, join_with_cons, <- E.
      rewrite <- (IH EmptyString (before ++ String c EmptyString)
                    (String.length pat - 1)).
      reflexivity.
    + rewrite <- (IH (current ++ String c EmptyString)
                    (before ++ String c EmptyString) 0).
      now rewrite append_assoc.
Qed.

(** X18.  When the resolved value of an identifier, as a string, holds no
    [$], the step of [resolveIds] for the identifier substitutes it
    literally: [acc.replace(new RegExp(id, "g"), value)] then gives what
    [acc.split(id).join(value)], the substitution of [src/src/index.ts],
    gives -- every occurrence of the identifier replaced and the rest of
    the string unchanged. *)
Theorem substitution_without_dollar_is_literal :
  forall (s i r : string) (v : jsvalue) (st : AsyncHelpers),
    plain i = true ->
    i <> EmptyString ->
    s <> i ->
    ToString v = Some r ->
    dollar_free r = true ->
    reduce_step (VString s) (i, v) st
    = (Fulfilled (VString (join_with r (split i s))), st).
Proof.
  intros s i r v st Hp Hi Hs Hv Hr. unfold reduce_step.
  assert (E : strict_equals_string (VString s) i = false).
  { simpl. now apply String.eqb_neq. }
  rewrite E, Hp, Hv. unfold ret. do 2 f_equal.
  destruct i as [|c i]; [now elim Hi|].
  unfold replace_all, split.
  now rewrite <- (replace_scan_is_split_and_join _ r s EmptyString EmptyString 0 Hr).
Qed.

Lemma substitution_without_dollar_is_literal_witness :
  reduce_step (VString ("a " ++ first_token "x" ++ " b " ++ first_token "x"))
    (first_token "x", VNumber 42) (constructor None)
  = (Fulfilled
       (VString (join_with "42"
                   (split (first_token "x")
                      ("a " ++ first_token "x" ++ " b " ++ first_token "x")))),
     constructor None).
Proof.
  apply (substitution_without_dollar_is_literal
           ("a " ++ first_token "x" ++ " b " ++ first_token "x")
           (first_token "x") "42" (VNumber 42) (constructor None));
    try reflexivity; discriminate.
Defined.

(** The pieces of the witness, and the string put together again. *)
Example split_and_join :
  split (first_token "x") ("a " ++ first_token "x" ++ " b " ++ first_token "x")
  = ["a "; " b "; EmptyString]
  /\ join_with "42" ["a "; " b "; EmptyString] = "a 42 b 42".
Proof. split; reflexivity. Qed.

(** ** The [hash] of an argument *)



(** X20.  An argument object whose [hash] is [null], as the only argument
    of a record without [value] that is stored under its own identifier;
    the object has no own property [toString],
    [[object Object]] is no stored identifier and the prefix has no regular
    expression syntax character.  [part_002] tests
    [typeof arg.hash === "object"], which [null] passes, and
    [Object.entries(null)] then throws: [resolveId] is rejected and the
    implementation is not applied.  [part_004] tests [isObject(arg.hash)]
    and hands the argument to the implementation as it is; [resolveId]
    returns its result when [hasAsyncId] is false of it. *)
Theorem null_hash_argument :
  forall (fuel : nat) (k : string) (r : Token)
         (props : list (string * jsvalue)) (st : AsyncHelpers),
    plain (prefix st) = true ->
    assoc k (helperIds st) = Some r ->
    id r = k ->
    value r = None ->
    args r = [VObject props] ->
    assoc "hash" props = Some VNull ->
    assoc "toString" props = None ->
    assoc "[object Object]" (helperIds st) = None ->
    (exists e', resolveId part_002 (S fuel) (VString k) st = (Rejected e', st))
    /\ (forall v,
          settle (fn r) (ctx r) [VObject props] = Returns v ->
          token_free (prefix st) v = true ->
          fst (resolveId part_004 (S fuel) (VString k) st) = Fulfilled v).
Proof.
  intros fuel k r props st Hp Hr Hid Hv Hargs Hh Hts Hnone.
  assert (Hm : forall src, memoized src r r = false)
    by (intros src; unfold memoized; now rewrite Hv).
  split.
  - eexists. cbn [resolveId]. unfold resolveId_body, ToPropertyKey.
    cbn [ToString]. unfold bind at 1, ret at 1. unfold bind at 1, gets at 1.
    rewrite Hr, Hid, Hr, Hm.
    unfold bind at 1. unfold guarded_call, try_catch, bind at 1.
    rewrite Hargs. cbn [mapM]. unfold bind at 1.
    unfold resolve_arg, ToPropertyKey. cbn [ToString]. rewrite Hts.
    unfold bind at 1, ret at 1. unfold bind at 1, gets at 1. rewrite Hnone.
    change (inherited "[object Object]") with false. cbv iota.
    unfold takes_hash_branch, resolve_hash, get_hash. rewrite Hh.
    cbn [truthy typeof_object andb]. unfold throw. reflexivity.
  - intros v Hs Ht.
    assert (Eargs : mapM (resolve_arg part_004 (resolveId part_004 fuel))
                      (args r) st = (Fulfilled [VObject props], st)).
    { rewrite Hargs. cbn [mapM]. unfold bind at 1.
      unfold resolve_arg, ToPropertyKey. cbn [ToString]. rewrite Hts.
      unfold bind at 1, ret at 1. unfold bind at 1, gets at 1. rewrite Hnone.
      change (inherited "[object Object]") with false. cbv iota.
      unfold takes_hash_branch, get_hash. rewrite Hh. reflexivity. }
    rewrite (resolveId_unmemoized part_004 fuel (VString k) k r st st
               [VObject props] v eq_refl Hr Hid (Hm part_004) Eargs Hs).
    now rewrite deliver_token_free.
Qed.

Lemma null_hash_argument_witness :
  (exists e',
     resolveId part_002 1 (VString (first_token "echo"))
       (once part_002 "echo" echo [VObject [("hash", VNull)]])
     = (Rejected e', once part_002 "echo" echo [VObject [("hash", VNull)]]))
  /\ (forall v,
        settle (normalize echo) emptyObject [VObject [("hash", VNull)]]
        = Returns v ->
        token_free (prefix (once part_002 "echo" echo [VObject [("hash", VNull)]]))
          v = true ->
        fst (resolveId part_004 1 (VString (first_token "echo"))
               (once part_002 "echo" echo [VObject [("hash", VNull)]]))
        = Fulfilled v).
Proof.
  apply (null_hash_argument 0 (first_token "echo")
           {| id := first_token "echo"; name := "echo";
              args := [VObject [("hash", VNull)]]; fn := normalize echo;
              ctx := emptyObject; count := 1; value := None |}
           [("hash", VNull)]
           (once part_002 "echo" echo [VObject [("hash", VNull)]]));
    reflexivity.
Defined.

(** ** A stored value is never replaced *)

Lemma keeps_values_refl (src : source) (st : AsyncHelpers) :
  keeps_values src st st.
Proof. intros k r w Hr Hv _. now exists r. Qed.

Lemma keeps_values_trans (src : source) (a b c : AsyncHelpers) :
  keeps_values src a b -> keeps_values src b c -> keeps_values src a c.
Proof.
  intros H1 H2 k r w Hr Hv Hs.
  destruct (H1 k r w Hr Hv Hs) as (r1 & Hr1 & Hv1).
  exact (H2 k r1 w Hr1 Hv1 Hs).
Qed.

Lemma steady_pure {A : Type} (src : source) (m : M A) :
  (forall st, snd (m st) = st) -> steady src m.
Proof.
  intros H st I. rewrite H. split; [exact I | apply keeps_values_refl].
Qed.

Lemma steady_bind {A B : Type} (src : source) (m : M A) (k : A -> M B) :
  steady src m -> (forall a, steady src (k a)) -> steady src (bind m k).
Proof.
  intros Hm Hk st I. unfold bind. destruct (Hm st I) as [I1 K1].
  destruct (m st) as [[a|e| |] s1]; simpl in *; try (split; assumption).
  destruct (Hk a s1 I1) as [I2 K2].
  split; [exact I2 | exact (keeps_values_trans _ _ _ _ K1 K2)].
Qed.

Lemma steady_mapM {A B : Type} (src : source) (f : A -> M B) (l : list A) :
  (forall a, steady src (f a)) -> steady src (mapM f l).
Proof.
  intros H. induction l as [|a l IH]; [now apply steady_pure|].
  cbn [mapM]. apply steady_bind; [apply H|]. intros b.
  apply steady_bind; [exact IH|]. intros bs. now apply steady_pure.
Qed.

Lemma steady_hasAsyncId (src : source) (v : jsvalue) :
  steady src (hasAsyncId v).
Proof.
  apply steady_pure. intros st. unfold hasAsyncId, bind, gets.
  now destruct (plain (prefix st)).
Qed.

Lemma steady_ToPropertyKey (src : source) (v : jsvalue) :
  steady src (ToPropertyKey v).
Proof.
  apply steady_pure. intros st. unfold ToPropertyKey.
  now destruct (ToString v).
Qed.

(** The state in which a computation that has been run to its end stops. *)
Ltac ends_at G := unfold throw, ret, diverge, unmodelled in G; injection G as _ <-.

Section Steady.

Variable src : source.
Variable self : jsvalue -> M jsvalue.
Hypothesis steady_self : forall key, steady src (self key).

Lemma steady_resolve_element (x : jsvalue) :
  steady src (resolve_element self x).
Proof.
  unfold resolve_element. apply steady_bind; [apply steady_hasAsyncId|].
  intros []; [apply steady_self | now apply steady_pure].
Qed.

Lemma steady_resolve_hash (arg : jsvalue) : steady src (resolve_hash self arg).
Proof.
  unfold resolve_hash. destruct (get_hash arg); try now apply steady_pure.
  - apply steady_bind; [|intros; now apply steady_pure].
    apply steady_mapM. apply steady_resolve_element.
  - apply steady_bind; [|intros; now apply steady_pure].
    apply steady_mapM. intros kv.
    apply steady_bind; [apply steady_resolve_element|].
    intros; now apply steady_pure.
Qed.

Lemma steady_resolve_arg (arg : jsvalue) :
  steady src (resolve_arg src self arg).
Proof.
  unfold resolve_arg. apply steady_bind; [apply steady_ToPropertyKey|].
  intros k. apply steady_bind; [now apply steady_pure|]. intros ids.
  destruct (assoc k ids); [apply steady_self|].
  destruct (inherited k); [apply steady_self|].
  destruct (takes_hash_branch src arg); [apply steady_resolve_hash|].
  destruct arg; try now apply steady_pure.
  apply steady_bind; [|intros; now apply steady_pure].
  apply steady_mapM. apply steady_resolve_element.
Qed.

Lemma steady_resolveIds_body (str : jsvalue) :
  steady src (resolveIds_body self str).
Proof.
  unfold resolveIds_body. apply steady_bind; [now apply steady_pure|].
  intros ids. apply steady_bind.
  - apply steady_mapM. intros i.
    apply steady_bind; [apply steady_self | intros; now apply steady_pure].
  - intros res. apply steady_pure. intros st. apply reduce_state.
Qed.

Lemma steady_deliver (val : jsvalue) : steady src (deliver src self val).
Proof.
  assert (E : steady src (expand self val)).
  { unfold expand. apply steady_bind; [apply steady_hasAsyncId|].
    intros []; [apply steady_resolveIds_body | now apply steady_pure]. }
  unfold deliver. destruct src; [|exact E].
  destruct (negb (truthy val)); [now apply steady_pure | exact E].
Qed.

(** The assignment of [guarded_call] writes the record of the call itself,
    which the memo test has found without served value. *)
Lemma guarded_call_keeps_values (r : Token) (st : AsyncHelpers) :
  ids_ok st ->
  assoc (id r) (helperIds st) = Some r ->
  memoized src r r = false ->
  ids_ok (snd (guarded_call src self r st))
  /\ keeps_values src st (snd (guarded_call src self r st)).
Proof.
  intros I Hr Hm.
  destruct (steady_mapM src (resolve_arg src self) (args r)
              steady_resolve_arg st I) as [I1 K1].
  destruct (guarded_call src self r st) as [o s'] eqn:G. cbn [snd].
  unfold guarded_call, try_catch, bind at 1 in G.
  destruct (mapM (resolve_arg src self) (args r) st) as [[argz|e| |] st1];
    simpl in I1, K1;
    try (injection G as _ <-; split; assumption).
  unfold apply, bind at 1, modify in G.
  destruct (settle (fn r) (ctx r) argz) as [v|e];
    [|injection G as _ <-; split; [exact I1 | exact K1]].
  unfold bind at 1, ret at 1 in G. unfold assign_value, bind, gets in G.
  cbn [helperIds record_call] in G.
  destruct (assoc (id r) (helperIds st1)) as [r1|] eqn:Hr1;
    [|injection G as _ <-; split; [exact I1 | exact K1]].
  unfold modify in G. injection G as _ <-. split.
  - intros k x Hx. cbn [helperIds set_helperIds record_call] in Hx.
    destruct (String.eqb_spec k (id r)) as [->|Hne].
    + rewrite assoc_store_value_eq, Hr1 in Hx. injection Hx as <-.
      simpl. exact (I1 _ _ Hr1).
    + rewrite assoc_store_value_neq in Hx by exact Hne. exact (I1 _ _ Hx).
  - intros k x w Hx Hv Hs.
    assert (Hne : k <> id r).
    { intros ->. rewrite Hr in Hx. injection Hx as <-.
      unfold memoized, value_or_undefined in Hm. rewrite Hv in Hm.
      destruct src; [|discriminate].
      destruct Hs as [Hs|Hs]; [discriminate | congruence]. }
    destruct (K1 k x w Hx Hv Hs) as (x1 & Hx1 & Hv1).
    exists x1. split; [|exact Hv1].
    cbn [helperIds set_helperIds record_call].
    now rewrite assoc_store_value_neq.
Qed.

Lemma steady_resolveId_body (key : jsvalue) :
  steady src (resolveId_body src self key).
Proof.
  intros st I.
  destruct (resolveId_body src self key st) as [o s'] eqn:G. cbn [snd].
  unfold resolveId_body, ToPropertyKey in G.
  destruct (ToString key) as [k|];
    [|ends_at G; split; [exact I | apply keeps_values_refl]].
  unfold bind at 1, ret at 1 in G. unfold bind at 1, gets at 1 in G.
  destruct (assoc k (helperIds st)) as [r|] eqn:Hr.
  - pose proof (I k r Hr) as Hid. rewrite Hid, Hr in G.
    destruct (memoized src r r) eqn:Hm;
      [ends_at G; split; [exact I | apply keeps_values_refl]|].
    rewrite <- Hid in Hr.
    destruct (guarded_call_keeps_values r st I Hr Hm) as [I1 K1].
    unfold bind at 1 in G.
    destruct (guarded_call src self r st) as [[u|e| |] st1];
      simpl in I1, K1; try (ends_at G; split; assumption).
    unfold bind at 1, gets at 1 in G.
    destruct (assoc k (helperIds st1)) as [r'|];
      [|ends_at G; split; assumption].
    destruct (steady_deliver (value_or_undefined r') st1 I1) as [I2 K2].
    rewrite G in I2, K2. simpl in I2, K2.
    split; [exact I2 | exact (keeps_values_trans _ _ _ _ K1 K2)].
  - destruct (inherited k);
      [|ends_at G; split; [exact I | apply keeps_values_refl]].
    unfold resolve_member, bind, gets in G.
    destruct (assoc "undefined" (helperIds st)) as [at_id|];
      [|ends_at G; split; [exact I | apply keeps_values_refl]].
    destruct src, (value at_id); ends_at G;
      (split; [exact I | apply keeps_values_refl]).
Qed.

End Steady.

Lemma steady_resolveId (src : source) (fuel : nat) (key : jsvalue) :
  steady src (resolveId src fuel key).
Proof.
  revert key. induction fuel as [|n IH]; intros key.
  - now apply steady_pure.
  - simpl. now apply steady_resolveId_body.
Qed.

Lemma steady_resolveIds (src : source) (fuel : nat) (str : jsvalue) :
  steady src (resolveIds src fuel str).
Proof. apply steady_resolveIds_body. apply steady_resolveId. Qed.

Lemma perform_keeps_values (src : source) (op : operation) (st : AsyncHelpers) :
  invariant st -> keeps_values src st (snd (perform src op st)).
Proof.
  intros I.
  destruct op as [nm f|nm f|nm this arguments|fuel key|fuel str]; simpl.
  - destruct (registry_only_helper nm f st) as (_ & _ & P & _).
    unfold after. intros k r w Hr Hv _. exists r. now rewrite P.
  - destruct (registry_only_wrapHelper src nm f st) as (_ & _ & P & _).
    unfold after. intros k r w Hr Hv _. exists r. now rewrite P.
  - unfold invoke. destruct (assoc nm (wrappedHelpers st)) as [w0|];
      [|apply keeps_values_refl].
    pose proof (wrappedHelper_fresh w0 this arguments st (proj1 I)) as Fr.
    unfold wrappedHelper in *. cbn [fst snd] in *.
    intros k r w Hr Hv _. exists r. split; [|exact Hv].
    cbn [helperIds]. rewrite assoc_set_neq; [exact Hr|].
    intros ->. apply Fr. exact (assoc_in_keys _ _ _ Hr).
  - exact (proj2 (steady_resolveId src fuel key st (proj1 (proj2 I)))).
  - exact (proj2 (steady_resolveIds src fuel str st (proj1 (proj2 I)))).
Qed.

Lemma execute_keeps_values (src : source) (ops : list operation)
  (st : AsyncHelpers) :
  invariant st -> keeps_values src st (snd (execute src ops st)).
Proof.
  revert st. induction ops as [|op ops IH]; intros st I; simpl.
  - apply keeps_values_refl.
  - pose proof (perform_keeps_values src op st I) as K1.
    pose proof (proj1 (perform_spec src op st I)) as I1.
    destruct (perform src op st) as [t st1]. simpl in *.
    pose proof (IH st1 I1) as K2.
    destruct (execute src ops st1) as [ts st2]. simpl in *.
    exact (keeps_values_trans _ _ _ _ K1 K2).
Qed.

Lemma execute_app (src : source) (ops more : list operation)
  (st : AsyncHelpers) :
  snd (execute src (ops ++ more) st)
  = snd (execute src more (snd (execute src ops st))).
Proof.
  revert st. induction ops as [|op ops IH]; intros st; [reflexivity|].
  simpl. destruct (perform src op st) as [t st1].
  specialize (IH st1).
  destruct (execute src (ops ++ more) st1) as [ts st2].
  destruct (execute src ops st1) as [ts' st2']. simpl in *.
  rewrite IH. now destruct (execute src more st2').
Qed.

(** X21.  A stored value is never replaced.  Once the record of an
    identifier holds a [value] that the memo test serves -- any value in
    [part_004], a string in [part_002] -- it holds the same value after
    every further sequence of calls on the instance, whatever they are. *)
Theorem stored_value_is_never_replaced :
  forall (src : source) (options_prefix : option string)
         (ops more : list operation) (key w : jsvalue),
    modelled src options_prefix (ops ++ more) = true ->
    memo key (reached src options_prefix ops) = Some w ->
    (src = part_004 \/ is_string w = true) ->
    memo key (reached src options_prefix (ops ++ more)) = Some w.
Proof.
  intros src options_prefix ops more key w _ Hm Hs.
  unfold reached in *. rewrite execute_app.
  pose proof (execute_keeps_values src more _
                (reached_invariant src options_prefix ops)) as K.
  unfold reached in K. unfold memo in *.
  destruct (ToString key) as [k|]; [|discriminate].
  destruct (assoc k (helperIds (snd (execute src ops (constructor options_prefix)))))
    as [r|] eqn:Hr; [|discriminate].
  destruct (K k r w Hr Hm Hs) as (r' & Hr' & Hv'). now rewrite Hr'.
Qed.

Lemma stored_value_is_never_replaced_witness :
  memo (VString (first_token "upper"))
    (reached part_002 None
       ((call_upper ++ [OpResolveId 2 (VString (first_token "upper"))])
        ++ [OpInvoke "upper" VUndefined [VString "x"];
            OpResolveIds 2 (VString "x")])%list)
  = Some (VString "DOOWB").
Proof.
  apply (stored_value_is_never_replaced part_002 None
           (call_upper ++ [OpResolveId 2 (VString (first_token "upper"))])%list
           [OpInvoke "upper" VUndefined [VString "x"];
            OpResolveIds 2 (VString "x")]
           (VString (first_token "upper")) (VString "DOOWB")).
  - reflexivity.
  - reflexivity.
  - right. reflexivity.
Defined.

(** ** What the memo holds *)



(** In the witness the first resolution returns the text with the
    identifier resolved, the second the stored text. *)
Example first_and_second_resolution_of_a_block :
  forall src : source,
    fst (resolveId src 3 (VString (make_id defaultPrefix "block" 2))
           (reached src None call_block))
    = Fulfilled (VString "[DOOWB]")
    /\ fst (resolveId src 3 (VString (make_id defaultPrefix "block" 2))
              (after (resolveId src 3
                        (VString (make_id defaultPrefix "block" 2)))
                 (reached src None call_block)))
       = Fulfilled (VString ("[" ++ first_token "upper" ++ "]")).
Proof. intros []; split; reflexivity. Qed.

(** ** [helper] with arguments of any type *)

Lemma forEach_map {A B : Type} (g : B -> M unit) (h : A -> B) (l : list A) :
  forEach g (map h l) = forEach (fun a => g (h a)) l.
Proof.
  induction l as [|a l IH]; [reflexivity|]. simpl. now rewrite IH.
Qed.

Lemma forEach_pointwise {A : Type} (f g : A -> M unit) (l : list A)
  (st : AsyncHelpers) :
  (forall a s, f a s = g a s) -> forEach f l st = forEach g l st.
Proof.
  intros H. revert st. induction l as [|a l IH]; intros st; [reflexivity|].
  simpl. unfold bind. rewrite H.
  destruct (g a st) as [[u|e| |] s]; try reflexivity. apply IH.
Qed.

Lemma helper_each_functions (m : list (string * Helper)) (st : AsyncHelpers) :
  forEach (fun kv : string * argument =>
             helper_entry (fst kv) (snd kv) ;;; ret tt) (functions m) st
  = forEach (fun kv : string * option Helper =>
               helper_named (fst kv) (snd kv) ;;; ret tt)
      (map (fun kv => (fst kv, Some (snd kv))) m) st.
Proof.
  unfold functions. rewrite !forEach_map. apply forEach_pointwise.
  intros [k h] s. cbn [fst snd]. unfold bind. now destruct k.
Qed.

(** X23.  [helper(object)] is not atomic.  When a property of the object
    holds a truthy value that is not a function, [helper] throws the
    [TypeError] on [fn]; the properties listed before it, all functions,
    have by then been defined as by a call of their own, and the
    properties after it are not looked at. *)
Theorem helper_stops_at_the_first_bad_entry :
  forall (src : source) (good : list (string * Helper)) (k : string)
         (bad fn : argument) (rest : list (string * argument))
         (st : AsyncHelpers),
    k <> EmptyString ->
    truthy_not_function bad = true ->
    ~ In "__proto__" (map fst good) ->
    helper_any src (ObjectOf (functions good ++ (k, bad) :: rest)%list) fn st
    = (Rejected expect_fn, after (helper (helpers_object good) None) st).
Proof.
  intros src good k bad fn rest st Hk Hbad _.
  destruct (helper_object_loop good st) as (s & E & _).
  assert (Run : helper (helpers_object good) None st = (Fulfilled This, s)).
  { unfold helper, helpers_object, bind at 1. now rewrite E. }
  assert (T : helper_entry k bad s = (Rejected expect_fn, s)).
  { destruct k as [|c k]; [now elim Hk|].
    destruct bad as [v|h|m]; simpl in Hbad; try discriminate;
      cbn [helper_entry]; [now rewrite Hbad | reflexivity]. }
  assert (Loop : forEach (fun kv : string * argument =>
                            helper_entry (fst kv) (snd kv) ;;; ret tt)
                   (functions good ++ (k, bad) :: rest)%list st
                 = (Rejected expect_fn, s)).
  { rewrite forEach_app. unfold bind at 1.
    rewrite helper_each_functions, E. cbn [forEach fst snd].
    unfold bind. now rewrite T. }
  unfold after. rewrite Run. cbn [snd].
  unfold helper_any, helper_each, bind at 1. now rewrite Loop.
Qed.

Lemma helper_stops_at_the_first_bad_entry_witness :
  helper_any part_002
    (ObjectOf (functions [("upper", upper)]
               ++ ("abc", Data (VNumber 123)) :: [("lower", Function lower)])%list)
    (Data VUndefined) (constructor None)
  = (Rejected expect_fn,
     after (helper (helpers_object [("upper", upper)]) None) (constructor None)).
Proof.
  apply (helper_stops_at_the_first_bad_entry part_002 [("upper", upper)] "abc"
           (Data (VNumber 123)) (Data VUndefined) [("lower", Function lower)]
           (constructor None)).
  - discriminate.
  - reflexivity.
  - simpl. intuition discriminate.
Defined.

(** The type errors of the test suite, and the two readings of [null] and
    of an array as a name. *)
Example helper_type_errors :
  forall src : source,
    helper_any src (Data (VNumber 123)) (Data VUndefined) (constructor None)
    = (Rejected expect_name, constructor None)
    /\ helper_any src (Data (VString "abc")) (Data (VNumber 123))
         (constructor None)
       = (Rejected expect_fn, constructor None)
    /\ helper_any src (Data (VObject [("abc", VNumber 123)])) (Data VUndefined)
         (constructor None)
       = (Rejected expect_fn, constructor None).
Proof. intros []; repeat split. Qed.

Example helper_of_null_and_of_an_array :
  fst (helper_any part_002 (Data VNull) (Data VUndefined) (constructor None))
  = Rejected (JsTypeError "Cannot convert undefined or null to object")
  /\ fst (helper_any part_004 (Data VNull) (Data VUndefined) (constructor None))
     = Fulfilled (AllRaw [])
  /\ fst (helper_any part_002 (Data (VArray [VNumber 1])) (Data VUndefined)
            (constructor None))
     = Rejected expect_fn
  /\ fst (helper_any part_004 (Data (VArray [VNumber 1])) (Data VUndefined)
            (constructor None))
     = Rejected expect_name.
Proof. repeat split. Qed.

(** On a name and a function, and on an object of functions, [helper_any]
    is the [helper] of the development above. *)
Lemma helper_any_is_helper (src : source) (nm : string) (f : Helper)
  (st : AsyncHelpers) :
  helper_any src (Data (VString nm)) (Function f) st
  = helper (Name nm) (Some f) st.
Proof. now destruct nm. Qed.

Lemma helper_any_of_functions (src : source) (m : list (string * Helper))
  (fn : argument) (st : AsyncHelpers) :
  helper_any src (ObjectOf (functions m)) fn st
  = helper (helpers_object m) None st.
Proof.
  unfold helper_any, helper_each, helper, helpers_object, bind.
  now rewrite helper_each_functions.
Qed.

(** ** [wrapHelper] with an object of functions *)

Lemma wrap_named_fresh (src : source) (k : string) (h : Helper)
  (st : AsyncHelpers) :
  inherited k = false ->
  raw_lookup k st = None ->
  assoc k (wrappedHelpers st) = None ->
  src = part_002 \/ wrapped_prop h = false ->
  wrap_named src k (Some h) st
  = (Fulfilled (TheWrapped (wrapped_as k h)),
     set_wrappedHelpers (assoc_set k (wrapped_as k h))
       (set_rawHelpers (assoc_set k (Some h)) st)).
Proof.
  intros Hin Hraw Hw Hs.
  unfold wrap_named, bind at 1, gets at 1. unfold bind at 1, gets at 1.
  rewrite Hw, Hraw, Hin. cbn [first_some]. destruct src; [reflexivity|].
  destruct Hs as [Hs|Hs]; [discriminate|].
  now rewrite Hs, (clear_wrapped_unwrapped h Hs).
Qed.

Lemma wrap_entries (src : source) (m : list (string * Helper))
  (st : AsyncHelpers) :
  NoDup (map fst m) ->
  (forall k h, In (k, h) m ->
     k <> EmptyString /\ inherited k = false /\ raw_lookup k st = None
     /\ assoc k (wrappedHelpers st) = None
     /\ (src = part_002 \/ wrapped_prop h = false)) ->
  exists st',
    forEach (fun kv : string * option Helper =>
               match fst kv with
               | EmptyString => wrap_all (wrap_named src)
               | k => wrap_named src k (snd kv) ;;; ret tt
               end)
      (map (fun kv => (fst kv, Some (snd kv))) m) st
    = (Fulfilled tt, st')
    /\ helperIds st' = helperIds st
    /\ counter st' = counter st
    /\ (forall k, ~ In k (map fst m) ->
          assoc k (wrappedHelpers st') = assoc k (wrappedHelpers st)
          /\ assoc k (rawHelpers st') = assoc k (rawHelpers st))
    /\ (forall k h, In (k, h) m ->
          assoc k (wrappedHelpers st') = Some (wrapped_as k h)
          /\ raw_lookup k st' = Some h).
Proof.
  revert st. induction m as [|[k h] m IH]; intros st N H.
  - exists st. simpl. split; [reflexivity|]. split; [reflexivity|].
    split; [reflexivity|]. split; [now split | intros ? ? []].
  - inversion N as [|? ? Nk N']. subst.
    destruct (H k h (or_introl eq_refl)) as (Hk & Hin & Hraw & Hw & Hs).
    set (st1 := set_wrappedHelpers (assoc_set k (wrapped_as k h))
                  (set_rawHelpers (assoc_set k (Some h)) st)).
    assert (H1 : forall k' h', In (k', h') m ->
              k' <> EmptyString /\ inherited k' = false
              /\ raw_lookup k' st1 = None
              /\ assoc k' (wrappedHelpers st1) = None
              /\ (src = part_002 \/ wrapped_prop h' = false)).
    { intros k' h' Hin'.
      destruct (H k' h' (or_intror Hin')) as (A & B & C & D & E).
      assert (Hne : k' <> k).
      { intros ->. apply Nk. change k with (fst (k, h')). now apply in_map. }
      repeat split; try assumption.
      - unfold raw_lookup, st1. simpl. rewrite assoc_set_neq by exact Hne.
        exact C.
      - unfold st1. simpl. rewrite assoc_set_neq by exact Hne. exact D. }
    destruct (IH st1 N' H1) as (st' & E & I & C & O & S).
    exists st'. split.
    { pose proof (wrap_named_fresh src k h st Hin Hraw Hw Hs) as W.
      fold st1 in W. clear - W Hk E.
      destruct k as [|c k']; [now elim Hk|].
      cbn [map forEach fst snd]. unfold bind at 1. unfold bind at 1.
      rewrite W. exact E. }
    split; [now rewrite I|]. split; [now rewrite C|]. split.
    + intros k' Hk'. simpl in Hk'.
      destruct (O k') as [O1 O2]; [tauto|]. rewrite O1, O2. unfold st1. simpl.
      rewrite !assoc_set_neq by (intros ->; tauto). now split.
    + intros k' h' [[= <- <-]|Hin'].
      * destruct (O k Nk) as [O1 O2]. unfold raw_lookup. rewrite O1, O2.
        unfold st1. simpl. rewrite !assoc_set_eq. now split.
      * now apply S.
Qed.

(** X24.  [wrapHelper(object)] with an object of functions, none of whose
    keys has a raw or a wrapped helper yet, defines and wraps every one of
    them: it returns [wrappedHelpers], in which every key of the object
    holds a function made from the property of that key, and [helper(key)]
    returns that property.  No other name is touched, and neither are the
    records or the counter.  In [part_004] this needs that the property
    [wrapped] of the functions is not truthy. *)
Theorem wrapHelper_defines_and_wraps_every_entry :
  forall (src : source) (m : list (string * Helper)) (st : AsyncHelpers),
    NoDup (map fst m) ->
    (forall k h, In (k, h) m ->
       k <> EmptyString /\ inherited k = false /\ raw_lookup k st = None
       /\ assoc k (wrappedHelpers st) = None
       /\ (src = part_002 \/ wrapped_prop h = false)) ->
    exists st',
      wrapHelper src (helpers_object m) None st
      = (Fulfilled (AllWrapped (wrappedHelpers st')), st')
      /\ (forall k h, In (k, h) m ->
            assoc k (wrappedHelpers st')
            = Some {| helperName := k; wrappedFn := normalize h |}
            /\ fst (helper (Name k) None st') = Fulfilled (Raw (Some h)))
      /\ (forall k, ~ In k (map fst m) ->
            assoc k (wrappedHelpers st') = assoc k (wrappedHelpers st)
            /\ assoc k (rawHelpers st') = assoc k (rawHelpers st))
      /\ helperIds st' = helperIds st
      /\ counter st' = counter st.
Proof.
  intros src m st N H.
  destruct (wrap_entries src m st N H) as (st' & E & I & C & O & S).
  exists st'. split.
  - unfold wrapHelper, helpers_object, wrapHelper_with, bind at 1.
    now rewrite E.
  - split; [|split; [exact O | split; [exact I | exact C]]].
    intros k h Hin. destruct (S k h Hin) as [S1 S2]. split; [exact S1|].
    destruct (H k h Hin) as (Hk & _).
    apply helper_lookup; [exact Hk|]. now apply raw_lookup_some.
Qed.

Lemma wrapHelper_defines_and_wraps_every_entry_witness :
  exists st',
    wrapHelper part_004 (helpers_object [("upper", upper); ("lower", lower)])
      None (constructor None)
    = (Fulfilled (AllWrapped (wrappedHelpers st')), st')
    /\ (forall k h, In (k, h) [("upper", upper); ("lower", lower)] ->
          assoc k (wrappedHelpers st')
          = Some {| helperName := k; wrappedFn := normalize h |}
          /\ fst (helper (Name k) None st') = Fulfilled (Raw (Some h)))
    /\ (forall k, ~ In k (map fst [("upper", upper); ("lower", lower)]) ->
          assoc k (wrappedHelpers st')
          = assoc k (wrappedHelpers (constructor None))
          /\ assoc k (rawHelpers st') = assoc k (rawHelpers (constructor None)))
    /\ helperIds st' = helperIds (constructor None)
    /\ counter st' = counter (constructor None).
Proof.
  apply (wrapHelper_defines_and_wraps_every_entry part_004
           [("upper", upper); ("lower", lower)] (constructor None)).
  - repeat constructor; simpl; intuition discriminate.
  - intros k h [[= <- <-]|[[= <- <-]|[]]]; repeat split;
      try discriminate; now right.
Defined.

(** ** [resolveIds] of a value that is not a string *)

(** X25.  [resolveIds] of a value that is not a string.  While the instance
    has no record, the value is returned as it is.  Once there is a record,
    and the records resolve, the first step of the reduction calls
    [replace] on the value and [resolveIds] is rejected with a
    [TypeError]. *)
Theorem resolveIds_of_a_non_string :
  forall (src : source) (fuel : nat) (str : jsvalue) (st st' : AsyncHelpers)
         (res : list (string * jsvalue)),
    is_string str = false ->
    resolve_keys (resolveId src fuel) (keys (helperIds st)) st
    = (Fulfilled res, st') ->
    (forall i rest, keys (helperIds st) = i :: rest -> plain i = true) ->
    (helperIds st = [] ->
     resolveIds src fuel str st = (Fulfilled str, st))
    /\ (helperIds st <> [] ->
        exists m, resolveIds src fuel str st = (Rejected (JsTypeError m), st')).
Proof.
  intros src fuel str st st' res Hs Hres Hp. split.
  - intros E. unfold resolveIds, resolveIds_body, bind, gets.
    rewrite E. reflexivity.
  - intros E. unfold resolveIds, resolveIds_body, bind at 1, gets at 1.
    unfold bind at 1. rewrite Hres.
    pose proof (resolve_keys_fst _ _ _ _ _ Hres) as Hfst.
    destruct (helperIds st) as [|[i r] ids]; [now elim E|].
    destruct res as [|[i' v] res]; [discriminate|].
    simpl in Hfst. injection Hfst as -> _.
    pose proof (Hp i (keys ids) eq_refl) as Hi.
    cbn [foldM]. unfold bind, reduce_step.
    assert (Q : strict_equals_string str i = false) by now destruct str.
    rewrite Q, Hi.
    destruct str; try discriminate; now eexists.
Qed.

Lemma resolveIds_of_a_non_string_witness :
  (helperIds (upper_called part_004) = [] ->
   resolveIds part_004 2 (VNumber 5) (upper_called part_004)
   = (Fulfilled (VNumber 5), upper_called part_004))
  /\ (helperIds (upper_called part_004) <> [] ->
      exists m,
        resolveIds part_004 2 (VNumber 5) (upper_called part_004)
        = (Rejected (JsTypeError m), upper_resolved part_004)).
Proof.
  apply (resolveIds_of_a_non_string part_004 2 (VNumber 5)
           (upper_called part_004) (upper_resolved part_004)
           [(first_token "upper", VString "DOOWB")]).
  - reflexivity.
  - reflexivity.
  - intros i rest [= <- _]. reflexivity.
Defined.

(** On a new instance [resolveIds] returns what it is given, and after a
    call of a wrapped helper it rejects [undefined]. *)
Example resolveIds_of_undefined :
  forall src : source,
    fst (resolveIds src 2 VUndefined (constructor None)) = Fulfilled VUndefined
    /\ fst (resolveIds src 2 VUndefined (upper_called src))
       = Rejected (JsTypeError
                     "Cannot read properties of undefined (reading 'replace')").
Proof. intros []; split; reflexivity. Qed.

(** * The older class of [part_004] *)

(** ** Its registry *)

Lemma older_get_stored (nm : string) (s : Older.Stored)
  (st : Older.AsyncHelpers) :
  nm <> EmptyString ->
  assoc nm (Older.allHelpers st) = Some s ->
  Older.get (VString nm) st = Fulfilled (Older.TheHelper (Some s)).
Proof.
  intros Hnm H. destruct nm as [|c nm]; [now elim Hnm|].
  unfold Older.get. now rewrite H.
Qed.

(** X26.  [helper(name, fn)] of the older class, with a non-empty name
    (other than [__proto__]) and a function, stores under the name the
    function itself when it is neither an async function nor written with
    a callback, and the closure [wrapped] around it otherwise; [get(name)]
    returns what was stored.  What [get] returns for another name, the
    records and the counter are as before. *)
Theorem older_helper_stores_by_kind :
  forall (nm : string) (f : Older.Declared) (st : Older.AsyncHelpers),
    nm <> EmptyString ->
    nm <> "__proto__" ->
    exists st',
      Older.helper (VString nm) (inr f) st = (Fulfilled tt, st')
      /\ Older.get (VString nm) st'
         = Fulfilled
             (Older.TheHelper
                (Some (if Older.async_tag f || isAsyncWithCb (Older.declared f)
                       then Older.Wrapped nm (normalize (Older.declared f))
                       else Older.Kept f)))
      /\ (forall nm', nm' <> EmptyString -> nm' <> nm ->
            Older.get (VString nm') st' = Older.get (VString nm') st)
      /\ Older.ids st' = Older.ids st
      /\ Older.counter st' = Older.counter st.
Proof.
  intros nm f st Hnm Hp.
  exists (Older.set_allHelpers
            (assoc_set nm (Older.stored_for nm f)) st).
  split.
  { destruct nm as [|c nm]; [now elim Hnm|]. unfold Older.helper.
    apply String.eqb_neq in Hp. now rewrite Hp. }
  split.
  { apply older_get_stored; [exact Hnm|]. simpl. apply assoc_set_eq. }
  split; [|now split].
  intros nm' Hnm' Hne. unfold Older.get.
  destruct nm' as [|a s]; [now elim Hnm'|].
  simpl. now rewrite assoc_set_neq.
Qed.

Lemma older_helper_stores_by_kind_witness :
  exists st',
    Older.helper (VString "upper")
      (inr {| Older.declared := upper; Older.async_tag := false |})
      (Older.constructor None)
    = (Fulfilled tt, st')
    /\ Older.get (VString "upper") st'
       = Fulfilled
           (Older.TheHelper
              (Some (if false || isAsyncWithCb upper
                     then Older.Wrapped "upper" (normalize upper)
                     else Older.Kept {| Older.declared := upper;
                                        Older.async_tag := false |})))
    /\ (forall nm', nm' <> EmptyString -> nm' <> "upper" ->
          Older.get (VString nm') st'
          = Older.get (VString nm') (Older.constructor None))
    /\ Older.ids st' = Older.ids (Older.constructor None)
    /\ Older.counter st' = Older.counter (Older.constructor None).
Proof.
  apply (older_helper_stores_by_kind "upper"
           {| Older.declared := upper; Older.async_tag := false |}
           (Older.constructor None)); discriminate.
Defined.

(** ** Its identifiers *)

(** The text after the last occurrence of a character. *)
Lemma last_field (c : ascii) (a b x y : string) :
  ~ In c (list_ascii_of_string x) -> ~ In c (list_ascii_of_string y) ->
  a ++ String c x = b ++ String c y -> x = y.
Proof.
  intros Hx Hy. revert b.
  induction a as [|d a IH]; intros [|e b] H; simpl in H.
  - now injection H.
  - injection H as _ H. exfalso. apply Hx. rewrite H, list_of_append.
    apply in_or_app. right. now left.
  - injection H as _ H. exfalso. apply Hy. rewrite <- H, list_of_append.
    apply in_or_app. right. now left.
  - injection H as _ H. now apply (IH b).
Qed.

Lemma string_of_uint_dollar_free (d : Decimal.uint) :
  ~ In "$"%char (list_ascii_of_string (NilEmpty.string_of_uint d)).
Proof.
  induction d; simpl; [tauto | intros [H|H]; [discriminate H | tauto] ..].
Qed.

Lemma older_make_id_counter (now now' : nat) (nm nm' : string) (n n' : nat) :
  Older.make_id now nm n = Older.make_id now' nm' n' -> n = n'.
Proof.
  unfold Older.make_id. intros H.
  apply append_inv_head in H.
  apply decimal_inj.
  apply (last_field "$" (decimal now ++ "$" ++ nm) (decimal now' ++ "$" ++ nm'));
    try apply string_of_uint_dollar_free.
  apply (append_inv_tail _ _ "$}").
  rewrite !append_assoc. simpl in H |- *. exact H.
Qed.

Lemma older_store_value_keys (i : string) (v : jsvalue)
  (l : list (string * Older.Token)) :
  keys (Older.store_value i v l) = keys l.
Proof.
  induction l as [|[k r] l IH]; [reflexivity|]. simpl.
  destruct (String.eqb i k); simpl; [reflexivity | now rewrite IH].
Qed.

Lemma older_resolve_record_keys (r : Older.Token) (st : Older.AsyncHelpers) :
  keys (Older.ids (snd (Older.resolve_record r st))) = keys (Older.ids st)
  /\ Older.counter (snd (Older.resolve_record r st)) = Older.counter st.
Proof.
  unfold Older.resolve_record.
  destruct (Older.start_all (Older.ids st) (Older.args r)) as [ps|e| |];
    try (now split).
  destruct (Older.await_all ps) as [argz|e| |]; try (now split).
  destruct (settle (Older.fn r) (Older.context r) argz); [|now split].
  destruct (assoc (Older.id r) (Older.ids st)); [|now split].
  simpl. split; [apply older_store_value_keys | reflexivity].
Qed.

Lemma older_resolve_records_keys (l : list Older.Token)
  (st : Older.AsyncHelpers) :
  keys (Older.ids (snd (Older.resolve_records l st))) = keys (Older.ids st)
  /\ Older.counter (snd (Older.resolve_records l st)) = Older.counter st.
Proof.
  revert st. induction l as [|r l IH]; intros st; [now split|].
  cbn [Older.resolve_records].
  destruct (older_resolve_record_keys r st) as [K C].
  destruct (Older.resolve_record r st) as [[u|e| |] s];
    cbn [snd] in *; try (split; assumption).
  destruct (IH s) as [K' C']. split; congruence.
Qed.

Lemma older_resolve_keys (str : jsvalue) (st : Older.AsyncHelpers) :
  keys (Older.ids (snd (Older.resolve str st))) = keys (Older.ids st)
  /\ Older.counter (snd (Older.resolve str st)) = Older.counter st.
Proof.
  unfold Older.resolve.
  pose proof (older_resolve_records_keys (map snd (Older.ids st)) st) as H.
  destruct (Older.resolve_records (map snd (Older.ids st)) st)
    as [[u|e| |] s]; exact H.
Qed.

Lemma older_helper_ids (name : jsvalue) (fn : jsvalue + Older.Declared)
  (st : Older.AsyncHelpers) :
  Older.ids (snd (Older.helper name fn st)) = Older.ids st
  /\ Older.counter (snd (Older.helper name fn st)) = Older.counter st.
Proof.
  unfold Older.helper. destruct name; try (now split).
  destruct s; [now split|]. destruct fn; [now split|].
  destruct (String.eqb _ _); now split.
Qed.

Lemma older_helper_each_ids (m : list (string * (jsvalue + Older.Declared)))
  (st : Older.AsyncHelpers) :
  Older.ids (snd (Older.helper_each m st)) = Older.ids st
  /\ Older.counter (snd (Older.helper_each m st)) = Older.counter st.
Proof.
  revert st. induction m as [|[k fn] m IH]; intros st; [now split|].
  cbn [Older.helper_each].
  destruct (older_helper_ids (VString k) fn st) as [I C].
  destruct (Older.helper (VString k) fn st) as [[u|e| |] s];
    cbn [snd] in *; try (split; assumption).
  destruct (IH s) as [I' C']. split; congruence.
Qed.

Lemma older_perform_spec (op : Older.operation) (st : Older.AsyncHelpers) :
  Older.bounded st ->
  Older.bounded (snd (Older.perform op st))
  /\ keys (Older.ids (snd (Older.perform op st)))
     = (keys (Older.ids st)
        ++ match fst (Older.perform op st) with
           | Some t => [t]
           | None => []
           end)%list
  /\ (forall t, fst (Older.perform op st) = Some t ->
        ~ In t (keys (Older.ids st))
        /\ String.prefix "{$ASYNCID$" t = true).
Proof.
  intros B.
  assert (Same : forall st', keys (Older.ids st') = keys (Older.ids st) ->
                   Older.counter st' = Older.counter st ->
                   Older.bounded st'
                   /\ keys (Older.ids st') = (keys (Older.ids st) ++ [])%list
                   /\ (forall t, @None string = Some t ->
                         ~ In t (keys (Older.ids st))
                         /\ String.prefix "{$ASYNCID$" t = true)).
  { intros st' K C. split; [|split; [now rewrite app_nil_r | discriminate]].
    intros k Hk. rewrite K in Hk. destruct (B k Hk) as (now & nm & n & E & L).
    exists now, nm, n. split; [exact E | now rewrite C]. }
  destruct op as [name fn|obj|name now this arguments|str]; simpl.
  - destruct (older_helper_ids name fn st) as [I C].
    apply Same; [now rewrite I | exact C].
  - assert (H : Older.ids (snd (Older.helpers obj st)) = Older.ids st
                /\ Older.counter (snd (Older.helpers obj st))
                   = Older.counter st).
    { unfold Older.helpers. destruct obj as [v|m];
        [|apply older_helper_each_ids].
      destruct v; try (now split). apply older_helper_each_ids. }
    destruct H as [I C]. apply Same; [now rewrite I | exact C].
  - destruct (assoc name (Older.allHelpers st)) as [[f|nm func]|];
      try (apply Same; reflexivity).
    assert (Fresh : ~ In (Older.make_id now nm (S (Older.counter st)))
                      (keys (Older.ids st))).
    { intros Hin. destruct (B _ Hin) as (now' & nm' & n' & E & L).
      apply older_make_id_counter in E. lia. }
    simpl. split; [|split].
    + intros k Hk. simpl in Hk. apply keys_assoc_set in Hk.
      destruct Hk as [Hk| ->].
      * destruct (B k Hk) as (now' & nm' & n' & E & L).
        exists now', nm', n'. split; [exact E | simpl; lia].
      * exists now, nm, (S (Older.counter st)). split; [reflexivity | simpl; lia].
    + apply keys_assoc_set_new. now apply assoc_none_keys.
    + intros t [= <-]. split; [exact Fresh | apply prefix_append].
  - destruct (older_resolve_keys str st) as [K C]. now apply Same.
Qed.

Lemma older_execute_spec (ops : list Older.operation)
  (st : Older.AsyncHelpers) :
  Older.bounded st ->
  keys (Older.ids (snd (Older.execute ops st)))
  = (keys (Older.ids st) ++ fst (Older.execute ops st))%list
  /\ NoDup (fst (Older.execute ops st))
  /\ (forall t, In t (fst (Older.execute ops st)) ->
        ~ In t (keys (Older.ids st))
        /\ String.prefix "{$ASYNCID$" t = true).
Proof.
  revert st. induction ops as [|op ops IH]; intros st B; simpl.
  - rewrite app_nil_r. split; [reflexivity|]. split; [constructor|].
    intros t [].
  - destruct (older_perform_spec op st B) as (B1 & K1 & T1).
    destruct (Older.perform op st) as [t st1]. simpl in *.
    destruct (IH st1 B1) as (K2 & N2 & T2).
    destruct (Older.execute ops st1) as [ts st2]. simpl in *.
    rewrite K2, K1. destruct t as [x|]; simpl.
    + destruct (T1 x eq_refl) as [F1 P1]. split; [now rewrite <- app_assoc|].
      split.
      * constructor; [|exact N2]. intros Hin.
        destruct (T2 x Hin) as [F2 _]. apply F2. rewrite K1.
        apply in_or_app. right. now left.
      * intros t [<-|Hin]; [now split|].
        destruct (T2 t Hin) as [F2 P2]. split; [|exact P2].
        intros C. apply F2. rewrite K1. apply in_or_app. now left.
    + rewrite app_nil_r. split; [reflexivity|]. split; [exact N2|].
      intros t Hin. destruct (T2 t Hin) as [F2 P2]. split; [|exact P2].
      intros C. apply F2. rewrite K1, app_nil_r. exact C.
Qed.

(** X27.  The identifiers of the older class.  After any sequence of
    [helper], [helpers], helper and [resolve] calls on a new instance, the
    identifiers that its wrapped helpers have returned are pairwise
    distinct, whatever [Date.now()] returned at each call and whatever the
    names are; they are the keys of [ids], in the order of the calls; and
    each starts with [{$ASYNCID$], whatever prefix the instance was given. *)
Theorem older_identifiers_are_distinct :
  forall (options_prefix : option string) (ops : list Older.operation),
    NoDup (fst (Older.execute ops (Older.constructor options_prefix)))
    /\ keys (Older.ids (snd (Older.execute ops
                               (Older.constructor options_prefix))))
       = fst (Older.execute ops (Older.constructor options_prefix))
    /\ (forall t,
          In t (fst (Older.execute ops (Older.constructor options_prefix))) ->
          String.prefix "{$ASYNCID$" t = true).
Proof.
  intros options_prefix ops.
  destruct (older_execute_spec ops (Older.constructor options_prefix))
    as (K & N & T).
  { intros k []. }
  split; [exact N|]. split; [exact K|].
  intros t Hin. exact (proj2 (T t Hin)).
Qed.

(** With a custom prefix and a clock that stands still. *)
Example older_identifiers_ignore_the_prefix :
  fst (Older.execute
         [Older.OpHelper (VString "upper")
            (inr {| Older.declared := upper; Older.async_tag := true |});
          Older.OpCall "upper" 1700 VUndefined [VString "a"];
          Older.OpCall "upper" 1700 VUndefined [VString "a"]]
         (Older.constructor (Some "{$custom$prefix$$")))
  = ["{$ASYNCID$1700$upper$1$}"; "{$ASYNCID$1700$upper$2$}"].
Proof. reflexivity. Qed.

(** ** Its resolution *)

Lemma replace_all_is_split_and_join (pat r s : string) :
  pat <> EmptyString ->
  dollar_free r = true ->
  replace_all pat r s = join_with r (split pat s).
Proof.
  intros Hp Hr. destruct pat as [|c pat]; [now elim Hp|].
  unfold replace_all, split.
  now rewrite <- (replace_scan_is_split_and_join _ r s EmptyString EmptyString 0 Hr).
Qed.

(** X28.  The substitution of the older class matches the identifier as
    written, whatever characters it holds, and knows no exception for a
    string that is the identifier itself: when the value of the record, as
    a string, holds no [$], the step of [resolve] for the record gives
    [acc.split(id).join(value)], so that [resolve(id)] gives the value as a
    string. *)
Theorem older_substitution_is_literal :
  forall (s replacement : string) (r : Older.Token),
    Older.id r <> EmptyString ->
    ToString (Older.value_or_undefined r) = Some replacement ->
    dollar_free replacement = true ->
    Older.reduce_step (VString s) r
    = Fulfilled (VString (join_with replacement (split (Older.id r) s)))
    /\ Older.reduce_step (VString (Older.id r)) r
       = Fulfilled (VString replacement).
Proof.
  intros s replacement r Hid Hv Hr. unfold Older.reduce_step. rewrite Hv.
  rewrite !(replace_all_is_split_and_join _ _ _ Hid Hr).
  split; [reflexivity|]. do 2 f_equal.
  destruct (Older.id r) as [|c i] eqn:E; [now elim Hid|].
  unfold split. cbn [split_scan]. rewrite prefix_refl.
  assert (Skip : forall (x : string) (cur : string),
            split_scan (String c i) cur (String.length x) x = [cur]).
  { induction x as [|a x IH]; intros cur; [reflexivity | apply IH]. }
  replace (String.length (String c i) - 1) with (String.length i)
    by (simpl; lia).
  rewrite Skip.
  unfold join_with. simpl. now rewrite append_nil_r.
Qed.

Lemma older_substitution_is_literal_witness :
  Older.reduce_step (VString "x {$ASYNCID$1$upper$1$} y")
    {| Older.id := "{$ASYNCID$1$upper$1$}"; Older.count := 1;
       Older.context := emptyObject; Older.fn := normalize upper;
       Older.name := "upper"; Older.args := [VString "a"];
       Older.value := Some (VArray [VString "A"; VString "B"]) |}
  = Fulfilled
      (VString (join_with "A,B" (split "{$ASYNCID$1$upper$1$}"
                                   "x {$ASYNCID$1$upper$1$} y")))
  /\ Older.reduce_step (VString "{$ASYNCID$1$upper$1$}")
       {| Older.id := "{$ASYNCID$1$upper$1$}"; Older.count := 1;
          Older.context := emptyObject; Older.fn := normalize upper;
          Older.name := "upper"; Older.args := [VString "a"];
          Older.value := Some (VArray [VString "A"; VString "B"]) |}
     = Fulfilled (VString "A,B").
Proof.
  apply (older_substitution_is_literal "x {$ASYNCID$1$upper$1$} y" "A,B"
           {| Older.id := "{$ASYNCID$1$upper$1$}"; Older.count := 1;
              Older.context := emptyObject; Older.fn := normalize upper;
              Older.name := "upper"; Older.args := [VString "a"];
              Older.value := Some (VArray [VString "A"; VString "B"]) |});
    [discriminate | reflexivity | reflexivity].
Defined.

Lemma older_start_flat (records : list (string * Older.Token))
  (l : list jsvalue) :
  forallb (Older.flat records) l = true ->
  Older.start_all records l = Fulfilled (map Older.Plain l).
Proof.
  induction l as [|a l IH]; intros H; [reflexivity|].
  simpl in H. apply andb_true_iff in H. destruct H as [Ha Hl].
  cbn [Older.start_all map]. rewrite (IH Hl).
  unfold Older.flat in Ha. unfold Older.func.
  destruct (ToString a) as [k|]; [|discriminate].
  destruct (assoc k records); [discriminate|].
  apply negb_true_iff in Ha. now rewrite Ha.
Qed.

Lemma older_await_plain (l : list jsvalue) :
  Older.await_all (map Older.Plain l) = Fulfilled l.
Proof.
  induction l as [|a l IH]; [reflexivity|]. simpl. now rewrite IH.
Qed.

(** X29.  One record of the older class, stored under its identifier.
    When every argument of the record converts to a property key that is
    neither a stored identifier nor a member name of [Object.prototype],
    the callback of [resolve] applies the implementation to the arguments
    as they are.  If it returns, the result becomes the [value] of the record
    and nothing else changes; if it fails, the promise is rejected with the
    error of the helper itself, unwrapped, and the state is as before. *)
Theorem older_record_resolution :
  forall (r r0 : Older.Token) (st : Older.AsyncHelpers),
    assoc (Older.id r) (Older.ids st) = Some r0 ->
    forallb (Older.flat (Older.ids st)) (Older.args r) = true ->
    (forall v,
       settle (Older.fn r) (Older.context r) (Older.args r) = Returns v ->
       Older.resolve_record r st
       = (Fulfilled tt,
          Older.set_ids (Older.store_value (Older.id r) v) st))
    /\ (forall e,
          settle (Older.fn r) (Older.context r) (Older.args r) = Fails e ->
          Older.resolve_record r st = (Rejected e, st)).
Proof.
  intros r r0 st Hr Hf. unfold Older.resolve_record.
  rewrite (older_start_flat _ _ Hf), older_await_plain.
  split; intros x Hs; rewrite Hs; [now rewrite Hr | reflexivity].
Qed.

Lemma older_record_resolution_witness :
  (forall v,
     settle (normalize (throws "boom")) emptyObject [VString "a"] = Returns v ->
     Older.resolve_record
       {| Older.id := "{$ASYNCID$1$upper$1$}"; Older.count := 1;
          Older.context := emptyObject; Older.fn := normalize (throws "boom");
          Older.name := "upper"; Older.args := [VString "a"];
          Older.value := None |}
       (snd (Older.wrapped "upper" (normalize (throws "boom")) 1 VUndefined
               [VString "a"] (Older.constructor None)))
     = (Fulfilled tt,
        Older.set_ids (Older.store_value "{$ASYNCID$1$upper$1$}" v)
          (snd (Older.wrapped "upper" (normalize (throws "boom")) 1 VUndefined
                  [VString "a"] (Older.constructor None)))))
  /\ (forall e,
        settle (normalize (throws "boom")) emptyObject [VString "a"] = Fails e ->
        Older.resolve_record
          {| Older.id := "{$ASYNCID$1$upper$1$}"; Older.count := 1;
             Older.context := emptyObject; Older.fn := normalize (throws "boom");
             Older.name := "upper"; Older.args := [VString "a"];
             Older.value := None |}
          (snd (Older.wrapped "upper" (normalize (throws "boom")) 1 VUndefined
                  [VString "a"] (Older.constructor None)))
        = (Rejected e,
           snd (Older.wrapped "upper" (normalize (throws "boom")) 1 VUndefined
                  [VString "a"] (Older.constructor None)))).
Proof.
  apply (older_record_resolution
           {| Older.id := "{$ASYNCID$1$upper$1$}"; Older.count := 1;
              Older.context := emptyObject;
              Older.fn := normalize (throws "boom");
              Older.name := "upper"; Older.args := [VString "a"];
              Older.value := None |}
           {| Older.id := "{$ASYNCID$1$upper$1$}"; Older.count := 1;
              Older.context := emptyObject;
              Older.fn := normalize (throws "boom");
              Older.name := "upper"; Older.args := [VString "a"];
              Older.value := None |}
           (snd (Older.wrapped "upper" (normalize (throws "boom")) 1 VUndefined
                   [VString "a"] (Older.constructor None))));
    reflexivity.
Defined.

(** The error of a helper reaches the caller of [resolve] as it is. *)
Example older_resolve_rejects_with_the_error_of_the_helper :
  fst (Older.resolve (VString "x")
         (snd (Older.wrapped "upper" (normalize (throws "boom")) 1 VUndefined
                 [VString "a"] (Older.constructor None))))
  = Rejected (JsError "boom").
Proof. reflexivity. Qed.
